(** * Holoscan sensor bridge: the control-plane driver (hololink.cpp)

    A shallow embedding of [src/hololink/hololink.cpp]: the register access
    engine ([read_uint32], [write_uint32], [execute]), the I2C, SPI and GPIO
    controllers built on it, and the reset sequence.

    Conventions.
    - [uint8_t], [uint16_t] and [uint32_t] values are [Z] with the
      wrap-around written out ([u8], [u16], [u32]).
    - [std::vector<uint8_t>] is [list Z]; [size()] is [length], and the
      narrowing of a [size_t] into a [uint32_t] is written [u32].
    - The code is sequential C++ with exceptions: a computation is a function
      from the [World] to an [Outcome] and the next [World].
    - Everything outside the process (the clock behind [Timeout], the socket,
      the discovery service, the reset listeners' bodies) is an
      [Environment] consulted at a logical time that every interaction
      advances.
    - The [while (true)] loops take a fuel; [OutOfFuel] stands for a loop that
      has not finished yet and is never the result of the C++ code.
    - An [assert] is taken as compiled in (a build without NDEBUG): a false
      one ends the run with [AssertFailed]. *)

From Stdlib Require Import ZArith Lia Bool.
From stdpp Require Import base list gmap strings.

Local Open Scope Z_scope.

(** ** Machine integers *)

Definition u8 (z : Z) : Z := z mod 2 ^ 8.
Definition u16 (z : Z) : Z := z mod 2 ^ 16.
Definition u32 (z : Z) : Z := z mod 2 ^ 32.

(** [std::vector<uint8_t>::size()]. *)
Definition size (v : list Z) : Z := Z.of_nat (length v).

(** [v[i]] inside the bounds of [v] (the callers check the index first). *)
Definition at_ (v : list Z) (i : Z) : Z := default 0 (v !! Z.to_nat i).

(** ** Wire format helpers *)

(** Modelled from the spec: [native::Serializer], whose source
    (hololink/native/serializer.hpp) this development does not have.  The
    spec fixes the wire format as
    "big-endian multi-byte fields"; an append beyond the capacity of the
    buffer fails and leaves the serializer as it was. *)
Record Serializer := mkSerializer {
  ser_capacity : Z;
  ser_bytes : list Z
}.

Definition ser_append (bs : list Z) (s : Serializer) : option Serializer :=
  if size (ser_bytes s) + size bs <=? ser_capacity s
  then Some (mkSerializer (ser_capacity s) (ser_bytes s ++ bs))
  else None.

Definition uint16_be (z : Z) : list Z :=
  [u8 (Z.shiftr z 8); u8 z].

Definition uint32_be (z : Z) : list Z :=
  [u8 (Z.shiftr z 24); u8 (Z.shiftr z 16); u8 (Z.shiftr z 8); u8 z].

Definition append_uint8 (z : Z) := ser_append [u8 z].
Definition append_uint16_be (z : Z) := ser_append (uint16_be z).
Definition append_uint32_be (z : Z) := ser_append (uint32_be z).

(** Modelled from the spec: [native::Deserializer], whose source
    (hololink/native/deserializer.hpp) this development does not have: a
    cursor over the received bytes, big-endian like the serializer; a read
    past the end fails. *)
Record Deserializer := mkDeserializer {
  des_buffer : list Z;
  des_position : nat
}.

Definition des_take (n : nat) (d : Deserializer) : option (list Z * Deserializer) :=
  let rest := drop (des_position d) (des_buffer d) in
  if (n <=? length rest)%nat
  then Some (take n rest, mkDeserializer (des_buffer d) (des_position d + n))
  else None.

Definition be_value (bs : list Z) : Z :=
  fold_left (fun acc b => Z.lor (Z.shiftl acc 8) b) bs 0.

Definition next_uint8 (d : Deserializer) : option (Z * Deserializer) :=
  '(bs, d') ← des_take 1 d; Some (be_value bs, d').
Definition next_uint16_be (d : Deserializer) : option (Z * Deserializer) :=
  '(bs, d') ← des_take 2 d; Some (be_value bs, d').
Definition next_uint32_be (d : Deserializer) : option (Z * Deserializer) :=
  '(bs, d') ← des_take 4 d; Some (be_value bs, d').

(** ** Constants of hololink.hpp *)

(** hololink.cpp names these constants and hololink.hpp, which this
    development does not have, gives them their values: they are
    parameters. *)
Class Constants := {
  WR_DWORD : Z;
  RD_DWORD : Z;
  REQUEST_FLAGS_ACK_REQUEST : Z;
  REQUEST_FLAGS_SEQUENCE_CHECK : Z;
  RESPONSE_SUCCESS : Z;
  FPGA_VERSION : Z;
  CLNX_SPI_CTRL : Z;
  I2C_START : Z;
  I2C_CORE_EN : Z;
  I2C_DONE_CLEAR : Z;
  I2C_BUSY : Z;
  I2C_DONE : Z;
  GPIO_PIN_RANGE : Z;
  IN : Z;
  OUT : Z;
  LOW : Z;
  HIGH : Z;
  (* the default of the [check_sequence] / [sequence_check] arguments *)
  DEFAULT_SEQUENCE_CHECK : bool
}.

(** Constants of the anonymous namespace of hololink.cpp. *)
Definition SPI_START : Z := 0x0001.
Definition SPI_BUSY : Z := 0x0100.
Definition SPI_CFG_CPOL : Z := 0x0010.
Definition SPI_CFG_CPHA : Z := 0x0020.
Definition GPIO_OUTPUT_BASE_REGISTER : Z := 0x0000000C.
Definition GPIO_DIRECTION_BASE_REGISTER : Z := 0x0000002C.
Definition GPIO_STATUS_BASE_REGISTER : Z := 0x0000008C.
Definition GPIO_REGISTER_ADDRESS_OFFSET : Z := 0x00000004.
Definition CONTROL_PACKET_SIZE : Z := 20.

(** ** Exceptions and outcomes *)

(** The message of a [std::runtime_error], by throw site. *)
Inductive what :=
| InvalidAddress (address : Z)
| UnableToSerialize
| UnableToDeserialize
| FailedToConvertAddress
| SendtoFailed
| SelectFailed
| RecvfromFailed
| WriteResponseCode (address value response_code : Z)
| ReadResponseCode (response_code : Z)
| InvalidClockDivisor (clock_divisor : Z)
| InvalidChipSelect (chip_select : Z)
| InvalidPeripheralAddress (peripheral_i2c_address : Z)
| WriteBytesTooLarge (write_byte_count : Z)
| InvalidReadByteCount (read_byte_count : Z)
| UnexpectedI2cBusy (reg_control value : Z)
| SpiCommandTooLarge (write_command_count : Z)
| SpiBufferTooLarge (buffer_count : Z)
| SpiAckFailure (reg_control : Z)
| GpioTooManyPins (gpio_pin_number : Z)
| GpioInvalidDirection (pin direction : Z)
| GpioInvalidValue (pin value : Z)
| GpioInputRegister (pin : Z)
| GpioInvalidPin (pin : Z)
| ChannelNotFound.

(** The message of a [TimeoutError], by throw site. *)
Inductive timeout_what :=
| ReadTimeout (address : Z)
| WriteTimeout (address value : Z)
| I2cTimeout (peripheral_i2c_address : Z)
| SpiTimeout (reg_control : Z).

Inductive exception :=
| runtime_error (w : what)
| TimeoutError (w : timeout_what)
| bad_optional_access.

Inductive Outcome (A : Type) :=
| Ok (a : A)                (* normal return *)
| Throw (e : exception)     (* a C++ exception leaves the function *)
| AssertFailed              (* an [assert] aborts the process *)
| Undefined                 (* undefined behaviour *)
| OutOfFuel.                (* the loop has not finished within the fuel *)
Arguments Ok {A} a.
Arguments Throw {A} e.
Arguments AssertFailed {A}.
Arguments Undefined {A}.
Arguments OutOfFuel {A}.

(** The error taxonomy of the specification (section 7), which the code
    flattens into [std::runtime_error] and [TimeoutError]: malformed
    arguments are InvalidArgument, a non-success response code or an
    inconsistent device state is ProtocolError, writing a pin that is not an
    output is InvalidState. *)
Inductive ErrorKind :=
| InvalidArgument | ProtocolError | TimeoutErrorKind | InvalidState | OtherError.

Definition error_kind (e : exception) : ErrorKind :=
  match e with
  | TimeoutError _ => TimeoutErrorKind
  | runtime_error (InvalidAddress _)
  | runtime_error (InvalidClockDivisor _)
  | runtime_error (InvalidChipSelect _)
  | runtime_error (InvalidPeripheralAddress _)
  | runtime_error (WriteBytesTooLarge _)
  | runtime_error (InvalidReadByteCount _)
  | runtime_error (SpiCommandTooLarge _)
  | runtime_error (SpiBufferTooLarge _)
  | runtime_error (GpioTooManyPins _)
  | runtime_error (GpioInvalidDirection _ _)
  | runtime_error (GpioInvalidValue _ _)
  | runtime_error (GpioInvalidPin _) => InvalidArgument
  | runtime_error (WriteResponseCode _ _ _)
  | runtime_error (ReadResponseCode _)
  | runtime_error (UnexpectedI2cBusy _ _)
  | runtime_error (SpiAckFailure _) => ProtocolError
  | runtime_error (GpioInputRegister _) => InvalidState
  | _ => OtherError
  end.

(** ** The world *)

(** What the process does to its surroundings, newest first. *)
Inductive Event :=
| Sent (datagram : list Z)          (* [sendto] on the control socket *)
| Slept (milliseconds : Z)          (* [std::this_thread::sleep_for] *)
| ArpSet (interface client_ip_address mac_id : list Z)
| ResetCalled (controller : nat).   (* [reset_controller->reset()] *)

Record World := mkWorld {
  sequence_ : Z;                    (* [uint16_t sequence_] *)
  reset_controllers_ : list nat;    (* the registered listeners, by identity *)
  now : Z;                          (* logical time: interactions so far *)
  events : list Event
}.

Inductive select_result :=
| SelectError          (* [select] returned -1 *)
| SelectExceptional    (* the socket is in the exception set *)
| SelectTimedOut       (* [select] returned 0 *)
| SelectReadable.

Inductive recvfrom_result :=
| RecvError                      (* [recvfrom] returned -1 *)
| Received (bytes : list Z).     (* the bytes copied into the buffer *)

(** The metadata of a re-enumerated channel: the three strings [reset]
    asks for, each possibly absent. *)
Record Metadata := mkMetadata {
  md_interface : option (list Z);
  md_client_ip_address : option (list Z);
  md_mac_id : option (list Z)
}.

(** A computation of the code: from the world to an outcome and the next
    world. *)
Definition M (A : Type) : Type := World -> Outcome A * World.

(** Everything the code depends on and does not decide.  The class
    [Timeout] (hololink/timeout.hpp) is among it: the spec describes it as
    "a stateful object tracking an operation's deadline and governing retry
    eligibility", so its [expired()] and [retry()] are answers of the
    environment at the time of the call.  The answers may depend on the time
    and on the history of events. *)
Class Environment := {
  Timeout : Type;
  new_Timeout : Z -> Z -> Timeout;            (* [Timeout(timeout_s, retry_s)], in ms *)
  default_timeout : option Timeout -> Timeout;
  i2c_timeout : option Timeout -> Timeout;
  spi_timeout : option Timeout -> Timeout;
  expired : Timeout -> list Event -> Z -> bool;   (* the deadline has passed *)
  retry : Timeout -> list Event -> Z -> bool;     (* another attempt is allowed *)
  inet_pton_ok : bool;                        (* [peer_ip_] is a valid address *)
  sendto_ok : Z -> bool;
  sys_select : list Event -> Z -> select_result;      (* history, time *)
  sys_recvfrom : list Event -> Z -> recvfrom_result;
  find_channel : Z -> option Metadata;      (* [None]: the enumerator raises *)
  controller_reset : nat -> M unit            (* the body of a listener's [reset()] *)
}.

(** ** The monad of the code: state and exceptions *)

Definition ret {A} (a : A) : M A := fun w => (Ok a, w).

Definition bind {A B} (m : M A) (k : A -> M B) : M B :=
  fun w =>
    match m w with
    | (Ok a, w') => k a w'
    | (Throw e, w') => (Throw e, w')
    | (AssertFailed, w') => (AssertFailed, w')
    | (Undefined, w') => (Undefined, w')
    | (OutOfFuel, w') => (OutOfFuel, w')
    end.

Declare Scope hololink_scope.
Delimit Scope hololink_scope with hololink.
Notation "x <- m ; k" := (bind m (fun x => k))
  (at level 20, m at level 100, k at level 200, only parsing) : hololink_scope.
Notation "' pat <- m ; k" := (bind m (fun x => match x with pat => k end))
  (at level 20, pat pattern, m at level 100, k at level 200, only parsing)
  : hololink_scope.
Local Open Scope hololink_scope.

Definition throw {A} (e : exception) : M A := fun w => (Throw e, w).
Definition assert_ (b : bool) : M unit :=
  fun w => if b then (Ok tt, w) else (AssertFailed, w).
Definition undefined {A} : M A := fun w => (Undefined, w).
Definition out_of_fuel {A} : M A := fun w => (OutOfFuel, w).

(** [try { m } catch (const std::exception& e) { }]. *)
Definition try_ignore (m : M unit) : M unit :=
  fun w =>
    match m w with
    | (Throw _, w') => (Ok tt, w')
    | r => r
    end.

(** One interaction with the surroundings: read the time and advance it. *)
Definition tick : M Z :=
  fun w => (Ok (now w),
            mkWorld (sequence_ w) (reset_controllers_ w) (now w + 1) (events w)).

(** The history that the surroundings have seen so far. *)
Definition history : M (list Event) := fun w => (Ok (events w), w).

Definition emit (e : Event) : M unit :=
  fun w => (Ok tt,
            mkWorld (sequence_ w) (reset_controllers_ w) (now w) (e :: events w)).

Definition sleep_for (milliseconds : Z) : M unit :=
  _ <- tick; emit (Slept milliseconds).

(** ** Transport session and register access engine *)

Section Engine.
Context {K : Constants} {E : Environment}.

Definition timeout_expired (timeout : Timeout) : M bool :=
  seen <- history; n <- tick; ret (expired timeout seen n).

Definition timeout_retry (timeout : Timeout) : M bool :=
  seen <- history; n <- tick; ret (retry timeout seen n).

(** [Hololink::next_sequence]. *)
Definition next_sequence : M Z :=
  fun w =>
    let r := sequence_ w in
    (Ok r, mkWorld (u16 (sequence_ w + 1)) (reset_controllers_ w) (now w) (events w)).

(** [Hololink::send_control]. *)
Definition send_control (request : list Z) : M unit :=
  if negb inet_pton_ok then throw (runtime_error FailedToConvertAddress)
  else
    n <- tick;
    if sendto_ok n then emit (Sent request)
    else throw (runtime_error SendtoFailed).

(** The [do { recvfrom } while (received_bytes <= 0)] of [receive_control];
    the received bytes are stored in a [std::vector<uint8_t>]. *)
Fixpoint recvfrom_loop (fuel : nat) : M (list Z) :=
  match fuel with
  | O => out_of_fuel
  | S fuel' =>
      seen <- history;
      n <- tick;
      match sys_recvfrom seen n with
      | RecvError => throw (runtime_error RecvfromFailed)
      | Received bytes =>
          if size bytes <=? 0 then recvfrom_loop fuel'
          else ret (u8 <$> bytes)
      end
  end.

(** [Hololink::receive_control]: the empty vector stands for "no reply". *)
Fixpoint receive_control (fuel : nat) (timeout : option Timeout) : M (list Z) :=
  match fuel with
  | O => out_of_fuel
  | S fuel' =>
      is_expired <- match timeout with
                   | Some t => timeout_expired t
                   | None => ret false
                   end;
      if is_expired then ret []
      else
        seen <- history;
        n <- tick;
        match sys_select seen n with
        | SelectError => throw (runtime_error SelectFailed)
        | SelectExceptional => ret []
        | SelectTimedOut => receive_control fuel' timeout
        | SelectReadable => recvfrom_loop fuel'
        end
  end.

(** [Hololink::executed]: a hook with an empty body. *)
Definition executed (request reply : list Z) : M unit := ret tt.

(** The header of a reply, as [execute] deserializes it: the sequence
    number, the response code and the deserializer left after them. *)
Definition reply_header (reply : list Z) : option (Z * Z * Deserializer) :=
  let deserializer := mkDeserializer reply 0 in
  '(_, deserializer) ← next_uint8 deserializer;          (* reply_cmd_code *)
  '(_, deserializer) ← next_uint8 deserializer;          (* reply_flags *)
  '(reply_sequence, deserializer) ← next_uint16_be deserializer;
  '(response_code, deserializer) ← next_uint8 deserializer;
  Some (reply_sequence, response_code, deserializer).

(** The [while (true)] of [Hololink::execute]. *)
Fixpoint execute_loop (fuel : nat) (sequence : Z) (request : list Z)
    (timeout : Timeout) : M (bool * option Z * option Deserializer) :=
  match fuel with
  | O => out_of_fuel
  | S fuel' =>
      reply <- receive_control fuel' (Some timeout);
      _ <- executed request reply;
      if size reply =? 0 then ret (false, None, None)   (* timed out *)
      else
        match reply_header reply with
        | None => throw (runtime_error UnableToDeserialize)
        | Some (reply_sequence, response_code, deserializer) =>
            if sequence =? reply_sequence
            then ret (true, Some response_code, Some deserializer)
            else execute_loop fuel' sequence request timeout
        end
  end.

(** [Hololink::execute]. *)
Definition execute (fuel : nat) (sequence : Z) (request : list Z)
    (timeout : Timeout) : M (bool * option Z * option Deserializer) :=
  _ <- send_control request;
  execute_loop fuel sequence request timeout.

(** The request flags of [write_uint32_] and [read_uint32_]. *)
Definition request_flags (sequence_check : bool) : Z :=
  let flags := REQUEST_FLAGS_ACK_REQUEST in
  if sequence_check then Z.lor flags REQUEST_FLAGS_SEQUENCE_CHECK else flags.

(** The serialization of [write_uint32_], [None] when an append fails. *)
Definition write_request (sequence_check : bool) (sequence address value : Z)
    : option (list Z) :=
  let serializer := mkSerializer CONTROL_PACKET_SIZE [] in
  let flags := request_flags sequence_check in
  serializer ← append_uint8 WR_DWORD serializer;
  serializer ← append_uint8 flags serializer;
  serializer ← append_uint16_be sequence serializer;
  serializer ← append_uint8 0 serializer;               (* reserved *)
  serializer ← append_uint8 0 serializer;               (* reserved *)
  serializer ← append_uint32_be address serializer;
  serializer ← append_uint32_be value serializer;
  Some (ser_bytes serializer).

(** The serialization of [read_uint32_]. *)
Definition read_request (sequence_check : bool) (sequence address : Z)
    : option (list Z) :=
  let serializer := mkSerializer CONTROL_PACKET_SIZE [] in
  let flags := request_flags sequence_check in
  serializer ← append_uint8 RD_DWORD serializer;
  serializer ← append_uint8 flags serializer;
  serializer ← append_uint16_be sequence serializer;
  serializer ← append_uint8 0 serializer;               (* reserved *)
  serializer ← append_uint8 0 serializer;               (* reserved *)
  serializer ← append_uint32_be address serializer;
  Some (ser_bytes serializer).

(** [Hololink::write_uint32_]. *)
Definition write_uint32_ (fuel : nat) (address value : Z) (timeout : Timeout)
    (response_expected sequence_check : bool) : M bool :=
  if negb (Z.land address 3 =? 0) then throw (runtime_error (InvalidAddress address))
  else
    sequence <- next_sequence;
    match write_request sequence_check sequence address value with
    | None => throw (runtime_error UnableToSerialize)
    | Some request =>
        '(status, optional_response_code, deserializer) <-
          execute fuel sequence request timeout;
        if negb status then ret false                   (* timed out *)
        else
          match optional_response_code with
          | None =>
              if response_expected then ret false
              else throw bad_optional_access
          | Some response_code =>
              if response_code =? RESPONSE_SUCCESS then ret true
              else throw (runtime_error
                            (WriteResponseCode address value response_code))
          end
    end.

(** The [while (true)] of [Hololink::write_uint32]. *)
Fixpoint write_uint32_loop (fuel : nat) (address value : Z) (timeout : Timeout)
    (retry_ sequence_check : bool) : M bool :=
  match fuel with
  | O => out_of_fuel
  | S fuel' =>
      status <- write_uint32_ fuel' address value timeout retry_ sequence_check;
      if status then ret status
      else if negb retry_ then ret false                (* break; return false *)
      else
        again <- timeout_retry timeout;
        if negb again then throw (TimeoutError (WriteTimeout address value))
        else write_uint32_loop fuel' address value timeout retry_ sequence_check
  end.

(** [Hololink::write_uint32].  An exception of the loop is caught, passed
    by [add_write_retries] (whose body is empty) and rethrown. *)
Definition write_uint32 (fuel : nat) (address value : Z)
    (in_timeout : option Timeout) (retry_ sequence_check : bool) : M bool :=
  let timeout := default_timeout in_timeout in
  write_uint32_loop fuel address value timeout retry_ sequence_check.

(** The rest of a read reply, after the header. *)
Definition read_reply_body (deserializer : Deserializer) : option (Z * Z * Z) :=
  '(_, deserializer) ← next_uint8 deserializer;          (* reserved *)
  '(response_address, deserializer) ← next_uint32_be deserializer;
  '(value, deserializer) ← next_uint32_be deserializer;
  '(latched_sequence, _) ← next_uint16_be deserializer;
  Some (response_address, value, latched_sequence).

(** [Hololink::read_uint32_]. *)
Definition read_uint32_ (fuel : nat) (address : Z) (timeout : Timeout)
    (sequence_check : bool) : M (bool * option Z) :=
  if negb (Z.land address 3 =? 0) then throw (runtime_error (InvalidAddress address))
  else
    sequence <- next_sequence;
    match read_request sequence_check sequence address with
    | None => throw (runtime_error UnableToSerialize)
    | Some request =>
        '(status, optional_response_code, deserializer) <-
          execute fuel sequence request timeout;
        if negb status then ret (false, None)           (* timed out *)
        else
          match optional_response_code with
          | None => throw bad_optional_access
          | Some response_code =>
              if negb (response_code =? RESPONSE_SUCCESS)
              then throw (runtime_error (ReadResponseCode response_code))
              else
                match deserializer with
                | None => undefined          (* a null pointer is dereferenced *)
                | Some deserializer =>
                    match read_reply_body deserializer with
                    | None => throw (runtime_error UnableToDeserialize)
                    | Some (response_address, value, latched_sequence) =>
                        _ <- assert_ (response_address =? u32 address);
                        ret (true, Some value)
                    end
                end
          end
    end.

(** The [while (true)] of [Hololink::read_uint32]. *)
Fixpoint read_uint32_loop (fuel : nat) (address : Z) (timeout : Timeout)
    (check_sequence : bool) : M Z :=
  match fuel with
  | O => out_of_fuel
  | S fuel' =>
      '(status, value) <- read_uint32_ fuel' address timeout check_sequence;
      if status then
        match value with
        | Some v => ret v
        | None => throw bad_optional_access
        end
      else
        again <- timeout_retry timeout;
        if negb again then throw (TimeoutError (ReadTimeout address))
        else read_uint32_loop fuel' address timeout check_sequence
  end.

(** [Hololink::read_uint32].  An exception of the loop is caught, passed
    by [add_read_retries] (whose body is empty) and rethrown. *)
Definition read_uint32 (fuel : nat) (address : Z) (in_timeout : option Timeout)
    (check_sequence : bool) : M Z :=
  let timeout := default_timeout in_timeout in
  read_uint32_loop fuel address timeout check_sequence.

(** [Hololink::get_fpga_version]. *)
Definition get_fpga_version (fuel : nat) (timeout : option Timeout)
    (check_sequence : bool) : M Z :=
  read_uint32 fuel FPGA_VERSION timeout check_sequence.

(** The frames that [write_uint32_] and [read_uint32_] serialize; the
    buffer of CONTROL_PACKET_SIZE bytes holds either. *)
Definition write_frame (sequence_check : bool) (sequence address value : Z)
    : list Z :=
  [u8 WR_DWORD; u8 (request_flags sequence_check);
   u8 (Z.shiftr sequence 8); u8 sequence; 0; 0;
   u8 (Z.shiftr address 24); u8 (Z.shiftr address 16);
   u8 (Z.shiftr address 8); u8 address;
   u8 (Z.shiftr value 24); u8 (Z.shiftr value 16);
   u8 (Z.shiftr value 8); u8 value].

Definition read_frame (sequence_check : bool) (sequence address : Z) : list Z :=
  [u8 RD_DWORD; u8 (request_flags sequence_check);
   u8 (Z.shiftr sequence 8); u8 sequence; 0; 0;
   u8 (Z.shiftr address 24); u8 (Z.shiftr address 16);
   u8 (Z.shiftr address 8); u8 address].

(** The requests of [n] successive attempts to read [address], the first
    with the sequence number [sequence]; oldest first. *)
Fixpoint attempt_frames (sequence_check : bool) (address sequence : Z) (n : nat)
    : list (list Z) :=
  match n with
  | O => []
  | S n' => read_frame sequence_check sequence address
            :: attempt_frames sequence_check address (u16 (sequence + 1)) n'
  end.

(** The sequence counter after [n] increments. *)
Fixpoint advance (sequence : Z) (n : nat) : Z :=
  match n with
  | O => sequence
  | S n' => advance (u16 (sequence + 1)) n'
  end.

End Engine.

(** The named locks ([i2c_lock], [spi_lock], [lock]) serialise threads and
    processes around a whole transaction.  The model runs one thread of one
    process, which never waits, so a [std::lock_guard] has no counterpart
    below; the place of each is marked. *)

(** ** I2C controller *)

Module I2c.

Record t := mk {
  reg_control_ : Z;
  reg_num_bytes_ : Z;
  reg_clk_ctrl_ : Z;
  reg_data_buffer_ : Z
}.

(** [Hololink::I2c::I2c]. *)
Definition new (i2c_address : Z) : t :=
  mk (u32 (i2c_address + 0)) (u32 (i2c_address + 4))
     (u32 (i2c_address + 8)) (u32 (i2c_address + 16)).

(** The word that the payload loops of [i2c_transaction] and
    [spi_transaction] build from [write_bytes] at [index]. *)
Definition payload_word (write_bytes : list Z) (index : Z) : Z :=
  let remaining := size write_bytes in
  let value := Z.shiftl (at_ write_bytes index) 0 in
  let value := if index + 1 <? remaining
               then Z.lor value (Z.shiftl (at_ write_bytes (index + 1)) 8)
               else value in
  let value := if index + 2 <? remaining
               then Z.lor value (Z.shiftl (at_ write_bytes (index + 2)) 16)
               else value in
  let value := if index + 3 <? remaining
               then Z.lor value (Z.shiftl (at_ write_bytes (index + 3)) 24)
               else value in
  u32 value.

Section WithEnvironment.
Context {K : Constants} {E : Environment}.

(** [for (size_t index = 0; index < remaining; index += 4)]:
    [steps] bounds the number of iterations. *)
Fixpoint write_payload (fuel steps : nat) (reg_data_buffer : Z)
    (write_bytes : list Z) (timeout : Timeout) (index : Z) : M unit :=
  if index <? size write_bytes then
    match steps with
    | O => out_of_fuel
    | S steps' =>
        _ <- write_uint32 fuel (u32 (reg_data_buffer + index))
               (payload_word write_bytes index) (Some timeout) true
               DEFAULT_SEQUENCE_CHECK;
        write_payload fuel steps' reg_data_buffer write_bytes timeout (index + 4)
    end
  else ret tt.

(** The first [while (true)]: start, and start again while neither BUSY
    nor DONE shows. *)
Fixpoint start_loop (fuel : nat) (self : t) (peripheral_i2c_address : Z)
    (timeout : Timeout) : M unit :=
  match fuel with
  | O => out_of_fuel
  | S fuel' =>
      let control := u32 (Z.lor (Z.lor (Z.shiftl peripheral_i2c_address 16)
                                       I2C_CORE_EN) I2C_START) in
      _ <- write_uint32 fuel' (reg_control_ self) control (Some timeout) true
             DEFAULT_SEQUENCE_CHECK;
      value <- read_uint32 fuel' (reg_control_ self) (Some timeout)
                 DEFAULT_SEQUENCE_CHECK;
      if negb (Z.land value (Z.lor I2C_DONE I2C_BUSY) =? 0) then ret tt
      else
        again <- timeout_retry timeout;
        if negb again
        then throw (TimeoutError (I2cTimeout peripheral_i2c_address))
        else start_loop fuel' self peripheral_i2c_address timeout
  end.

(** The second [while (true)]: poll until DONE. *)
Fixpoint poll_done (fuel : nat) (self : t) (peripheral_i2c_address : Z)
    (timeout : Timeout) : M unit :=
  match fuel with
  | O => out_of_fuel
  | S fuel' =>
      value <- read_uint32 fuel' (reg_control_ self) (Some timeout)
                 DEFAULT_SEQUENCE_CHECK;
      let done := Z.land value I2C_DONE in
      if negb (done =? 0) then ret tt
      else
        again <- timeout_retry timeout;
        if negb again
        then throw (TimeoutError (I2cTimeout peripheral_i2c_address))
        else poll_done fuel' self peripheral_i2c_address timeout
  end.

(** [for (uint32_t i = 0; i < word_count; ++i)] of the read-back. *)
Fixpoint read_words (fuel steps : nat) (reg_data_buffer : Z) (timeout : Timeout)
    (word_count i : Z) (r : list Z) : M (list Z) :=
  if i <? word_count then
    match steps with
    | O => out_of_fuel
    | S steps' =>
        value <- read_uint32 fuel (u32 (reg_data_buffer + u32 (i * 4)))
                   (Some timeout) DEFAULT_SEQUENCE_CHECK;
        let r := <[Z.to_nat (i * 4 + 0) := Z.land (Z.shiftr value 0) 0xFF]> r in
        let r := <[Z.to_nat (i * 4 + 1) := Z.land (Z.shiftr value 8) 0xFF]> r in
        let r := <[Z.to_nat (i * 4 + 2) := Z.land (Z.shiftr value 16) 0xFF]> r in
        let r := <[Z.to_nat (i * 4 + 3) := Z.land (Z.shiftr value 24) 0xFF]> r in
        read_words fuel steps' reg_data_buffer timeout word_count (u32 (i + 1)) r
    end
  else ret r.

(** The read-back phase that ends [i2c_transaction]. *)
Definition read_back (fuel : nat) (self : t) (read_byte_count : Z)
    (timeout : Timeout) : M (list Z) :=
  (* round up to get the whole next word *)
  let word_count := u32 (read_byte_count + 3) / 4 in
  let r := replicate (Z.to_nat (u32 (word_count * 4))) 0 in
  r <- read_words fuel (Z.to_nat word_count) (reg_data_buffer_ self) timeout
         word_count 0 r;
  ret (resize (Z.to_nat read_byte_count) 0 r).

(** [Hololink::I2c::i2c_transaction]. *)
Definition i2c_transaction (fuel : nat) (self : t) (peripheral_i2c_address : Z)
    (write_bytes : list Z) (read_byte_count : Z) (in_timeout : option Timeout)
    : M (list Z) :=
  if 0x80 <=? peripheral_i2c_address
  then throw (runtime_error (InvalidPeripheralAddress peripheral_i2c_address))
  else
    let write_byte_count := size write_bytes in
    if 0x100 <=? write_byte_count
    then throw (runtime_error (WriteBytesTooLarge write_byte_count))
    else if 0x100 <=? read_byte_count
    then throw (runtime_error (InvalidReadByteCount read_byte_count))
    else
      (* std::lock_guard lock(i2c_lock()); *)
      let timeout := i2c_timeout in_timeout in
      value <- read_uint32 fuel (reg_control_ self) (Some timeout)
                 DEFAULT_SEQUENCE_CHECK;
      if negb (Z.land value I2C_BUSY =? 0)
      then throw (runtime_error (UnexpectedI2cBusy (reg_control_ self) value))
      else
        (* I2C_DONE_CLEAR -> 1 *)
        let control := u32 (Z.lor (Z.lor (Z.shiftl peripheral_i2c_address 16)
                                         I2C_CORE_EN) I2C_DONE_CLEAR) in
        _ <- write_uint32 fuel (reg_control_ self) control (Some timeout) true
               DEFAULT_SEQUENCE_CHECK;
        (* I2C_DONE_CLEAR -> 0 *)
        let control := u32 (Z.lor (Z.shiftl peripheral_i2c_address 16)
                                  I2C_CORE_EN) in
        _ <- write_uint32 fuel (reg_control_ self) control (Some timeout) true
               DEFAULT_SEQUENCE_CHECK;
        (* make sure DONE is 0 *)
        value <- read_uint32 fuel (reg_control_ self) (Some timeout)
                   DEFAULT_SEQUENCE_CHECK;
        _ <- assert_ (Z.land value I2C_DONE =? 0);
        let num_bytes := u32 (Z.lor (Z.shiftl write_byte_count 0)
                                    (Z.shiftl read_byte_count 8)) in
        _ <- write_uint32 fuel (reg_num_bytes_ self) num_bytes (Some timeout) true
               DEFAULT_SEQUENCE_CHECK;
        _ <- write_payload fuel (length write_bytes) (reg_data_buffer_ self)
               write_bytes timeout 0;
        _ <- start_loop fuel self peripheral_i2c_address timeout;
        _ <- poll_done fuel self peripheral_i2c_address timeout;
        read_back fuel self read_byte_count timeout.

End WithEnvironment.
End I2c.

(** ** SPI controller *)

Module Spi.

Record t := mk {
  reg_control_ : Z;
  reg_num_bytes_ : Z;
  reg_spi_cfg_ : Z;
  reg_num_bytes2_ : Z;
  reg_data_buffer_ : Z;
  spi_cfg_ : Z;
  turnaround_cycles_ : Z
}.

(** [Hololink::Spi::Spi]. *)
Definition new (address spi_cfg : Z) : t :=
  mk (u32 (address + 0)) (u32 (address + 4)) (u32 (address + 8))
     (u32 (address + 12)) (u32 (address + 16)) spi_cfg 0.

(** [width_map[width]] of [get_spi]: [operator[]] of a [std::map] gives 0
    to a key it does not hold. *)
Definition width_map (width : Z) : Z :=
  if width =? 1 then 0
  else if width =? 2 then Z.shiftl 2 8
  else if width =? 4 then Z.shiftl 3 8
  else 0.

(** [Hololink::get_spi]. *)
Definition get_spi (spi_address chip_select clock_divisor cpol cpha width : Z)
    : M t :=
  if 16 <=? clock_divisor
  then throw (runtime_error (InvalidClockDivisor clock_divisor))
  else if 8 <=? chip_select
  then throw (runtime_error (InvalidChipSelect chip_select))
  else
    let spi_cfg := u32 (Z.lor (Z.lor clock_divisor (Z.shiftl chip_select 12))
                              (width_map width)) in
    let spi_cfg := if negb (cpol =? 0) then Z.lor spi_cfg SPI_CFG_CPOL
                   else spi_cfg in
    let spi_cfg := if negb (cpha =? 0) then Z.lor spi_cfg SPI_CFG_CPHA
                   else spi_cfg in
    ret (new spi_address spi_cfg).

Section WithEnvironment.
Context {K : Constants} {E : Environment}.

(** [for (size_t index = 0; index < remaining; index += 4)]. *)
Fixpoint write_payload (fuel steps : nat) (reg_data_buffer : Z)
    (write_bytes : list Z) (timeout : Timeout) (index : Z) : M unit :=
  if index <? size write_bytes then
    match steps with
    | O => out_of_fuel
    | S steps' =>
        _ <- write_uint32 fuel (u32 (reg_data_buffer + index))
               (I2c.payload_word write_bytes index) (Some timeout) true
               DEFAULT_SEQUENCE_CHECK;
        write_payload fuel steps' reg_data_buffer write_bytes timeout (index + 4)
    end
  else ret tt.

(** The [while (true)] that waits for BUSY to clear. *)
Fixpoint poll_busy (fuel : nat) (self : t) (timeout : Timeout) : M unit :=
  match fuel with
  | O => out_of_fuel
  | S fuel' =>
      value <- read_uint32 fuel' (reg_control_ self) (Some timeout)
                 DEFAULT_SEQUENCE_CHECK;
      let busy := Z.land value SPI_BUSY in
      if busy =? 0 then ret tt
      else
        again <- timeout_retry timeout;
        if negb again then throw (TimeoutError (SpiTimeout (reg_control_ self)))
        else poll_busy fuel' self timeout
  end.

(** [for (uint32_t i = start_byte_offset; i < buffer_count; i += 4)]. *)
Fixpoint read_words (fuel steps : nat) (reg_data_buffer : Z) (timeout : Timeout)
    (buffer_count i : Z) (r : list Z) : M (list Z) :=
  if i <? buffer_count then
    match steps with
    | O => out_of_fuel
    | S steps' =>
        value <- read_uint32 fuel (u32 (reg_data_buffer + i)) (Some timeout)
                   DEFAULT_SEQUENCE_CHECK;
        let r := <[Z.to_nat (i + 0) := Z.land (Z.shiftr value 0) 0xFF]> r in
        let r := <[Z.to_nat (i + 1) := Z.land (Z.shiftr value 8) 0xFF]> r in
        let r := <[Z.to_nat (i + 2) := Z.land (Z.shiftr value 16) 0xFF]> r in
        let r := <[Z.to_nat (i + 3) := Z.land (Z.shiftr value 24) 0xFF]> r in
        read_words fuel steps' reg_data_buffer timeout buffer_count (u32 (i + 4)) r
    end
  else ret r.

(** [Hololink::Spi::spi_transaction]. *)
Definition spi_transaction (fuel : nat) (self : t)
    (write_command_bytes write_data_bytes : list Z) (read_byte_count : Z)
    (in_timeout : option Timeout) : M (list Z) :=
  let write_bytes := write_command_bytes ++ write_data_bytes in
  let write_command_count := u32 (size write_command_bytes) in
  if 16 <=? write_command_count       (* available bits in num_bytes2 *)
  then throw (runtime_error (SpiCommandTooLarge write_command_count))
  else
    let write_byte_count := u32 (size write_bytes) in
    let buffer_size := 288 in
    let buffer_count := u32 (write_byte_count + read_byte_count) in
    if buffer_size <=? buffer_count
    then throw (runtime_error (SpiBufferTooLarge buffer_count))
    else
      (* std::lock_guard lock(spi_lock()); *)
      let timeout := spi_timeout in_timeout in
      value <- read_uint32 fuel (reg_control_ self) (Some timeout)
                 DEFAULT_SEQUENCE_CHECK;
      _ <- assert_ (Z.land value SPI_BUSY =? 0);
      (* Set the configuration *)
      _ <- write_uint32 fuel (reg_spi_cfg_ self) (spi_cfg_ self) (Some timeout)
             true DEFAULT_SEQUENCE_CHECK;
      _ <- write_payload fuel (length write_bytes) (reg_data_buffer_ self)
             write_bytes timeout 0;
      let num_bytes := u32 (Z.lor (Z.shiftl write_byte_count 0)
                                  (Z.shiftl read_byte_count 16)) in
      _ <- write_uint32 fuel (reg_num_bytes_ self) num_bytes (Some timeout) true
             DEFAULT_SEQUENCE_CHECK;
      _ <- assert_ (turnaround_cycles_ self <? 16);
      let num_bytes2 := u32 (Z.lor (turnaround_cycles_ self)
                                   (Z.shiftl write_command_count 8)) in
      _ <- write_uint32 fuel (reg_num_bytes2_ self) num_bytes2 (Some timeout) true
             DEFAULT_SEQUENCE_CHECK;
      (* start the SPI transaction; don't retry this one *)
      let control := SPI_START in
      status <- write_uint32 fuel (reg_control_ self) control (Some timeout)
                  false DEFAULT_SEQUENCE_CHECK;
      if negb status
      then throw (runtime_error (SpiAckFailure (reg_control_ self)))
      else
        _ <- poll_busy fuel self timeout;
        (* round up to get the whole next word *)
        let r := replicate (Z.to_nat (u32 (buffer_count + 3))) 0 in
        (* back up to the word boundary *)
        let start_byte_offset := Z.land write_byte_count (u32 (Z.lnot 3)) in
        r <- read_words fuel (Z.to_nat buffer_count) (reg_data_buffer_ self)
               timeout buffer_count start_byte_offset r;
        (* skip over the data that we wrote out: the range
           [begin + write_byte_count, begin + write_byte_count + read_byte_count)
           has to lie inside r *)
        if size r <? write_byte_count + read_byte_count then undefined
        else ret (take (Z.to_nat read_byte_count)
                       (drop (Z.to_nat write_byte_count) r)).

End WithEnvironment.
End Spi.

(** ** GPIO controller *)

Module GPIO.

Record t := mk { gpio_pin_number_ : Z }.

(** [Hololink::GPIO::set_bit], [clear_bit] and [read_bit]. *)
Definition set_bit (value bit : Z) : Z := u32 (Z.lor value (Z.shiftl 1 bit)).
Definition clear_bit (value bit : Z) : Z :=
  u32 (Z.land value (Z.lnot (Z.shiftl 1 bit))).
Definition read_bit (value bit : Z) : Z := Z.land (Z.shiftr value bit) 0x1.

Section WithEnvironment.
Context {K : Constants} {E : Environment}.

(** [Hololink::GPIO::GPIO]. *)
Definition new (gpio_pin_number : Z) : M t :=
  if GPIO_PIN_RANGE <? gpio_pin_number
  then throw (runtime_error (GpioTooManyPins gpio_pin_number))
  else ret (mk gpio_pin_number).

(** [Hololink::GPIO::set_direction]. *)
Definition set_direction (fuel : nat) (self : t) (pin direction : Z) : M unit :=
  if pin <? gpio_pin_number_ self then
    let register_address :=
      u32 (GPIO_DIRECTION_BASE_REGISTER + (pin / 32) * GPIO_REGISTER_ADDRESS_OFFSET) in
    let pin_bit := pin mod 32 in
    reg_val <- read_uint32 fuel register_address None DEFAULT_SEQUENCE_CHECK;
    if direction =? IN then
      _ <- write_uint32 fuel register_address (set_bit reg_val pin_bit) None true
               DEFAULT_SEQUENCE_CHECK;
      ret tt
    else if direction =? OUT then
      _ <- write_uint32 fuel register_address (clear_bit reg_val pin_bit) None true
               DEFAULT_SEQUENCE_CHECK;
      ret tt
    else throw (runtime_error (GpioInvalidDirection pin direction))
  else throw (runtime_error (GpioInvalidPin pin)).

(** [Hololink::GPIO::get_direction]. *)
Definition get_direction (fuel : nat) (self : t) (pin : Z) : M Z :=
  if pin <? gpio_pin_number_ self then
    let register_address :=
      u32 (GPIO_DIRECTION_BASE_REGISTER + (pin / 32) * GPIO_REGISTER_ADDRESS_OFFSET) in
    let pin_bit := pin mod 32 in
    reg_val <- read_uint32 fuel register_address None DEFAULT_SEQUENCE_CHECK;
    ret (read_bit reg_val pin_bit)
  else throw (runtime_error (GpioInvalidPin pin)).

(** [Hololink::GPIO::set_value]. *)
Definition set_value (fuel : nat) (self : t) (pin value : Z) : M unit :=
  if pin <? gpio_pin_number_ self then
    (* make sure this is an output pin *)
    direction <- get_direction fuel self pin;
    let status_register_address :=
      u32 (GPIO_STATUS_BASE_REGISTER + (pin / 32) * GPIO_REGISTER_ADDRESS_OFFSET) in
    let output_register_address :=
      u32 (GPIO_OUTPUT_BASE_REGISTER + (pin / 32) * GPIO_REGISTER_ADDRESS_OFFSET) in
    let pin_bit := pin mod 32 in
    if direction =? OUT then
      reg_val <- read_uint32 fuel status_register_address None
                   DEFAULT_SEQUENCE_CHECK;
      if value =? HIGH then
        _ <- write_uint32 fuel output_register_address (set_bit reg_val pin_bit) None true
                 DEFAULT_SEQUENCE_CHECK;
        ret tt
      else if value =? LOW then
        _ <- write_uint32 fuel output_register_address (clear_bit reg_val pin_bit) None true
                 DEFAULT_SEQUENCE_CHECK;
        ret tt
      else throw (runtime_error (GpioInvalidValue pin value))
    else throw (runtime_error (GpioInputRegister pin))
  else throw (runtime_error (GpioInvalidPin pin)).

(** [Hololink::GPIO::get_value]. *)
Definition get_value (fuel : nat) (self : t) (pin : Z) : M Z :=
  if pin <? gpio_pin_number_ self then
    let register_address :=
      u32 (GPIO_STATUS_BASE_REGISTER + (pin / 32) * GPIO_REGISTER_ADDRESS_OFFSET) in
    let pin_bit := pin mod 32 in
    reg_val <- read_uint32 fuel register_address None DEFAULT_SEQUENCE_CHECK;
    ret (read_bit reg_val pin_bit)
  else throw (runtime_error (GpioInvalidPin pin)).

End WithEnvironment.
End GPIO.

(** ** Device lifecycle *)

Section Lifecycle.
Context {K : Constants} {E : Environment}.

(** [Hololink::on_reset]. *)
Definition on_reset (reset_controller : nat) : M unit :=
  fun w =>
    (Ok tt, mkWorld (sequence_ w) (reset_controllers_ w ++ [reset_controller])
                    (now w) (events w)).

(** [std::optional::value()]. *)
Definition value_ {A} (o : option A) : M A :=
  match o with
  | Some a => ret a
  | None => throw bad_optional_access
  end.

(** [Enumerator::find_channel], the discovery collaborator. *)
Definition Enumerator_find_channel : M Metadata :=
  n <- tick;
  match find_channel n with
  | Some metadata => ret metadata
  | None => throw (runtime_error ChannelNotFound)
  end.

(** [reset_controller->reset()]: a virtual call into the listener, whose
    body is code of the registrant. *)
Definition ResetController_reset (reset_controller : nat) : M unit :=
  _ <- emit (ResetCalled reset_controller);
  controller_reset reset_controller.

(** [for (... reset_controller : reset_controllers_)]. *)
Fixpoint reset_all (controllers : list nat) : M unit :=
  match controllers with
  | [] => ret tt
  | reset_controller :: rest =>
      _ <- ResetController_reset reset_controller;
      reset_all rest
  end.

Definition set_sequence (sequence : Z) : M unit :=
  fun w => (Ok tt, mkWorld sequence (reset_controllers_ w) (now w) (events w)).

Definition get_reset_controllers : M (list nat) :=
  fun w => (Ok (reset_controllers_ w), w).

(** [Hololink::reset]. *)
Definition reset (fuel : nat) : M unit :=
  spi <- Spi.get_spi CLNX_SPI_CTRL 0 15 0 1 1;
  let write_command_bytes := [0x01; 0x07] in
  let write_data_bytes := [0x0C] in
  let read_byte_count := 0 in
  _ <- Spi.spi_transaction fuel spi write_command_bytes write_data_bytes
         read_byte_count None;
  _ <- write_uint32 fuel 0x8 0 None true DEFAULT_SEQUENCE_CHECK;
  _ <- sleep_for 100;
  let write_data_bytes := [0x0F] in
  _ <- Spi.spi_transaction fuel spi write_command_bytes write_data_bytes
         read_byte_count None;
  _ <- sleep_for 100;
  _ <- write_uint32 fuel 0x8 0x3 None true DEFAULT_SEQUENCE_CHECK;
  (* Because this drives the unit to reset, we won't get a reply. *)
  _ <- try_ignore
         (_ <- write_uint32 fuel 0x4 0x8 None false DEFAULT_SEQUENCE_CHECK;
          ret tt);
  (* Now wait for the device to come back up. *)
  channel_metadata <- Enumerator_find_channel;
  interface <- value_ (md_interface channel_metadata);
  client_ip_address <- value_ (md_client_ip_address channel_metadata);
  mac_id <- value_ (md_mac_id channel_metadata);
  _ <- emit (ArpSet interface client_ip_address mac_id);
  (* our next request should have a sequence value of 1 *)
  _ <- set_sequence 1;
  let get_fpga_version_timeout := new_Timeout 30000 200 in
  version <- get_fpga_version fuel (Some get_fpga_version_timeout)
               DEFAULT_SEQUENCE_CHECK;
  (* Now go through and reset all registered clients. *)
  controllers <- get_reset_controllers;
  reset_all controllers.

End Lifecycle.

(** ** PTP synchronisation *)

(** [Hololink::ptp_synchronize].  FPGA_PTP_SYNC_TS_0 is a constant of
    hololink.hpp and [sequence_number_checking_] a member set by the
    constructor: both are arguments here.  Each turn of the loop makes its
    own default timeout for the read. *)
Section Ptp.
Context {K : Constants} {E : Environment}.

Fixpoint ptp_synchronize (fuel : nat) (FPGA_PTP_SYNC_TS_0 : Z)
    (sequence_number_checking_ : bool) (timeout : Timeout) : M bool :=
  match fuel with
  | O => out_of_fuel
  | S fuel' =>
      let read_timeout := default_timeout None in
      '(status, value) <- read_uint32_ fuel' FPGA_PTP_SYNC_TS_0 read_timeout
                            sequence_number_checking_;
      synchronized <-
        (if status then
           match value with
           | Some ptp_count => ret (negb (ptp_count =? 0))
           | None => throw bad_optional_access
           end
         else ret false);
      if synchronized then ret true     (* break; return true *)
      else
        is_expired <- timeout_expired timeout;
        if is_expired then ret false
        else
          _ <- sleep_for 100;
          ptp_synchronize fuel' FPGA_PTP_SYNC_TS_0 sequence_number_checking_
            timeout
  end.

(** [Hololink::and_uint32] and [Hololink::or_uint32]; the lock guard of
    [lock()] is the first statement of both. *)
Definition and_uint32 (fuel : nat) (address mask : Z) : M bool :=
  value <- read_uint32 fuel address None DEFAULT_SEQUENCE_CHECK;
  let value := Z.land value mask in
  write_uint32 fuel address value None true DEFAULT_SEQUENCE_CHECK.

Definition or_uint32 (fuel : nat) (address mask : Z) : M bool :=
  value <- read_uint32 fuel address None DEFAULT_SEQUENCE_CHECK;
  let value := Z.lor value mask in
  write_uint32 fuel address value None true DEFAULT_SEQUENCE_CHECK.

End Ptp.

(** ** Frame metadata *)

(** [next_uint64_be] of the deserializer, modelled like its 8-, 16- and
    32-bit siblings. *)
Definition next_uint64_be (d : Deserializer) : option (Z * Deserializer) :=
  '(bs, d') ← des_take 8 d; Some (be_value bs, d').

Record FrameMetadata := mkFrameMetadata {
  flags : Z;
  psn : Z;
  crc : Z;
  timestamp_s : Z;
  timestamp_ns : Z;
  bytes_written : Z;
  frame_number : Z;
  metadata_s : Z;
  metadata_ns : Z
}.

(** [Hololink::deserialize_metadata]; [None] stands for the
    [std::runtime_error] "Buffer underflow in metadata". *)
Definition deserialize_metadata (metadata_buffer : list Z)
    : option FrameMetadata :=
  let deserializer := mkDeserializer metadata_buffer 0 in
  '(flags, deserializer) ← next_uint32_be deserializer;
  '(psn, deserializer) ← next_uint32_be deserializer;
  '(crc, deserializer) ← next_uint32_be deserializer;
  '(timestamp_s, deserializer) ← next_uint64_be deserializer;
  '(timestamp_ns, deserializer) ← next_uint32_be deserializer;
  '(bytes_written, deserializer) ← next_uint64_be deserializer;
  '(frame_number, deserializer) ← next_uint32_be deserializer;
  '(metadata_s, deserializer) ← next_uint64_be deserializer;
  '(metadata_ns, deserializer) ← next_uint32_be deserializer;
  Some (mkFrameMetadata flags psn crc timestamp_s timestamp_ns bytes_written
          frame_number metadata_s metadata_ns).

(** ** The registry of devices *)

Module Registry.

(** The class [Metadata] (metadata.hpp) is used through its typed lookups
    only, [get<std::string>] and [get<int64_t>], which give an optional:
    they are parameters. *)
Class Lookups := {
  Metadata : Type;
  get_string : Metadata -> string -> option string;
  get_int64 : Metadata -> string -> option Z
}.

(** A [Hololink] object: its identity (the [n]-th object made, standing
    for the address a [shared_ptr] holds) and what the constructor
    stores. *)
Record Hololink := mkHololink {
  identity : nat;
  peer_ip_ : string;
  control_port_ : Z;                  (* [uint32_t] *)
  serial_number_ : string;
  sequence_number_checking_ : bool
}.

(** The static state: [hololink_by_serial_number] and the number of
    objects made so far. *)
Record State := mkState {
  hololink_by_serial_number : gmap string Hololink;
  objects : nat
}.

(** The three [std::runtime_error]s of [from_enumeration_metadata]. *)
Inductive error :=
| NoSerialNumber        (* Metadata has no "serial_number" *)
| NoPeerIp              (* Metadata has no "peer_ip" *)
| NoControlPort.        (* Metadata has no "control_port" *)

Section WithLookups.
Context {L : Lookups}.

(** [Hololink::from_enumeration_metadata]. *)
Definition from_enumeration_metadata (metadata : Metadata) (st : State)
    : (error + Hololink) * State :=
  match get_string metadata "serial_number" with
  | None => (inl NoSerialNumber, st)
  | Some serial_number =>
      match hololink_by_serial_number st !! serial_number with
      | None =>
          match get_string metadata "peer_ip" with
          | None => (inl NoPeerIp, st)
          | Some peer_ip =>
              match get_int64 metadata "control_port" with
              | None => (inl NoControlPort, st)
              | Some control_port =>
                  let opt_sequence_number_checking :=
                    get_int64 metadata "sequence_number_checking" in
                  (* an empty optional is different from 0 *)
                  let sequence_number_checking :=
                    match opt_sequence_number_checking with
                    | None => true
                    | Some v => negb (v =? 0)
                    end in
                  let r := mkHololink (objects st) peer_ip (u32 control_port)
                             serial_number sequence_number_checking in
                  (inr r,
                   mkState (<[serial_number := r]> (hololink_by_serial_number st))
                           (S (objects st)))
              end
          end
      | Some r => (inr r, st)
      end
  end.

(** [Hololink::enumerated]. *)
Definition enumerated (metadata : Metadata) : bool :=
  match get_string metadata "serial_number" with
  | None => false
  | Some _ =>
      match get_string metadata "peer_ip" with
      | None => false
      | Some _ =>
          match get_int64 metadata "control_port" with
          | None => false
          | Some _ => true
          end
      end
  end.

End WithLookups.

(** The [while (it != end()) it = erase(it)] of [reset_framework], over
    the keys in the order of the map. *)
Fixpoint erase_all (keys : list string) (m : gmap string Hololink)
    : gmap string Hololink :=
  match keys with
  | [] => m
  | key :: rest => erase_all rest (delete key m)
  end.

(** [Hololink::reset_framework]. *)
Definition reset_framework (st : State) : State :=
  mkState (erase_all (map_to_list (hololink_by_serial_number st)).*1
             (hololink_by_serial_number st))
          (objects st).

End Registry.

(** ** Vocabulary of the properties *)

(** [quiet m]: [m] sends nothing, leaves the session as it is and raises
    no [TimeoutError]. *)
Definition quiet {A} (m : M A) : Prop :=
  forall w o w', m w = (o, w') ->
    events w' = events w /\ sequence_ w' = sequence_ w /\
    reset_controllers_ w' = reset_controllers_ w /\
    forall x, o <> Throw (TimeoutError x).

(** [keeps_controllers m]: [m] leaves the registered listeners as they
    are. *)
Definition keeps_controllers {A} (m : M A) : Prop :=
  forall w o w', m w = (o, w') -> reset_controllers_ w' = reset_controllers_ w.

(** The little-endian bytes of a register word. *)
Definition le_bytes (word : Z) : list Z :=
  [Z.land (Z.shiftr word 0) 0xFF; Z.land (Z.shiftr word 8) 0xFF;
   Z.land (Z.shiftr word 16) 0xFF; Z.land (Z.shiftr word 24) 0xFF].

(** The read-back in the words of the specification: unpack the words
    little-endian and truncate to the requested length. *)
Definition unpack (read_byte_count : nat) (words : list Z) : list Z :=
  take read_byte_count (words ≫= le_bytes).

(** The word addresses [base], [base + 4], ... of the data buffer. *)
Definition word_addresses (base : Z) (first count : nat) : list Z :=
  (fun i => u32 (base + 4 * Z.of_nat i)) <$> seq first count.

Section Vocabulary.
Context {K : Constants} {E : Environment}.

(** Reading the registers at [addresses], in this order. *)
Fixpoint read_many (fuel : nat) (timeout : Timeout) (addresses : list Z)
    : M (list Z) :=
  match addresses with
  | [] => ret []
  | address :: rest =>
      value <- read_uint32 fuel address (Some timeout) DEFAULT_SEQUENCE_CHECK;
      values <- read_many fuel timeout rest;
      ret (value :: values)
  end.

(** [on_reset] for each listener of a list, in order. *)
Fixpoint register (controllers : list nat) : M unit :=
  match controllers with
  | [] => ret tt
  | c :: rest => _ <- on_reset c; register rest
  end.

End Vocabulary.

(** The listeners called so far, newest first. *)
Definition reset_calls (seen : list Event) : list nat :=
  omap (fun e => match e with ResetCalled c => Some c | _ => None end) seen.

(** A listener is discreet when its body neither registers listeners nor
    has listeners called, whatever else it does with the session. *)
Definition discreet (body : nat -> M unit) : Prop :=
  forall c w o w', body c w = (o, w') ->
    reset_controllers_ w' = reset_controllers_ w /\
    reset_calls (events w') = reset_calls (events w).

(** [calm m]: [m] has no listener called and registers none. *)
Definition calm {A} (m : M A) : Prop :=
  forall w o w', m w = (o, w') ->
    reset_controllers_ w' = reset_controllers_ w /\
    reset_calls (events w') = reset_calls (events w).

Section NotificationVocabulary.
Context {K : Constants} {E : Environment}.

(** [in_turn controllers w w']: from the world [w], the listeners of the
    list are called one after the other, each one in the world that the one
    before it has left when it returned, and the last one leaves [w']. *)
Fixpoint in_turn (controllers : list nat) (w w' : World) : Prop :=
  match controllers with
  | [] => w' = w
  | reset_controller :: rest =>
      exists w1,
        ResetController_reset reset_controller w = (Ok tt, w1) /\
        in_turn rest w1 w'
  end.

End NotificationVocabulary.

Section RegistryVocabulary.
Context {L : Registry.Lookups}.

(** The registry after a call of [from_enumeration_metadata] for each
    metadata of a list, in this order; a call that throws leaves the
    registry as it is. *)
Fixpoint enumerations (sightings : list Registry.Metadata)
    (st : Registry.State) : Registry.State :=
  match sightings with
  | [] => st
  | metadata :: rest =>
      enumerations rest (snd (Registry.from_enumeration_metadata metadata st))
  end.

End RegistryVocabulary.

Section MoreVocabulary.
Context {K : Constants} {E : Environment}.

(** The requests of [n] successive attempts to write [value] at
    [address], the first with the sequence number [sequence]; oldest
    first. *)
Fixpoint write_attempt_frames (sequence_check : bool) (address value sequence : Z)
    (n : nat) : list (list Z) :=
  match n with
  | O => []
  | S n' => write_frame sequence_check sequence address value
            :: write_attempt_frames sequence_check address value
                 (u16 (sequence + 1)) n'
  end.

End MoreVocabulary.

Section PayloadVocabulary.
Context {K : Constants} {E : Environment}.

(** Writing [value] at [address] for each pair of a list, in this
    order. *)
Fixpoint write_many (fuel : nat) (timeout : Timeout) (writes : list (Z * Z))
    : M unit :=
  match writes with
  | [] => ret tt
  | (address, value) :: rest =>
      _ <- write_uint32 fuel address value (Some timeout) true
             DEFAULT_SEQUENCE_CHECK;
      write_many fuel timeout rest
  end.

End PayloadVocabulary.

(** The words of a payload and the addresses of the data buffer they go
    to: word [k] holds the bytes [4k .. 4k+3]. *)
Definition payload_words (base : Z) (write_bytes : list Z) (first count : nat)
    : list (Z * Z) :=
  (fun k => (u32 (base + 4 * Z.of_nat k),
             I2c.payload_word write_bytes (4 * Z.of_nat k))) <$> seq first count.

(** ** A bench for worked examples *)

(** Sample values for the constants of the header. *)
Definition bench_constants : Constants := {|
  WR_DWORD := 0x04;
  RD_DWORD := 0x14;
  REQUEST_FLAGS_ACK_REQUEST := 0x01;
  REQUEST_FLAGS_SEQUENCE_CHECK := 0x02;
  RESPONSE_SUCCESS := 0x00;
  FPGA_VERSION := 0x80;
  CLNX_SPI_CTRL := 0x03000000;
  I2C_START := 0x0001;
  I2C_CORE_EN := 0x0002;
  I2C_DONE_CLEAR := 0x0010;
  I2C_BUSY := 0x0100;
  I2C_DONE := 0x1000;
  GPIO_PIN_RANGE := 0x100;
  IN := 1;
  OUT := 0;
  LOW := 0;
  HIGH := 1;
  DEFAULT_SEQUENCE_CHECK := true
|}.

(** A device simulated behind the socket.  It answers the request sent
    last, when [listens] says so: a read by the content of [registers], a
    write by an acknowledgement, both with the sequence number of the
    request and RESPONSE_SUCCESS. *)
Definition device_reply (registers : Z -> Z) (request : list Z) : list Z :=
  match request with
  | cmd :: flags :: s1 :: s0 :: _ :: _ :: a3 :: a2 :: a1 :: a0 :: rest =>
      let address := be_value [a3; a2; a1; a0] in
      [cmd; flags; s1; s0; 0; 0] ++
      (if cmd =? 0x14
       then [a3; a2; a1; a0] ++ uint32_be (registers address) ++ [s1; s0]
       else [])
  | _ => []
  end.

Definition last_request (seen : list Event) : list Z :=
  match seen with
  | Sent request :: _ => request
  | _ => []
  end.

(** The surroundings of the bench: the deadline of an exchange passes at
    once when the device does not listen to the request, and never
    otherwise; [retry()] allows another attempt until the time
    [retry_until]; the discovery service finds the channel; the listeners
    have nothing to do. *)
Definition bench (registers : Z -> Z) (listens : list Z -> bool)
    (retry_until : Z) : Environment := {|
  Timeout := unit;
  new_Timeout _ _ := tt;
  default_timeout _ := tt;
  i2c_timeout _ := tt;
  spi_timeout _ := tt;
  expired _ seen _ := negb (listens (last_request seen));
  retry _ _ n := n <? retry_until;
  inet_pton_ok := true;
  sendto_ok _ := true;
  sys_select seen _ :=
    if listens (last_request seen) then SelectReadable else SelectTimedOut;
  sys_recvfrom seen _ := Received (device_reply registers (last_request seen));
  find_channel _ := Some (mkMetadata (Some [101]) (Some [10; 0; 0; 1]) (Some [2; 0; 0; 0; 0; 1]));
  controller_reset _ := ret tt
|}.

Definition power_on : World := mkWorld 0x100 [] 0 [].

(** A device that answers every request, and one that answers none. *)
Definition attentive : list Z -> bool := fun _ => true.
Definition deaf : list Z -> bool := fun _ => false.

(** The device of the reset example: it answers everything but the
    reset trigger, the write to the register 0x4. *)
Definition resetting_device (request : list Z) : bool :=
  negb (be_value (take 4 (drop 6 request)) =? 0x4).

(** A read request for the firmware version with the sequence number
    0x0100, and the reply of the bench device to it. *)
Definition version_request : list Z := [0x14; 3; 1; 0; 0; 0; 0; 0; 0; 0x80].
Definition version_reply : list Z :=
  [0x14; 3; 1; 0; 0; 0; 0; 0; 0; 0x80; 0; 0; 0; 7; 1; 0].

(** The world after [version_request] was sent. *)
Definition version_requested : World :=
  mkWorld 0x101 [] 1 [Sent version_request].

(** A device that refuses every request: its reply carries the sequence
    number of the request and [response_code]. *)
Definition refusal (response_code : Z) (request : list Z) : list Z :=
  match request with
  | cmd :: flags :: s1 :: s0 :: _ => [cmd; flags; s1; s0; response_code; 0]
  | _ => []
  end.

(** The surroundings of a device that sends [answer request] for every
    request: no deadline ever passes and [retry()] always allows another
    attempt. *)
Definition answering_bench (answer : list Z -> list Z) : Environment := {|
  Timeout := unit;
  new_Timeout _ _ := tt;
  default_timeout _ := tt;
  i2c_timeout _ := tt;
  spi_timeout _ := tt;
  expired _ _ _ := false;
  retry _ _ _ := true;
  inet_pton_ok := true;
  sendto_ok _ := true;
  sys_select _ _ := SelectReadable;
  sys_recvfrom seen _ := Received (answer (last_request seen));
  find_channel _ := None;
  controller_reset _ := ret tt
|}.

(** The surroundings [E] with the listener bodies [body]. *)
Definition with_listeners (E : Environment) (body : nat -> M unit)
    : Environment := {|
  Timeout := @Timeout E;
  new_Timeout := @new_Timeout E;
  default_timeout := @default_timeout E;
  i2c_timeout := @i2c_timeout E;
  spi_timeout := @spi_timeout E;
  expired := @expired E;
  retry := @retry E;
  inet_pton_ok := @inet_pton_ok E;
  sendto_ok := @sendto_ok E;
  sys_select := @sys_select E;
  sys_recvfrom := @sys_recvfrom E;
  find_channel := @find_channel E;
  controller_reset := body
|}.

(** Listeners of which the one with the identity [faulty] throws. *)
Definition faulty_listener (faulty : nat) (c : nat) : M unit :=
  if (c =? faulty)%nat then throw bad_optional_access else ret tt.

(** Enumeration metadata on the bench: a list of keys with a string or an
    integer each. *)
Fixpoint bench_find (key : string) (metadata : list (string * (string + Z)))
    : option (string + Z) :=
  match metadata with
  | [] => None
  | (k, v) :: rest => if String.eqb k key then Some v else bench_find key rest
  end.

Definition bench_lookups : Registry.Lookups := {|
  Registry.Metadata := list (string * (string + Z));
  Registry.get_string metadata key :=
    match bench_find key metadata with Some (inl s) => Some s | _ => None end;
  Registry.get_int64 metadata key :=
    match bench_find key metadata with Some (inr i) => Some i | _ => None end
|}.

(** Two enumerations of the device SN1, the second from another address
    and without a port. *)
Definition first_sighting : list (string * (string + Z)) :=
  [("serial_number", inl "SN1"); ("peer_ip", inl "192.168.0.2");
   ("control_port", inr 8192)]%string.
Definition second_sighting : list (string * (string + Z)) :=
  [("serial_number", inl "SN1"); ("peer_ip", inl "192.168.0.3")]%string.

(** An enumeration of another device, SN2. *)
Definition other_sighting : list (string * (string + Z)) :=
  [("serial_number", inl "SN2"); ("peer_ip", inl "192.168.0.9");
   ("control_port", inr 8192)]%string.

Definition nothing_registered : Registry.State := Registry.mkState ∅ 0.

(** * Properties *)

(** ** Calculus of the monad *)

Lemma bind_ok {A B} (m : M A) (k : A -> M B) w a w1 :
  m w = (Ok a, w1) -> bind m k w = k a w1.
Proof. unfold bind. intros ->. reflexivity. Qed.

Lemma bind_throw {A B} (m : M A) (k : A -> M B) w e w1 :
  m w = (Throw e, w1) -> bind m k w = (Throw e, w1).
Proof. unfold bind. intros ->. reflexivity. Qed.

(** Every result of [bind m k] is an early exit of [m] or a result of [k]. *)
Lemma bind_inv {A B} (m : M A) (k : A -> M B) w o w' :
  bind m k w = (o, w') ->
  (exists a w1, m w = (Ok a, w1) /\ k a w1 = (o, w')) \/
  (m w = (match o with
          | Ok _ => OutOfFuel
          | Throw e => Throw e
          | AssertFailed => AssertFailed
          | Undefined => Undefined
          | OutOfFuel => OutOfFuel
          end, w') /\ forall b, o <> Ok b).
Proof.
  unfold bind. destruct (m w) as [[a|e| | |] w1]; intros H.
  - left. eauto.
  - right. inversion H; subst. split; [reflexivity|discriminate].
  - right. inversion H; subst. split; [reflexivity|discriminate].
  - right. inversion H; subst. split; [reflexivity|discriminate].
  - right. inversion H; subst. split; [reflexivity|discriminate].
Qed.

Lemma bind_inv_ok {A B} (m : M A) (k : A -> M B) w b w' :
  bind m k w = (Ok b, w') ->
  exists a w1, m w = (Ok a, w1) /\ k a w1 = (Ok b, w').
Proof.
  intros H. destruct (bind_inv _ _ _ _ _ H) as [?|[_ H1]]; [assumption|].
  exfalso. exact (H1 b eq_refl).
Qed.

(** ** Computations that only pass time *)

Ltac quiet_base :=
  intros w o w' H; inversion H; subst; repeat split; auto; discriminate.

Lemma quiet_ret {A} (a : A) : quiet (ret a).
Proof. quiet_base. Qed.

Lemma quiet_throw {A} e : quiet (@throw A (runtime_error e)).
Proof. quiet_base. Qed.

Lemma quiet_out_of_fuel {A} : quiet (@out_of_fuel A).
Proof. quiet_base. Qed.

Lemma quiet_tick : quiet tick.
Proof. quiet_base. Qed.

Lemma quiet_history : quiet history.
Proof. quiet_base. Qed.

Lemma quiet_bind {A B} (m : M A) (k : A -> M B) :
  quiet m -> (forall a, quiet (k a)) -> quiet (bind m k).
Proof.
  intros Hm Hk w o w' H.
  destruct (bind_inv _ _ _ _ _ H) as [(a & w1 & H1 & H2)|[H1 _]].
  - destruct (Hm _ _ _ H1) as (E1 & E2 & E3 & _).
    destruct (Hk a _ _ _ H2) as (F1 & F2 & F3 & F4).
    split; [congruence|split; [congruence|split; [congruence|exact F4]]].
  - destruct (Hm _ _ _ H1) as (E1 & E2 & E3 & E4).
    split; [assumption|split; [assumption|split; [assumption|]]].
    intros x ->. exact (E4 x eq_refl).
Qed.

Create HintDb quiet.
#[local] Hint Resolve quiet_ret quiet_throw quiet_out_of_fuel quiet_tick
  quiet_history : quiet.

Ltac quiet_tac :=
  repeat first
    [ apply quiet_bind; [|intros ?]
    | progress eauto with quiet
    | match goal with
      | |- quiet (match ?x with _ => _ end) => destruct x
      | |- quiet (if ?b then _ else _) => destruct b
      end ].

Section EngineFacts.
Context {K : Constants} {E : Environment}.

Lemma quiet_timeout_expired t : quiet (timeout_expired t).
Proof. unfold timeout_expired. quiet_tac. Qed.

Lemma quiet_timeout_retry t : quiet (timeout_retry t).
Proof. unfold timeout_retry. quiet_tac. Qed.

Lemma quiet_recvfrom_loop fuel : quiet (recvfrom_loop fuel).
Proof.
  induction fuel as [|fuel IH]; simpl; [quiet_tac|].
  apply quiet_bind; [quiet_tac|intros seen].
  apply quiet_bind; [quiet_tac|intros n].
  destruct (sys_recvfrom seen n); [quiet_tac|].
  destruct (size bytes <=? 0); [exact IH|quiet_tac].
Qed.

Lemma quiet_receive_control fuel timeout : quiet (receive_control fuel timeout).
Proof.
  induction fuel as [|fuel IH]; simpl; [quiet_tac|].
  apply quiet_bind.
  { destruct timeout; [apply quiet_timeout_expired|quiet_tac]. }
  intros [|]; [quiet_tac|].
  apply quiet_bind; [quiet_tac|intros seen].
  apply quiet_bind; [quiet_tac|intros n].
  destruct (sys_select seen n); [quiet_tac|quiet_tac|exact IH|].
  apply quiet_recvfrom_loop.
Qed.

Lemma quiet_execute_loop fuel sequence request timeout :
  quiet (execute_loop fuel sequence request timeout).
Proof.
  induction fuel as [|fuel IH]; simpl; [quiet_tac|].
  apply quiet_bind; [apply quiet_receive_control|intros reply].
  apply quiet_bind; [unfold executed; quiet_tac|intros _].
  destruct (size reply =? 0); [quiet_tac|].
  destruct (reply_header reply) as [[[rs rc] d]|]; [|quiet_tac].
  destruct (sequence =? rs); [quiet_tac|exact IH].
Qed.

End EngineFacts.

(** ** The transport execute loop *)

Section ExecuteFacts.
Context {K : Constants} {E : Environment}.

Lemma size_cons_nonzero (b : Z) (bs : list Z) : (size (b :: bs) =? 0) = false.
Proof. unfold size. simpl length. apply Z.eqb_neq. lia. Qed.

Lemma reply_header_nonempty reply h :
  reply_header reply = Some h -> (size reply =? 0) = false.
Proof.
  destruct reply as [|b bs]; [discriminate|].
  intros _. apply size_cons_nonzero.
Qed.

Lemma reply_header_buffer reply s rc d :
  reply_header reply = Some (s, rc, d) -> des_buffer d = reply.
Proof.
  unfold reply_header, next_uint8, next_uint16_be, des_take. simpl.
  repeat match goal with
         | |- context [if ?b then _ else _] => destruct b; simpl; [|discriminate]
         end.
  intros H. inversion H; subst. reflexivity.
Qed.

Lemma execute_loop_sound fuel sequence request timeout w status code d w' :
  execute_loop fuel sequence request timeout w = (Ok (status, code, d), w') ->
  if status
  then exists reply rc d',
         reply_header reply = Some (sequence, rc, d') /\
         code = Some rc /\ d = Some d' /\ des_buffer d' = reply
  else code = None /\ d = None.
Proof.
  revert w. induction fuel as [|fuel IH]; intros w; simpl; [discriminate|].
  intros H.
  apply bind_inv_ok in H as (reply & w1 & _ & H).
  apply bind_inv_ok in H as (_ & w2 & _ & H).
  destruct (size reply =? 0).
  { inversion H; subst. auto. }
  destruct (reply_header reply) as [[[rs rc] d0]|] eqn:Hh; [|discriminate].
  destruct (sequence =? rs) eqn:Hs.
  - apply Z.eqb_eq in Hs. subst rs. inversion H; subst.
    exists reply, rc, d0. repeat split; eauto using reply_header_buffer.
  - eapply IH; eassumption.
Qed.

Lemma execute_loop_discards fuel sequence request timeout w reply w1 s rc d :
  receive_control fuel (Some timeout) w = (Ok reply, w1) ->
  reply_header reply = Some (s, rc, d) ->
  s <> sequence ->
  execute_loop (S fuel) sequence request timeout w
  = execute_loop fuel sequence request timeout w1.
Proof.
  intros Hr Hh Hs. simpl.
  rewrite (bind_ok _ _ _ _ _ Hr). unfold executed at 1.
  change (bind (ret tt) ?k w1) with (k tt w1). cbv beta.
  rewrite (reply_header_nonempty _ _ Hh), Hh.
  assert ((sequence =? s) = false) as -> by (apply Z.eqb_neq; congruence).
  reflexivity.
Qed.

Lemma execute_loop_deadline fuel sequence request timeout w :
  expired timeout (events w) (now w) = true ->
  execute_loop (S (S fuel)) sequence request timeout w
  = (Ok (false, None, None), snd (tick w)).
Proof.
  intros He.
  cbn [execute_loop receive_control].
  unfold timeout_expired, history, tick, bind, ret, executed. simpl.
  rewrite He. reflexivity.
Qed.

(** C1. A reply is handed to the caller of [execute] only when its
    sequence number equals the one of the outstanding request.  A received
    reply with another sequence number is discarded: the loop goes on from
    the world after that reception exactly as it would without it.  When
    the deadline of the timeout has passed at the next reception, the call
    yields "no reply": status false, no response code, no deserializer. *)
Theorem execute_matches_sequence fuel sequence request timeout :
  (forall w status code d w',
     execute fuel sequence request timeout w = (Ok (status, code, d), w') ->
     if status
     then exists reply rc d',
            reply_header reply = Some (sequence, rc, d') /\
            code = Some rc /\ d = Some d' /\ des_buffer d' = reply
     else code = None /\ d = None) /\
  (forall w reply w1 s rc d,
     receive_control fuel (Some timeout) w = (Ok reply, w1) ->
     reply_header reply = Some (s, rc, d) ->
     s <> sequence ->
     execute_loop (S fuel) sequence request timeout w
     = execute_loop fuel sequence request timeout w1) /\
  (forall w,
     expired timeout (events w) (now w) = true ->
     execute_loop (S (S fuel)) sequence request timeout w
     = (Ok (false, None, None), snd (tick w))).
Proof.
  split; [|split].
  - intros w status code d w' H. unfold execute in H.
    apply bind_inv_ok in H as (_ & w1 & _ & H).
    eapply execute_loop_sound; eassumption.
  - intros. eapply execute_loop_discards; eassumption.
  - intros. apply execute_loop_deadline; assumption.
Qed.

End ExecuteFacts.

(** ** Register writes *)

Section WriteFacts.
Context {K : Constants} {E : Environment}.

Lemma write_request_frame sequence_check sequence address value :
  write_request sequence_check sequence address value
  = Some (write_frame sequence_check sequence address value).
Proof. reflexivity. Qed.

Lemma read_request_frame sequence_check sequence address :
  read_request sequence_check sequence address
  = Some (read_frame sequence_check sequence address).
Proof. reflexivity. Qed.

Lemma send_control_ok request w :
  inet_pton_ok = true -> sendto_ok (now w) = true ->
  send_control request w
  = (Ok tt, mkWorld (sequence_ w) (reset_controllers_ w) (now w + 1)
                    (Sent request :: events w)).
Proof.
  intros Hp Hs. unfold send_control. rewrite Hp. simpl.
  unfold bind, tick, emit. simpl. rewrite Hs. reflexivity.
Qed.

(** What [send_control] leaves behind, whatever its result. *)
Lemma send_control_events request w o w' :
  send_control request w = (o, w') ->
  sequence_ w' = sequence_ w /\ reset_controllers_ w' = reset_controllers_ w /\
  ((events w' = Sent request :: events w /\ o = Ok tt) \/
   (events w' = events w /\ exists e, o = Throw (runtime_error e))).
Proof.
  unfold send_control. destruct inet_pton_ok; simpl.
  - unfold bind, tick, emit, throw. simpl.
    destruct (sendto_ok (now w)); intros H; inversion H; subst; simpl; eauto 6.
  - unfold throw. intros H; inversion H; subst. eauto 6.
Qed.

(** [write_uint32_] at an aligned address: one sequence number taken, one
    exchange, and the verdict on its result. *)
Lemma write_uint32__aligned fuel address value timeout response_expected
    sequence_check w :
  Z.land address 3 = 0 ->
  write_uint32_ fuel address value timeout response_expected sequence_check w
  = bind (execute fuel (sequence_ w)
            (write_frame sequence_check (sequence_ w) address value) timeout)
      (fun x =>
         match x with
         | (status, optional_response_code, _) =>
             if negb status then ret false
             else
               match optional_response_code with
               | None =>
                   if response_expected then ret false
                   else throw bad_optional_access
               | Some response_code =>
                   if response_code =? RESPONSE_SUCCESS then ret true
                   else throw (runtime_error
                                 (WriteResponseCode address value response_code))
               end
         end)
      (snd (next_sequence w)).
Proof.
  intros Ha. unfold write_uint32_. rewrite Ha.
  change (negb (0 =? 0)) with false. cbv iota.
  unfold bind at 1. unfold next_sequence. cbv beta iota zeta.
  rewrite write_request_frame. reflexivity.
Qed.

Lemma u8_lor (a b : Z) : u8 (Z.lor a b) = Z.lor (u8 a) (u8 b).
Proof.
  unfold u8. rewrite <- !Z.land_ones by lia. apply Z.land_lor_distr_l.
Qed.

Lemma u8_small (a : Z) : 0 <= a < 256 -> u8 a = a.
Proof. intros H. unfold u8. apply Z.mod_small. lia. Qed.

(** C4. For a 4-byte-aligned address, the request that [write_uint32_]
    serializes and hands to the socket is the 14-byte frame
    [cmd_code, flags, sequence (2), reserved, reserved, address (4),
    value (4)] with sequence, address and value big-endian,
    cmd_code = WR_DWORD and flags = ACK_REQUEST, or
    ACK_REQUEST | SEQUENCE_CHECK when sequence checking is requested; with
    the two flags on distinct bits of a byte, the flags hold ACK_REQUEST
    always and SEQUENCE_CHECK exactly when sequence checking is
    requested. *)
Theorem write_uint32_frame_layout fuel address value timeout response_expected
    (sequence_check : bool) w :
  Z.land address 3 = 0 ->
  inet_pton_ok = true -> sendto_ok (now w) = true ->
  let sequence := sequence_ w in
  let flags := if sequence_check
               then Z.lor REQUEST_FLAGS_ACK_REQUEST REQUEST_FLAGS_SEQUENCE_CHECK
               else REQUEST_FLAGS_ACK_REQUEST in
  let frame :=
    [u8 WR_DWORD; u8 flags;
     u8 (Z.shiftr sequence 8); u8 sequence;
     0; 0;
     u8 (Z.shiftr address 24); u8 (Z.shiftr address 16);
     u8 (Z.shiftr address 8); u8 address;
     u8 (Z.shiftr value 24); u8 (Z.shiftr value 16);
     u8 (Z.shiftr value 8); u8 value] in
  write_request sequence_check sequence address value = Some frame /\
  length frame = 14%nat /\
  events (snd (write_uint32_ fuel address value timeout response_expected
                 sequence_check w))
  = Sent frame :: events w /\
  (0 <= REQUEST_FLAGS_ACK_REQUEST < 256 ->
   0 < REQUEST_FLAGS_SEQUENCE_CHECK < 256 ->
   Z.land REQUEST_FLAGS_ACK_REQUEST REQUEST_FLAGS_SEQUENCE_CHECK = 0 ->
   Z.land (u8 flags) REQUEST_FLAGS_ACK_REQUEST = REQUEST_FLAGS_ACK_REQUEST /\
   (Z.land (u8 flags) REQUEST_FLAGS_SEQUENCE_CHECK = REQUEST_FLAGS_SEQUENCE_CHECK
    <-> sequence_check = true)).
Proof.
  intros Ha Hp Hs sequence flags frame.
  assert (Hf : frame = write_frame sequence_check sequence address value).
  { unfold frame, flags, write_frame, request_flags.
    destruct sequence_check; reflexivity. }
  split; [rewrite Hf; apply write_request_frame|].
  split; [reflexivity|].
  split.
  - rewrite write_uint32__aligned by assumption. unfold execute.
    set (w1 := snd (next_sequence w)).
    assert (Hs1 : sendto_ok (now w1) = true) by exact Hs.
    unfold bind at 1. unfold bind at 1.
    rewrite (send_control_ok _ w1 Hp Hs1).
    destruct (execute_loop _ _ _ _ _) as [o w2] eqn:Hx.
    apply quiet_execute_loop in Hx as (He & _ & _ & _).
    simpl in He. fold sequence in He. rewrite <- Hf in He.
    destruct o as [[[status code] d]| | | |]; simpl; try exact He.
    destruct status; simpl; [|exact He].
    destruct code as [rc|]; [destruct (rc =? RESPONSE_SUCCESS)|
                             destruct response_expected]; exact He.
  - intros Hack Hseq Hdisj. unfold flags.
    destruct sequence_check.
    + rewrite u8_lor, !u8_small by lia. split.
      * rewrite Z.land_lor_distr_l, Z.land_diag, Z.land_comm, Hdisj.
        apply Z.lor_0_r.
      * split; [reflexivity|intros _].
        rewrite Z.land_lor_distr_l, Z.land_diag, Hdisj. apply Z.lor_0_l.
    + rewrite u8_small by lia. split; [apply Z.land_diag|].
      split; [|discriminate]. rewrite Hdisj. lia.
Qed.

(** C7. A [write_uint32] with retry disabled whose exchange gets no reply
    returns false: nothing is thrown, and no further attempt is made (the
    world is the one the single exchange left). *)
Theorem write_uint32_no_ack_swallows_no_reply fuel address value in_timeout
    sequence_check w w' :
  Z.land address 3 = 0 ->
  execute fuel (sequence_ w)
    (write_frame sequence_check (sequence_ w) address value)
    (default_timeout in_timeout) (snd (next_sequence w))
  = (Ok (false, None, None), w') ->
  write_uint32 (S fuel) address value in_timeout false sequence_check w
  = (Ok false, w').
Proof.
  intros Ha Hx. unfold write_uint32. cbn [write_uint32_loop].
  rewrite (bind_ok _ _ _ false w'); [reflexivity|].
  rewrite write_uint32__aligned by assumption.
  rewrite (bind_ok _ _ _ _ _ Hx). reflexivity.
Qed.

End WriteFacts.

(** ** Register reads *)

Section ReadFacts.
Context {K : Constants} {E : Environment}.

Lemma quiet_throw_bad_optional {A} : quiet (@throw A bad_optional_access).
Proof. quiet_base. Qed.

Lemma quiet_assert b : quiet (assert_ b).
Proof. unfold assert_. destruct b; quiet_base. Qed.

Lemma quiet_undefined {A} : quiet (@undefined A).
Proof. quiet_base. Qed.

Lemma execute_effect fuel sequence request timeout w o w' :
  execute fuel sequence request timeout w = (o, w') ->
  sequence_ w' = sequence_ w /\
  reset_controllers_ w' = reset_controllers_ w /\
  (events w' = Sent request :: events w \/
   (events w' = events w /\ exists e, o = Throw (runtime_error e))) /\
  forall x, o <> Throw (TimeoutError x).
Proof.
  unfold execute. intros H.
  destruct (bind_inv _ _ _ _ _ H) as [(a & w1 & H1 & H2)|[H1 Hn]].
  - apply send_control_events in H1 as (S1 & S2 & [(S3 & _)|(_ & e & S3)]);
      [|discriminate].
    apply quiet_execute_loop in H2 as (Q1 & Q2 & Q3 & Q4).
    split; [congruence|split; [congruence|split; [left; congruence|exact Q4]]].
  - apply send_control_events in H1 as (S1 & S2 & [(_ & S3)|(S3 & e & S4)]).
    + destruct o; discriminate S3.
    + split; [assumption|split; [assumption|]].
      destruct o; try discriminate S4. inversion S4; subst.
      split; [right; eauto|discriminate].
Qed.

(** The verdict of [read_uint32_] on the result of the exchange. *)
Lemma quiet_read_verdict address (status : bool) (code : option Z)
    (d : option Deserializer) :
  quiet (if negb status then ret (false, None)
         else
           match code with
           | None => throw bad_optional_access
           | Some response_code =>
               if negb (response_code =? RESPONSE_SUCCESS)
               then throw (runtime_error (ReadResponseCode response_code))
               else
                 match d with
                 | None => undefined
                 | Some deserializer =>
                     match read_reply_body deserializer with
                     | None => throw (runtime_error UnableToDeserialize)
                     | Some (response_address, value, latched_sequence) =>
                         bind (assert_ (response_address =? u32 address))
                           (fun _ => ret (true, Some value))
                     end
                 end
           end).
Proof.
  destruct status; simpl; [|apply quiet_ret].
  destruct code as [rc|]; [|apply quiet_throw_bad_optional].
  destruct (negb (rc =? RESPONSE_SUCCESS)); [apply quiet_throw|].
  destruct d as [d|]; [|apply quiet_undefined].
  destruct (read_reply_body d) as [[[ra v] ls]|]; [|apply quiet_throw].
  apply quiet_bind; [apply quiet_assert|intros _; apply quiet_ret].
Qed.

(** [read_uint32_] at an aligned address: one sequence number taken, one
    exchange, and the verdict on its result. *)
Lemma read_uint32__aligned fuel address timeout sequence_check w :
  Z.land address 3 = 0 ->
  read_uint32_ fuel address timeout sequence_check w
  = bind (execute fuel (sequence_ w)
            (read_frame sequence_check (sequence_ w) address) timeout)
      (fun x =>
         match x with
         | (status, optional_response_code, deserializer) =>
             if negb status then ret (false, None)
             else
               match optional_response_code with
               | None => throw bad_optional_access
               | Some response_code =>
                   if negb (response_code =? RESPONSE_SUCCESS)
                   then throw (runtime_error (ReadResponseCode response_code))
                   else
                     match deserializer with
                     | None => undefined
                     | Some deserializer =>
                         match read_reply_body deserializer with
                         | None => throw (runtime_error UnableToDeserialize)
                         | Some (response_address, value, latched_sequence) =>
                             bind (assert_ (response_address =? u32 address))
                               (fun _ => ret (true, Some value))
                         end
                     end
               end
         end)
      (snd (next_sequence w)).
Proof.
  intros Ha. unfold read_uint32_. rewrite Ha.
  change (negb (0 =? 0)) with false. cbv iota.
  unfold bind at 1. unfold next_sequence. cbv beta iota zeta.
  rewrite read_request_frame. reflexivity.
Qed.

Lemma read_uint32__effect fuel address timeout sequence_check w o w' :
  Z.land address 3 = 0 ->
  read_uint32_ fuel address timeout sequence_check w = (o, w') ->
  sequence_ w' = u16 (sequence_ w + 1) /\
  reset_controllers_ w' = reset_controllers_ w /\
  (events w' = Sent (read_frame sequence_check (sequence_ w) address) :: events w \/
   (events w' = events w /\ exists e, o = Throw (runtime_error e))) /\
  forall x, o <> Throw (TimeoutError x).
Proof.
  intros Ha. rewrite read_uint32__aligned by assumption. intros H.
  destruct (bind_inv _ _ _ _ _ H) as [([[status code] d] & w1 & H1 & H2)|[H1 Hn]].
  - apply execute_effect in H1 as (X1 & X2 & [X3|(_ & e & X3)] & _);
      [|discriminate].
    assert (Hq : events w' = events w1 /\ sequence_ w' = sequence_ w1 /\
                 reset_controllers_ w' = reset_controllers_ w1 /\
                 forall x, o <> Throw (TimeoutError x))
      by exact (quiet_read_verdict address status code d _ _ _ H2).
    destruct Hq as (Q1 & Q2 & Q3 & Q4). simpl in X1, X2, X3.
    split; [congruence|split; [congruence|split; [left; congruence|exact Q4]]].
  - apply execute_effect in H1 as (X1 & X2 & X3 & X4). simpl in X1, X2, X3.
    split; [assumption|split; [assumption|]].
    split.
    + destruct X3 as [X3|(X3 & e & X5)]; [left; assumption|right].
      split; [assumption|]. destruct o; try discriminate X5.
      inversion X5; subst. eauto.
    + intros x ->. exact (X4 x eq_refl).
Qed.

Lemma rev_attempt_frames_S sc a s n :
  rev (attempt_frames sc a s (S n))
  = rev (attempt_frames sc a (u16 (s + 1)) n) ++ [read_frame sc s a].
Proof. reflexivity. Qed.

Lemma timeout_retry_run t w :
  timeout_retry t w = (Ok (retry t (events w) (now w)), snd (tick w)).
Proof. reflexivity. Qed.

(** What a run of the loop of [read_uint32] leaves behind: one request
    per attempt, each with the next sequence number. *)
Lemma read_uint32_loop_trace fuel address timeout check_sequence :
  Z.land address 3 = 0 ->
  forall w o w',
    read_uint32_loop fuel address timeout check_sequence w = (o, w') ->
    reset_controllers_ w' = reset_controllers_ w /\
    exists n,
      events w'
      = (Sent <$> rev (attempt_frames check_sequence address (sequence_ w) n))
        ++ events w /\
      match o with
      | Ok _ => (1 <= n)%nat /\ sequence_ w' = advance (sequence_ w) n
      | Throw (TimeoutError x) =>
          (1 <= n)%nat /\ sequence_ w' = advance (sequence_ w) n /\
          x = ReadTimeout address /\
          retry timeout (events w') (now w' - 1) = false
      | _ => True
      end.
Proof.
  intros Ha. induction fuel as [|fuel IH]; intros w o w' H.
  { inversion H; subst. split; [reflexivity|]. exists 0%nat. auto. }
  cbn [read_uint32_loop] in H.
  destruct (bind_inv _ _ _ _ _ H) as [([status value] & w1 & H1 & H2)|[H1 Hn]].
  - apply (read_uint32__effect _ _ _ _ _ _ _ Ha) in H1
      as (R1 & R2 & [R3|(_ & e & R3)] & _); [|discriminate].
    destruct status.
    + assert (w' = w1 /\ ((exists v, o = Ok v) \/ o = Throw bad_optional_access))
        as (-> & Ho).
      { destruct value; inversion H2; subst; eauto. }
      split; [assumption|]. exists 1%nat. split; [rewrite R3; reflexivity|].
      destruct Ho as [(v & ->)| ->]; [|exact I]. split; [lia|exact R1].
    + rewrite (bind_ok _ _ _ _ _ (timeout_retry_run _ _)) in H2.
      destruct (retry timeout (events w1) (now w1)) eqn:Hr; simpl in H2.
      * apply IH in H2 as (I1 & n & I2 & I3). simpl in I1, I2, I3.
        split; [congruence|]. exists (S n).
        rewrite rev_attempt_frames_S, fmap_app, <- app_assoc.
        rewrite R1 in I2, I3. rewrite R3 in I2. split; [exact I2|].
        destruct o as [v|[e|x|]| | |]; try exact I; simpl.
        -- destruct I3. split; [lia|assumption].
        -- destruct I3 as (? & ? & ? & ?). repeat split; try assumption. lia.
      * inversion H2; subst. simpl.
        split; [assumption|]. exists 1%nat. split; [rewrite R3; reflexivity|].
        split; [lia|]. split; [exact R1|]. split; [reflexivity|].
        replace (now w1 + 1 - 1) with (now w1) by lia. exact Hr.
  - apply (read_uint32__effect _ _ _ _ _ _ _ Ha) in H1 as (R1 & R2 & R3 & R4).
    split; [assumption|].
    assert (Ho : match o with
                 | Ok _ | Throw (TimeoutError _) => False
                 | _ => True
                 end).
    { destruct o as [v|[e|x|]| | |]; try exact I.
      - exact (Hn v eq_refl).
      - exact (R4 x eq_refl). }
    destruct R3 as [R3|(R3 & _)].
    + exists 1%nat. split; [rewrite R3; reflexivity|].
      destruct o as [v|[e|x|]| | |]; try exact I; destruct Ho.
    + exists 0%nat. split; [rewrite R3; reflexivity|].
      destruct o as [v|[e|x|]| | |]; try exact I; destruct Ho.
Qed.

End ReadFacts.

(** ** Sequence numbers of the attempts of one read *)

Lemma u8_u16 (z : Z) : u8 (u16 z) = u8 z.
Proof. unfold u8, u16. Z.to_euclidean_division_equations. lia. Qed.

Lemma u8_shiftr_u16 (z : Z) : u8 (Z.shiftr (u16 z) 8) = u8 (Z.shiftr z 8).
Proof.
  unfold u8, u16. rewrite !Z.shiftr_div_pow2 by lia.
  Z.to_euclidean_division_equations. lia.
Qed.

Lemma u16_bytes (z : Z) : u16 z = 256 * u8 (Z.shiftr z 8) + u8 z.
Proof.
  unfold u8, u16. rewrite !Z.shiftr_div_pow2 by lia.
  Z.to_euclidean_division_equations. lia.
Qed.

Lemma u16_u16_add (s k : Z) : u16 (u16 s + k) = u16 (s + k).
Proof. unfold u16. apply Zplus_mod_idemp_l. Qed.

Section SequenceFacts.
Context {K : Constants} {E : Environment}.

Lemma read_frame_u16 sc s a : read_frame sc (u16 s) a = read_frame sc s a.
Proof. unfold read_frame. rewrite u8_u16, u8_shiftr_u16. reflexivity. Qed.

(** A read request determines its sequence number. *)
Lemma read_frame_sequence sc s1 s2 a :
  read_frame sc s1 a = read_frame sc s2 a -> u16 s1 = u16 s2.
Proof.
  unfold read_frame. intros H. injection H as H1 H2.
  rewrite (u16_bytes s1), (u16_bytes s2). congruence.
Qed.

Lemma attempt_frames_length sc a s n : length (attempt_frames sc a s n) = n.
Proof. revert s. induction n as [|n IH]; intros s; simpl; [|rewrite IH]; reflexivity. Qed.

Lemma attempt_frames_lookup sc a n : forall s k,
  (k < n)%nat ->
  attempt_frames sc a s n !! k = Some (read_frame sc (u16 (s + Z.of_nat k)) a).
Proof.
  induction n as [|n IH]; intros s k Hk; [lia|].
  destruct k as [|k]; simpl.
  - rewrite Z.add_0_r, read_frame_u16. reflexivity.
  - rewrite IH by lia. rewrite u16_u16_add. do 3 f_equal. lia.
Qed.

Lemma advance_u16 n : forall s,
  (1 <= n)%nat -> advance s n = u16 (s + Z.of_nat n).
Proof.
  induction n as [|n IH]; intros s Hn; [lia|].
  destruct n as [|n]; [reflexivity|].
  cbn [advance] in *. rewrite (IH (u16 (s + 1))) by lia.
  rewrite u16_u16_add. f_equal. lia.
Qed.

Lemma sequences_distinct (s : Z) (i j : nat) :
  (i < j)%nat -> Z.of_nat j - Z.of_nat i < 65536 ->
  u16 (s + Z.of_nat i) <> u16 (s + Z.of_nat j).
Proof.
  intros Hij Hd. unfold u16. Z.to_euclidean_division_equations. lia.
Qed.

(** C2 (as amended). For a 4-byte-aligned address, [read_uint32] raises
    TimeoutError only when [retry()] of its timeout has just refused another
    attempt, that is, when the deadline is exhausted.  Until then it has
    made n >= 1 attempts; attempt k sent a read request with the sequence
    number (s + k) mod 65536, where s is the counter at the call, and the
    counter has been incremented once for each attempt.  The requests of
    two attempts fewer than 65536 apart differ. *)
Theorem read_uint32_timeout_after_retries fuel address in_timeout
    check_sequence w x w' :
  Z.land address 3 = 0 ->
  read_uint32 fuel address in_timeout check_sequence w
  = (Throw (TimeoutError x), w') ->
  x = ReadTimeout address /\
  retry (default_timeout in_timeout) (events w') (now w' - 1) = false /\
  exists (n : nat) (frames : list (list Z)),
    (1 <= n)%nat /\ length frames = n /\
    events w' = (Sent <$> rev frames) ++ events w /\
    (forall k, (k < n)%nat ->
       frames !! k
       = Some (read_frame check_sequence (u16 (sequence_ w + Z.of_nat k)) address)) /\
    sequence_ w' = u16 (sequence_ w + Z.of_nat n) /\
    (forall i j, (i < j < n)%nat -> Z.of_nat j - Z.of_nat i < 65536 ->
       read_frame check_sequence (u16 (sequence_ w + Z.of_nat i)) address
       <> read_frame check_sequence (u16 (sequence_ w + Z.of_nat j)) address).
Proof.
  intros Ha H. unfold read_uint32 in H.
  apply (read_uint32_loop_trace _ _ _ _ Ha) in H as (_ & n & He & Hn & Hs & Hx & Hr).
  split; [assumption|]. split; [assumption|].
  exists n, (attempt_frames check_sequence address (sequence_ w) n).
  split; [assumption|]. split; [apply attempt_frames_length|].
  split; [assumption|]. split; [intros; apply attempt_frames_lookup; assumption|].
  split; [rewrite Hs; apply advance_u16; assumption|].
  intros i j Hij Hd Hf. apply read_frame_sequence in Hf.
  assert (Hu : forall z, u16 (u16 z) = u16 z).
  { intros z. unfold u16. apply Z.mod_mod. lia. }
  rewrite !Hu in Hf. revert Hf. apply sequences_distinct; lia.
Qed.

End SequenceFacts.

(** ** Guards of the bus controllers *)

Section GuardFacts.
Context {K : Constants} {E : Environment}.

(** A read that returns a value was made at an aligned address. *)
Lemma read_uint32_ok_aligned fuel address in_timeout check_sequence w v w1 :
  read_uint32 fuel address in_timeout check_sequence w = (Ok v, w1) ->
  Z.land address 3 = 0.
Proof.
  unfold read_uint32. destruct fuel as [|fuel]; [discriminate|].
  cbn [read_uint32_loop]. intros H.
  apply bind_inv_ok in H as (a & w2 & H & _).
  unfold read_uint32_ in H.
  destruct (Z.land address 3 =? 0) eqn:Ha; [apply Z.eqb_eq; assumption|].
  discriminate H.
Qed.

(** The requests that one [read_uint32] sends are read requests for its
    address. *)
Lemma read_uint32_sends_reads fuel address in_timeout check_sequence w v w1 :
  read_uint32 fuel address in_timeout check_sequence w = (Ok v, w1) ->
  exists n,
    events w1
    = (Sent <$> rev (attempt_frames check_sequence address (sequence_ w) n))
      ++ events w.
Proof.
  intros H. pose proof (read_uint32_ok_aligned _ _ _ _ _ _ _ H) as Ha.
  unfold read_uint32 in H.
  apply (read_uint32_loop_trace _ _ _ _ Ha) in H as (_ & n & He & _).
  eauto.
Qed.

(** C5. When the first read of the control register shows BUSY,
    [i2c_transaction] (with valid arguments) fails with the runtime error of
    the BUSY guard, a ProtocolError in the taxonomy of the specification.
    The world is the one that this read left: nothing else was done, and
    every datagram sent is a read request for the control register, so no
    register was written. *)
Theorem i2c_busy_fails_without_writes fuel self peripheral_i2c_address
    write_bytes read_byte_count in_timeout w value w1 :
  peripheral_i2c_address < 0x80 ->
  size write_bytes < 0x100 ->
  read_byte_count < 0x100 ->
  read_uint32 fuel (I2c.reg_control_ self) (Some (i2c_timeout in_timeout))
    DEFAULT_SEQUENCE_CHECK w = (Ok value, w1) ->
  Z.land value I2C_BUSY <> 0 ->
  let e := runtime_error (UnexpectedI2cBusy (I2c.reg_control_ self) value) in
  I2c.i2c_transaction fuel self peripheral_i2c_address write_bytes
    read_byte_count in_timeout w = (Throw e, w1) /\
  error_kind e = ProtocolError /\
  exists n,
    events w1
    = (Sent <$> rev (attempt_frames DEFAULT_SEQUENCE_CHECK
                       (I2c.reg_control_ self) (sequence_ w) n))
      ++ events w.
Proof.
  intros Hp Hw Hr Hread Hbusy e.
  split; [|split; [reflexivity|eapply read_uint32_sends_reads; eassumption]].
  unfold I2c.i2c_transaction.
  assert ((0x80 <=? peripheral_i2c_address) = false) as -> by lia.
  assert ((0x100 <=? size write_bytes) = false) as -> by lia.
  assert ((0x100 <=? read_byte_count) = false) as -> by lia.
  rewrite (bind_ok _ _ _ _ _ Hread).
  assert ((Z.land value I2C_BUSY =? 0) = false) as -> by lia.
  reflexivity.
Qed.

(** C8. For a pin below the pin count whose direction reads as input,
    [set_value] fails with the runtime error of the direction guard, an
    InvalidState in the taxonomy of the specification.  The world is the one
    that reading the direction left, and every datagram sent is a read
    request for the direction register: no register was written. *)
Theorem gpio_set_value_on_input_fails fuel self pin value w w1 :
  pin < GPIO.gpio_pin_number_ self ->
  IN <> OUT ->
  GPIO.get_direction fuel self pin w = (Ok IN, w1) ->
  let e := runtime_error (GpioInputRegister pin) in
  GPIO.set_value fuel self pin value w = (Throw e, w1) /\
  error_kind e = InvalidState /\
  exists n,
    events w1
    = (Sent <$> rev (attempt_frames DEFAULT_SEQUENCE_CHECK
                       (u32 (GPIO_DIRECTION_BASE_REGISTER
                             + pin / 32 * GPIO_REGISTER_ADDRESS_OFFSET))
                       (sequence_ w) n))
      ++ events w.
Proof.
  intros Hpin Hio Hdir e.
  split; [|split; [reflexivity|]].
  - unfold GPIO.set_value.
    assert ((pin <? GPIO.gpio_pin_number_ self) = true) as -> by lia.
    rewrite (bind_ok _ _ _ _ _ Hdir).
    assert ((IN =? OUT) = false) as -> by lia.
    reflexivity.
  - unfold GPIO.get_direction in Hdir.
    assert ((pin <? GPIO.gpio_pin_number_ self) = true) as Hlt by lia.
    rewrite Hlt in Hdir.
    apply bind_inv_ok in Hdir as (v & w2 & Hread & Hret).
    inversion Hret; subst.
    eapply read_uint32_sends_reads; eassumption.
Qed.

End GuardFacts.

(** ** The read-back of an I2C transaction *)

Lemma bind_ext {A B} (m : M A) (k1 k2 : A -> M B) w :
  (forall a w1, k1 a w1 = k2 a w1) -> bind m k1 w = bind m k2 w.
Proof. intros H. unfold bind. destruct (m w) as [[a|e| | |] w1]; auto. Qed.

Lemma bind_assoc {A B C} (m : M A) (f : A -> M B) (g : B -> M C) w :
  bind (bind m f) g w = bind m (fun a => bind (f a) g) w.
Proof. unfold bind. destruct (m w) as [[a|e| | |] w1]; reflexivity. Qed.

Lemma insert_word (D rest : list Z) (k b0 b1 b2 b3 : Z) :
  Z.of_nat (length D) = k * 4 ->
  <[Z.to_nat (k * 4 + 3) := b3]>
    (<[Z.to_nat (k * 4 + 2) := b2]>
       (<[Z.to_nat (k * 4 + 1) := b1]>
          (<[Z.to_nat (k * 4 + 0) := b0]> (D ++ 0 :: 0 :: 0 :: 0 :: rest))))
  = D ++ [b0; b1; b2; b3] ++ rest.
Proof.
  intros HD.
  replace (Z.to_nat (k * 4 + 0)) with (length D + 0)%nat by lia.
  replace (Z.to_nat (k * 4 + 1)) with (length D + 1)%nat by lia.
  replace (Z.to_nat (k * 4 + 2)) with (length D + 2)%nat by lia.
  replace (Z.to_nat (k * 4 + 3)) with (length D + 3)%nat by lia.
  rewrite insert_app_r. cbn [list_insert insert].
  rewrite insert_app_r. cbn [list_insert insert].
  rewrite insert_app_r. cbn [list_insert insert].
  rewrite insert_app_r. reflexivity.
Qed.

Lemma bind_le_bytes_length (words : list Z) :
  length (words ≫= le_bytes) = (4 * length words)%nat.
Proof.
  induction words as [|v words IH]; [reflexivity|].
  rewrite bind_cons, length_app, IH. simpl. lia.
Qed.

Lemma bind_le_bytes_lookup (words : list Z) : forall (i : nat) (word : Z),
  words !! (i / 4)%nat = Some word ->
  (words ≫= le_bytes) !! i
  = Some (Z.land (Z.shiftr word (8 * Z.of_nat (i mod 4))) 0xFF).
Proof.
  induction words as [|v words IH]; intros i word Hw.
  { rewrite lookup_nil in Hw. discriminate. }
  rewrite bind_cons.
  destruct (Nat.lt_ge_cases i 4) as [Hi|Hi].
  - rewrite Nat.div_small in Hw by assumption. simpl in Hw.
    inversion Hw; subst.
    rewrite Nat.mod_small by assumption.
    do 4 (destruct i as [|i]; [reflexivity|]). lia.
  - rewrite lookup_app_r by (simpl; lia). simpl length.
    replace (i / 4)%nat with (S ((i - 4) / 4)) in Hw.
    2:{ replace i with ((i - 4) + 1 * 4)%nat at 2 by lia.
        rewrite Nat.div_add by lia. lia. }
    simpl in Hw. rewrite (IH _ _ Hw). do 4 f_equal.
    replace i with ((i - 4) + 1 * 4)%nat at 2 by lia.
    rewrite Nat.Div0.mod_add. reflexivity.
Qed.

Section ReadBackFacts.
Context {K : Constants} {E : Environment}.

(** The loop of the read-back, from word [k] on, with the bytes of the
    words read so far in front of the zeros still to be overwritten. *)
Lemma read_words_refines fuel base timeout (n : nat) :
  Z.of_nat n < 2 ^ 30 ->
  forall (m k : nat) (done : list Z) w,
    (k + m = n)%nat ->
    length done = (4 * k)%nat ->
    I2c.read_words fuel m base timeout (Z.of_nat n) (Z.of_nat k)
      (done ++ replicate (4 * m) 0) w
    = bind (read_many fuel timeout (word_addresses base k m))
        (fun values => ret (done ++ (values ≫= le_bytes))) w.
Proof.
  intros Hn. induction m as [|m IH]; intros k done w Hk Hd.
  - simpl. assert ((Z.of_nat k <? Z.of_nat n) = false) as -> by lia.
    reflexivity.
  - cbn [I2c.read_words].
    assert ((Z.of_nat k <? Z.of_nat n) = true) as -> by lia.
    unfold word_addresses. cbn [seq fmap list_fmap read_many].
    fold (word_addresses base (S k) m).
    rewrite bind_assoc.
    replace (u32 (base + u32 (Z.of_nat k * 4))) with (u32 (base + 4 * Z.of_nat k)).
    2:{ unfold u32. rewrite Zplus_mod_idemp_r. f_equal. lia. }
    apply bind_ext. intros value w1.
    replace (4 * S m)%nat with (4 + 4 * m)%nat by lia.
    rewrite replicate_add. cbn [replicate app].
    rewrite insert_word by lia.
    replace (u32 (Z.of_nat k + 1)) with (Z.of_nat (S k)).
    2:{ unfold u32. rewrite Z.mod_small; lia. }
    change (done ++ [?b0; ?b1; ?b2; ?b3] ++ ?rest)
      with (done ++ le_bytes value ++ rest).
    rewrite app_assoc.
    rewrite IH by (rewrite ?length_app; simpl; lia).
    rewrite bind_assoc. apply bind_ext. intros values w2.
    unfold bind, ret. rewrite bind_cons, app_assoc. reflexivity.
Qed.

(** C9. With [read_byte_count] < 0x100, the read-back phase of
    [i2c_transaction] is: read ceil(read_byte_count / 4) words at the
    consecutive word addresses of the data buffer, in order, unpack them
    little-endian and truncate.  The result has exactly [read_byte_count]
    bytes, and byte i is bits 8 * (i mod 4) and up of word i / 4. *)
Theorem i2c_read_back_unpacks fuel self read_byte_count timeout :
  0 <= read_byte_count < 0x100 ->
  let word_count := Z.to_nat ((read_byte_count + 3) / 4) in
  (forall w,
     I2c.read_back fuel self read_byte_count timeout w
     = bind (read_many fuel timeout
               (word_addresses (I2c.reg_data_buffer_ self) 0 word_count))
         (fun words => ret (unpack (Z.to_nat read_byte_count) words)) w) /\
  (forall words : list Z,
     length words = word_count ->
     length (unpack (Z.to_nat read_byte_count) words) = Z.to_nat read_byte_count /\
     forall (i : nat) (word : Z),
       (i < Z.to_nat read_byte_count)%nat ->
       words !! (i / 4)%nat = Some word ->
       unpack (Z.to_nat read_byte_count) words !! i
       = Some (Z.land (Z.shiftr word (8 * Z.of_nat (i mod 4))) 0xFF)).
Proof.
  intros Hr word_count.
  assert (Hu : u32 (read_byte_count + 3) = read_byte_count + 3).
  { unfold u32. apply Z.mod_small. lia. }
  assert (Hwc : Z.of_nat word_count = (read_byte_count + 3) / 4).
  { unfold word_count. rewrite Z2Nat.id; [reflexivity|].
    apply Z.div_pos; lia. }
  assert (Hbound : (read_byte_count + 3) / 4 <= 64).
  { clear -Hr. Z.to_euclidean_division_equations. lia. }
  assert (Hcover : read_byte_count <= 4 * Z.of_nat word_count).
  { rewrite Hwc. clear -Hr. Z.to_euclidean_division_equations. lia. }
  split.
  - intros w. unfold I2c.read_back. rewrite Hu, <- Hwc.
    replace (u32 (Z.of_nat word_count * 4)) with (Z.of_nat (4 * word_count)).
    2:{ unfold u32. rewrite Z.mod_small; lia. }
    rewrite !Nat2Z.id.
    pose proof (read_words_refines fuel (I2c.reg_data_buffer_ self) timeout
                  word_count ltac:(lia) word_count 0%nat [] w
                  ltac:(lia) eq_refl) as Hrw.
    cbn [app] in Hrw. change (Z.of_nat 0) with 0 in Hrw.
    unfold bind at 1. rewrite Hrw. unfold bind.
    destruct (read_many _ _ _ w) as [[words|e| | |] w1] eqn:Hm; try reflexivity.
    unfold ret at 1. cbv beta iota. unfold ret, unpack.
    rewrite resize_le; [reflexivity|].
    assert (length words = word_count) as Hl.
    { clear -Hm. revert w words w1 Hm. generalize 0%nat as first.
      induction word_count as [|n IH]; intros first w words w1 Hm.
      - inversion Hm; subst. reflexivity.
      - unfold word_addresses in Hm. cbn [seq fmap list_fmap read_many] in Hm.
        apply bind_inv_ok in Hm as (v & w2 & _ & Hm).
        apply bind_inv_ok in Hm as (vs & w3 & Hm & Hret).
        inversion Hret; subst. simpl. f_equal. eapply IH. exact Hm. }
    rewrite bind_le_bytes_length, Hl. lia.
  - intros words Hl. unfold unpack. split.
    + rewrite length_take, bind_le_bytes_length, Hl. lia.
    + intros i word Hi Hw. rewrite lookup_take_lt by lia.
      apply bind_le_bytes_lookup. assumption.
Qed.

End ReadBackFacts.

(** ** Reset *)

Lemma keeps_of_quiet {A} (m : M A) : quiet m -> keeps_controllers m.
Proof. intros Hq w o w' H. apply Hq in H. tauto. Qed.

Lemma keeps_bind {A B} (m : M A) (k : A -> M B) :
  keeps_controllers m -> (forall a, keeps_controllers (k a)) ->
  keeps_controllers (bind m k).
Proof.
  intros Hm Hk w o w' H.
  destruct (bind_inv _ _ _ _ _ H) as [(a & w1 & H1 & H2)|[H1 _]].
  - rewrite (Hk _ _ _ _ H2). exact (Hm _ _ _ H1).
  - exact (Hm _ _ _ H1).
Qed.

Ltac keeps_base := intros w o w' H; inversion H; subst; reflexivity.

Lemma keeps_ret {A} (a : A) : keeps_controllers (ret a).
Proof. keeps_base. Qed.

Lemma keeps_throw {A} e : keeps_controllers (@throw A e).
Proof. keeps_base. Qed.

Lemma keeps_undefined {A} : keeps_controllers (@undefined A).
Proof. keeps_base. Qed.

Lemma keeps_out_of_fuel {A} : keeps_controllers (@out_of_fuel A).
Proof. keeps_base. Qed.

Lemma keeps_assert b : keeps_controllers (assert_ b).
Proof. unfold assert_. destruct b; keeps_base. Qed.

Lemma keeps_tick : keeps_controllers tick.
Proof. keeps_base. Qed.

Lemma keeps_emit e : keeps_controllers (emit e).
Proof. keeps_base. Qed.

Lemma keeps_history : keeps_controllers history.
Proof. keeps_base. Qed.

Lemma keeps_try_ignore (m : M unit) :
  keeps_controllers m -> keeps_controllers (try_ignore m).
Proof.
  intros Hm w o w' H. unfold try_ignore in H.
  destruct (m w) as [[a|e| | |] w1] eqn:Hw; inversion H; subst;
    exact (Hm _ _ _ Hw).
Qed.

Create HintDb keeps.
#[local] Hint Resolve keeps_ret keeps_throw keeps_undefined keeps_out_of_fuel
  keeps_assert keeps_tick keeps_emit keeps_history : keeps.

Ltac keeps_tac :=
  repeat first
    [ solve [eauto with keeps]
    | apply keeps_bind; [|intros ?]
    | match goal with
      | |- keeps_controllers (match ?x with _ => _ end) => destruct x
      | |- keeps_controllers (if ?b then _ else _) => destruct b
      end ].

Section LifecycleFacts.
Context {K : Constants} {E : Environment}.

Lemma keeps_next_sequence : keeps_controllers next_sequence.
Proof. keeps_base. Qed.

Lemma keeps_timeout_retry t : keeps_controllers (timeout_retry t).
Proof. apply keeps_of_quiet, quiet_timeout_retry. Qed.

Lemma keeps_execute fuel sequence request timeout :
  keeps_controllers (execute fuel sequence request timeout).
Proof. intros w o w' H. apply execute_effect in H. tauto. Qed.

Lemma keeps_write_uint32_ fuel address value timeout response_expected
    sequence_check :
  keeps_controllers
    (write_uint32_ fuel address value timeout response_expected sequence_check).
Proof.
  unfold write_uint32_.
  destruct (negb _); [keeps_tac|].
  apply keeps_bind; [apply keeps_next_sequence|intros sequence].
  rewrite write_request_frame.
  apply keeps_bind; [apply keeps_execute|intros [[status code] d]].
  keeps_tac.
Qed.

Lemma keeps_write_uint32 fuel address value in_timeout retry_ sequence_check :
  keeps_controllers
    (write_uint32 fuel address value in_timeout retry_ sequence_check).
Proof.
  unfold write_uint32. generalize (default_timeout in_timeout) as timeout.
  intros timeout. induction fuel as [|fuel IH]; cbn [write_uint32_loop];
    [keeps_tac|].
  apply keeps_bind; [apply keeps_write_uint32_|intros status].
  destruct status; [keeps_tac|].
  destruct (negb retry_); [keeps_tac|].
  apply keeps_bind; [apply keeps_timeout_retry|intros again].
  destruct (negb again); [keeps_tac|exact IH].
Qed.

Lemma keeps_read_uint32_ fuel address timeout sequence_check :
  keeps_controllers (read_uint32_ fuel address timeout sequence_check).
Proof.
  unfold read_uint32_.
  destruct (negb _); [keeps_tac|].
  apply keeps_bind; [apply keeps_next_sequence|intros sequence].
  rewrite read_request_frame.
  apply keeps_bind; [apply keeps_execute|intros [[status code] d]].
  keeps_tac.
Qed.

Lemma keeps_read_uint32 fuel address in_timeout check_sequence :
  keeps_controllers (read_uint32 fuel address in_timeout check_sequence).
Proof.
  unfold read_uint32. generalize (default_timeout in_timeout) as timeout.
  intros timeout. induction fuel as [|fuel IH]; cbn [read_uint32_loop];
    [keeps_tac|].
  apply keeps_bind; [apply keeps_read_uint32_|intros [status value]].
  destruct status; [keeps_tac|].
  apply keeps_bind; [apply keeps_timeout_retry|intros again].
  destruct (negb again); [keeps_tac|exact IH].
Qed.

#[local] Hint Resolve keeps_write_uint32 keeps_read_uint32
  keeps_timeout_retry : keeps.

Lemma keeps_spi_write_payload fuel reg write_bytes timeout steps : forall index,
  keeps_controllers (Spi.write_payload fuel steps reg write_bytes timeout index).
Proof.
  induction steps as [|steps IH]; intros index; cbn [Spi.write_payload];
    keeps_tac.
Qed.

Lemma keeps_spi_poll_busy fuel self timeout :
  keeps_controllers (Spi.poll_busy fuel self timeout).
Proof.
  induction fuel as [|fuel IH]; cbn [Spi.poll_busy]; [keeps_tac|].
  apply keeps_bind; [keeps_tac|intros value].
  destruct (_ =? 0); [keeps_tac|].
  apply keeps_bind; [keeps_tac|intros again].
  destruct (negb again); [keeps_tac|exact IH].
Qed.

Lemma keeps_spi_read_words fuel reg timeout buffer_count steps : forall i r,
  keeps_controllers (Spi.read_words fuel steps reg timeout buffer_count i r).
Proof.
  induction steps as [|steps IH]; intros i r; cbn [Spi.read_words]; keeps_tac.
Qed.

#[local] Hint Resolve keeps_spi_write_payload keeps_spi_poll_busy
  keeps_spi_read_words : keeps.

Lemma keeps_spi_transaction fuel self write_command_bytes write_data_bytes
    read_byte_count in_timeout :
  keeps_controllers
    (Spi.spi_transaction fuel self write_command_bytes write_data_bytes
       read_byte_count in_timeout).
Proof. unfold Spi.spi_transaction. keeps_tac. Qed.

Lemma keeps_get_spi spi_address chip_select clock_divisor cpol cpha width :
  keeps_controllers
    (Spi.get_spi spi_address chip_select clock_divisor cpol cpha width).
Proof. unfold Spi.get_spi. keeps_tac. Qed.

Lemma keeps_sleep_for ms : keeps_controllers (sleep_for ms).
Proof. unfold sleep_for. keeps_tac. Qed.

Lemma keeps_find_channel : keeps_controllers Enumerator_find_channel.
Proof. unfold Enumerator_find_channel. keeps_tac. Qed.

Lemma keeps_value_ {A} (o : option A) : keeps_controllers (value_ o).
Proof. unfold value_. keeps_tac. Qed.

(** The listeners are called one after the other, in the order of the
    list. *)
Lemma reset_all_ok controllers :
  discreet controller_reset ->
  forall w w',
    reset_all controllers w = (Ok tt, w') ->
    reset_calls (events w') = rev controllers ++ reset_calls (events w) /\
    reset_controllers_ w' = reset_controllers_ w.
Proof.
  intros Hd. induction controllers as [|c rest IH]; intros w w' H.
  { inversion H; subst. auto. }
  cbn [reset_all] in H.
  apply bind_inv_ok in H as ([] & w1 & H1 & H2).
  apply IH in H2 as (I1 & I2).
  unfold ResetController_reset in H1.
  apply bind_inv_ok in H1 as ([] & w2 & H0 & H1).
  inversion H0; subst w2. clear H0.
  apply Hd in H1 as (D1 & D2). simpl in D1, D2.
  split; [|congruence].
  rewrite I1, D2. cbn [rev]. rewrite <- app_assoc. reflexivity.
Qed.

Lemma register_appends controllers : forall w,
  register controllers w
  = (Ok tt, mkWorld (sequence_ w) (reset_controllers_ w ++ controllers)
                    (now w) (events w)).
Proof.
  induction controllers as [|c rest IH]; intros w; cbn [register].
  - rewrite app_nil_r. destruct w; reflexivity.
  - unfold bind, on_reset. rewrite IH. simpl. rewrite <- app_assoc. reflexivity.
Qed.

End LifecycleFacts.

(** ** Computations that call no listener *)

Lemma calm_of_quiet {A} (m : M A) : quiet m -> calm m.
Proof.
  intros Hq w o w' H. apply Hq in H as (H1 & _ & H3 & _).
  split; [assumption|]. rewrite H1. reflexivity.
Qed.

Lemma calm_bind {A B} (m : M A) (k : A -> M B) :
  calm m -> (forall a, calm (k a)) -> calm (bind m k).
Proof.
  intros Hm Hk w o w' H.
  destruct (bind_inv _ _ _ _ _ H) as [(a & w1 & H1 & H2)|[H1 _]].
  - apply Hm in H1 as (A1 & A2). apply Hk in H2 as (B1 & B2).
    split; congruence.
  - apply Hm in H1. exact H1.
Qed.

Ltac calm_base := intros w o w' H; inversion H; subst; split; reflexivity.

Lemma calm_ret {A} (a : A) : calm (ret a).
Proof. calm_base. Qed.

Lemma calm_throw {A} e : calm (@throw A e).
Proof. calm_base. Qed.

Lemma calm_undefined {A} : calm (@undefined A).
Proof. calm_base. Qed.

Lemma calm_out_of_fuel {A} : calm (@out_of_fuel A).
Proof. calm_base. Qed.

Lemma calm_assert b : calm (assert_ b).
Proof. unfold assert_. destruct b; calm_base. Qed.

Lemma calm_tick : calm tick.
Proof. calm_base. Qed.

Lemma calm_history : calm history.
Proof. calm_base. Qed.

Lemma calm_sent datagram : calm (emit (Sent datagram)).
Proof. calm_base. Qed.

Lemma calm_slept ms : calm (emit (Slept ms)).
Proof. calm_base. Qed.

Lemma calm_arp_set interface client_ip_address mac_id :
  calm (emit (ArpSet interface client_ip_address mac_id)).
Proof. calm_base. Qed.

Lemma calm_try_ignore (m : M unit) : calm m -> calm (try_ignore m).
Proof.
  intros Hm w o w' H. unfold try_ignore in H.
  destruct (m w) as [[a|e| | |] w1] eqn:Hmw; inversion H; subst;
    exact (Hm _ _ _ Hmw).
Qed.

Create HintDb calm.
#[local] Hint Resolve calm_ret calm_throw calm_undefined calm_out_of_fuel
  calm_assert calm_tick calm_history calm_sent calm_slept calm_arp_set : calm.

Ltac calm_tac :=
  repeat first
    [ solve [eauto with calm]
    | apply calm_bind; [|intros ?]
    | apply calm_try_ignore
    | match goal with
      | |- calm (match ?x with _ => _ end) => destruct x
      | |- calm (if ?b then _ else _) => destruct b
      end ].

Section CalmFacts.
Context {K : Constants} {E : Environment}.

Lemma calm_next_sequence : calm next_sequence.
Proof. calm_base. Qed.

Lemma calm_timeout_retry t : calm (timeout_retry t).
Proof. apply calm_of_quiet, quiet_timeout_retry. Qed.

Lemma calm_execute fuel sequence request timeout :
  calm (execute fuel sequence request timeout).
Proof.
  intros w o w' H. apply execute_effect in H as (_ & H2 & [H3|[H3 _]] & _);
    (split; [assumption|]); rewrite H3; reflexivity.
Qed.

Lemma calm_write_uint32_ fuel address value timeout response_expected
    sequence_check :
  calm (write_uint32_ fuel address value timeout response_expected
          sequence_check).
Proof.
  unfold write_uint32_.
  destruct (negb _); [calm_tac|].
  apply calm_bind; [apply calm_next_sequence|intros sequence].
  rewrite write_request_frame.
  apply calm_bind; [apply calm_execute|intros [[status code] d]].
  calm_tac.
Qed.

Lemma calm_write_uint32 fuel address value in_timeout retry_ sequence_check :
  calm (write_uint32 fuel address value in_timeout retry_ sequence_check).
Proof.
  unfold write_uint32. generalize (default_timeout in_timeout) as timeout.
  intros timeout. induction fuel as [|fuel IH]; cbn [write_uint32_loop];
    [calm_tac|].
  apply calm_bind; [apply calm_write_uint32_|intros status].
  destruct status; [calm_tac|].
  destruct (negb retry_); [calm_tac|].
  apply calm_bind; [apply calm_timeout_retry|intros again].
  destruct (negb again); [calm_tac|exact IH].
Qed.

Lemma calm_read_uint32_ fuel address timeout sequence_check :
  calm (read_uint32_ fuel address timeout sequence_check).
Proof.
  unfold read_uint32_.
  destruct (negb _); [calm_tac|].
  apply calm_bind; [apply calm_next_sequence|intros sequence].
  rewrite read_request_frame.
  apply calm_bind; [apply calm_execute|intros [[status code] d]].
  calm_tac.
Qed.

Lemma calm_read_uint32 fuel address in_timeout check_sequence :
  calm (read_uint32 fuel address in_timeout check_sequence).
Proof.
  unfold read_uint32. generalize (default_timeout in_timeout) as timeout.
  intros timeout. induction fuel as [|fuel IH]; cbn [read_uint32_loop];
    [calm_tac|].
  apply calm_bind; [apply calm_read_uint32_|intros [status value]].
  destruct status; [calm_tac|].
  apply calm_bind; [apply calm_timeout_retry|intros again].
  destruct (negb again); [calm_tac|exact IH].
Qed.

#[local] Hint Resolve calm_write_uint32 calm_read_uint32
  calm_timeout_retry : calm.

Lemma calm_spi_write_payload fuel reg write_bytes timeout steps : forall index,
  calm (Spi.write_payload fuel steps reg write_bytes timeout index).
Proof.
  induction steps as [|steps IH]; intros index; cbn [Spi.write_payload];
    calm_tac.
Qed.

Lemma calm_spi_poll_busy fuel self timeout :
  calm (Spi.poll_busy fuel self timeout).
Proof.
  induction fuel as [|fuel IH]; cbn [Spi.poll_busy]; [calm_tac|].
  apply calm_bind; [calm_tac|intros value].
  destruct (_ =? 0); [calm_tac|].
  apply calm_bind; [calm_tac|intros again].
  destruct (negb again); [calm_tac|exact IH].
Qed.

Lemma calm_spi_read_words fuel reg timeout buffer_count steps : forall i r,
  calm (Spi.read_words fuel steps reg timeout buffer_count i r).
Proof.
  induction steps as [|steps IH]; intros i r; cbn [Spi.read_words]; calm_tac.
Qed.

#[local] Hint Resolve calm_spi_write_payload calm_spi_poll_busy
  calm_spi_read_words : calm.

Lemma calm_spi_transaction fuel self write_command_bytes write_data_bytes
    read_byte_count in_timeout :
  calm (Spi.spi_transaction fuel self write_command_bytes write_data_bytes
          read_byte_count in_timeout).
Proof. unfold Spi.spi_transaction. calm_tac. Qed.

Lemma calm_get_spi spi_address chip_select clock_divisor cpol cpha width :
  calm (Spi.get_spi spi_address chip_select clock_divisor cpol cpha width).
Proof. unfold Spi.get_spi. calm_tac. Qed.

Lemma calm_sleep_for ms : calm (sleep_for ms).
Proof. unfold sleep_for. calm_tac. Qed.

Lemma calm_find_channel : calm Enumerator_find_channel.
Proof. unfold Enumerator_find_channel. calm_tac. Qed.

Lemma calm_value_ {A} (o : option A) : calm (value_ o).
Proof. unfold value_. calm_tac. Qed.

Lemma calm_set_sequence sequence : calm (set_sequence sequence).
Proof. calm_base. Qed.

Lemma calm_get_fpga_version fuel timeout check_sequence :
  calm (get_fpga_version fuel timeout check_sequence).
Proof. unfold get_fpga_version. calm_tac. Qed.

#[local] Hint Resolve calm_spi_transaction calm_get_spi calm_sleep_for
  calm_find_channel calm_value_ calm_set_sequence calm_get_fpga_version : calm.

End CalmFacts.

#[local] Hint Resolve calm_next_sequence calm_write_uint32 calm_read_uint32
  calm_timeout_retry calm_spi_write_payload calm_spi_poll_busy
  calm_spi_read_words calm_spi_transaction calm_get_spi calm_sleep_for
  calm_find_channel calm_value_ calm_set_sequence calm_get_fpga_version : calm.

Section ResetTheorem.
Context {K : Constants} {E : Environment}.

Ltac step H a w1 H1 := apply bind_inv_ok in H as (a & w1 & H1 & H).

(** A loop over the listeners that returns has called them in turn. *)
Lemma reset_all_in_turn controllers : forall w w',
  reset_all controllers w = (Ok tt, w') -> in_turn controllers w w'.
Proof.
  induction controllers as [|c rest IH]; intros w w' H.
  - inversion H; subst. reflexivity.
  - cbn [reset_all] in H. apply bind_inv_ok in H as ([] & w1 & H1 & H2).
    exists w1. split; [exact H1|]. apply IH. exact H2.
Qed.


End ResetTheorem.

(** ** Argument checks of the SPI controller *)

Section SpiFacts.
Context {K : Constants} {E : Environment}.

(** The count of command bytes is the size of the vector narrowed to
    [uint32_t].  For a command of a size that fits, 16 bytes or more make
    [spi_transaction] throw the runtime error of the command-size guard, an
    InvalidArgument in the taxonomy of the specification, and the world is
    untouched: nothing was sent and no time has passed. *)
Theorem spi_command_limit fuel self write_command_bytes write_data_bytes
    read_byte_count in_timeout w :
  16 <= size write_command_bytes < 2 ^ 32 ->
  let e := runtime_error (SpiCommandTooLarge (size write_command_bytes)) in
  Spi.spi_transaction fuel self write_command_bytes write_data_bytes
    read_byte_count in_timeout w = (Throw e, w) /\
  error_kind e = InvalidArgument.
Proof.
  intros Hc e. split; [|reflexivity].
  unfold Spi.spi_transaction.
  assert (Hu : u32 (size write_command_bytes) = size write_command_bytes).
  { unfold u32. apply Z.mod_small. lia. }
  rewrite Hu.
  assert ((16 <=? size write_command_bytes) = true) as -> by lia.
  reflexivity.
Qed.

(** A command of 2^32 + 1 bytes has the narrowed count 1: neither guard
    stops it, and the transaction goes on to read the control register.
    When that read fails, its error is the error of the transaction, in the
    world that the read left. *)
Lemma spi_long_command_passes_guard fuel self write_command_bytes in_timeout
    w e w1 :
  size write_command_bytes = 2 ^ 32 + 1 ->
  read_uint32 fuel (Spi.reg_control_ self) (Some (spi_timeout in_timeout))
    DEFAULT_SEQUENCE_CHECK w = (Throw e, w1) ->
  Spi.spi_transaction fuel self write_command_bytes [] 0 in_timeout w
  = (Throw e, w1).
Proof.
  intros Hs Hr. unfold Spi.spi_transaction.
  rewrite app_nil_r, Hs.
  change (u32 (2 ^ 32 + 1)) with 1.
  change (16 <=? 1) with false. cbv iota.
  change (u32 (1 + 0)) with 1.
  change (288 <=? 1) with false. cbv iota.
  apply bind_throw. exact Hr.
Qed.

(** As long as the sum of the three sizes fits a [uint32_t], a sum of 288
    or more is refused before anything is sent. *)
Lemma spi_budget_checked fuel self write_command_bytes write_data_bytes
    read_byte_count in_timeout w :
  0 <= read_byte_count ->
  size write_command_bytes + size write_data_bytes + read_byte_count < 2 ^ 32 ->
  288 <= size write_command_bytes + size write_data_bytes + read_byte_count ->
  exists e,
    Spi.spi_transaction fuel self write_command_bytes write_data_bytes
      read_byte_count in_timeout w = (Throw e, w) /\
    error_kind e = InvalidArgument.
Proof.
  intros Hr Hfit Hbig. unfold Spi.spi_transaction.
  assert (Hc : 0 <= size write_command_bytes) by (unfold size; lia).
  assert (Hd : 0 <= size write_data_bytes) by (unfold size; lia).
  assert (Hu : u32 (size write_command_bytes) = size write_command_bytes).
  { unfold u32. apply Z.mod_small. lia. }
  rewrite Hu.
  destruct (16 <=? size write_command_bytes); [eexists; split; reflexivity|].
  assert (Hs : size (write_command_bytes ++ write_data_bytes)
               = size write_command_bytes + size write_data_bytes).
  { unfold size. rewrite length_app. lia. }
  rewrite Hs.
  assert (Hw : u32 (size write_command_bytes + size write_data_bytes)
               = size write_command_bytes + size write_data_bytes).
  { unfold u32. apply Z.mod_small. lia. }
  rewrite Hw.
  assert (Hb : u32 (size write_command_bytes + size write_data_bytes
                    + read_byte_count)
               = size write_command_bytes + size write_data_bytes
                 + read_byte_count).
  { unfold u32. apply Z.mod_small. lia. }
  rewrite Hb.
  assert ((288 <=? size write_command_bytes + size write_data_bytes
                   + read_byte_count) = true) as -> by lia.
  eexists; split; reflexivity.
Qed.

End SpiFacts.

(** * Worked examples on the bench *)

(** C6. The budget check of [spi_transaction] adds the sizes in
    [uint32_t].  With one command byte and read_byte_count = 2^32 - 1 the
    sum is 2^32 >= 288, the addition wraps to 0, the check passes, and the
    transaction goes to the device: seven datagrams are sent, among them
    the byte counts and START, before the final copy leaves the buffer. *)
Theorem spi_budget_check_wraps :
  size [0x01] + size [] + 4294967295 >= 288 /\
  @Spi.spi_transaction bench_constants (bench (fun _ => 0) attentive 0) 10
    (Spi.new 0x03000000 0) [0x01] [] 4294967295 None power_on
  = (Undefined,
     mkWorld 263 [] 28
       [Sent [0x14; 3; 1; 6; 0; 0; 3; 0; 0; 0];
        Sent [0x04; 3; 1; 5; 0; 0; 3; 0; 0; 0; 0; 0; 0; 1];
        Sent [0x04; 3; 1; 4; 0; 0; 3; 0; 0; 12; 0; 0; 1; 0];
        Sent [0x04; 3; 1; 3; 0; 0; 3; 0; 0; 4; 255; 255; 0; 1];
        Sent [0x04; 3; 1; 2; 0; 0; 3; 0; 0; 16; 0; 0; 0; 1];
        Sent [0x04; 3; 1; 1; 0; 0; 3; 0; 0; 8; 0; 0; 0; 0];
        Sent [0x14; 3; 1; 0; 0; 0; 3; 0; 0; 0]]).
Proof. split; [vm_compute; discriminate|vm_compute; reflexivity]. Qed.

(** C10. The guard on the command compares the size of the vector
    narrowed to [uint32_t].  A command of 2^32 + 1 bytes has 16 bytes or
    more and the narrowed count 1: the guard passes, the transaction takes a
    sequence number and sends the read request for the control register, and
    against a device that does not answer the call ends in TimeoutError, not
    in the error of the guard. *)
Theorem spi_command_count_narrows :
  let write_command_bytes := replicate (Z.to_nat 4294967297) 0x5A in
  16 <= size write_command_bytes /\
  @Spi.spi_transaction bench_constants (bench (fun _ => 0) deaf 0) 10
    (Spi.new 0x03000000 0) write_command_bytes [] 0 None power_on
  = (Throw (TimeoutError (ReadTimeout 0x03000000)),
     mkWorld 0x101 [] 3 [Sent [0x14; 3; 1; 0; 0; 0; 3; 0; 0; 0]]).
Proof.
  intros write_command_bytes.
  assert (Hs : size write_command_bytes = 2 ^ 32 + 1).
  { unfold write_command_bytes, size. rewrite length_replicate.
    rewrite Z2Nat.id by discriminate. reflexivity. }
  clearbody write_command_bytes.
  split; [rewrite Hs; discriminate|].
  apply (@spi_long_command_passes_guard bench_constants
           (bench (fun _ => 0) deaf 0)); [exact Hs|].
  vm_compute. reflexivity.
Qed.

(** The claim C2 as it is written fails: with a timeout that allows
    65537 attempts against a deaf device, [read_uint32] ends in
    TimeoutError, and the first attempt (the oldest event) and the last
    one (the newest) carry the same sequence number 0x0100. *)
Lemma read_uint32_sequence_repeats :
  let r := @read_uint32 bench_constants (bench (fun _ => 0) deaf 196610)
             (Z.to_nat 65600) 0x80 None true power_on in
  let newest_first := events (snd r) in
  fst r = Throw (TimeoutError (ReadTimeout 0x80)) /\
  Z.of_nat (length newest_first) = 65537 /\
  newest_first !! Z.to_nat 65536
  = Some (Sent [0x14; 3; 1; 0; 0; 0; 0; 0; 0; 0x80]) /\
  newest_first !! Z.to_nat 0
  = Some (Sent [0x14; 3; 1; 0; 0; 0; 0; 0; 0; 0x80]).
Proof. vm_compute. repeat split. Qed.


(** ** The theorems at work *)

Lemma execute_matches_sequence_witness :
  (exists reply rc d',
     reply_header reply = Some (0x100, rc, d') /\
     Some 0 = Some rc /\ Some (mkDeserializer version_reply 5) = Some d' /\
     des_buffer d' = reply) /\
  @execute_loop (bench (fun _ => 7) attentive 0) 4 0x2A version_request tt
    version_requested
  = @execute_loop (bench (fun _ => 7) attentive 0) 3 0x2A version_request tt
      (mkWorld 0x101 [] 4 [Sent version_request]) /\
  @execute_loop (bench (fun _ => 7) deaf 0) 2 0x100 version_request tt
    version_requested
  = (Ok (false, None, None), mkWorld 0x101 [] 2 [Sent version_request]).
Proof.
  split; [|split].
  - eapply (proj1 (@execute_matches_sequence (bench (fun _ => 7) attentive 0)
                     5 0x100 version_request tt) power_on true).
    vm_compute. reflexivity.
  - eapply (proj1 (proj2 (@execute_matches_sequence
                            (bench (fun _ => 7) attentive 0)
                            3 0x2A version_request tt))).
    + vm_compute. reflexivity.
    + vm_compute. reflexivity.
    + discriminate.
  - apply (proj2 (proj2 (@execute_matches_sequence
                           (bench (fun _ => 7) deaf 0)
                           0 0x100 version_request tt))).
    reflexivity.
Defined.

Lemma read_uint32_timeout_after_retries_witness :
  let E := bench (fun _ => 0) deaf 7 in
  let w' := snd (@read_uint32 bench_constants E 10 0x80 None true power_on) in
  Z.land 0x80 3 = 0 /\
  exists n : nat, (1 <= n)%nat /\ sequence_ w' = u16 (0x100 + Z.of_nat n).
Proof.
  intros E w'. split; [reflexivity|].
  destruct (@read_uint32_timeout_after_retries bench_constants E 10 0x80 None
              true power_on (ReadTimeout 0x80) w' eq_refl)
    as (_ & _ & n & frames & Hn & _ & _ & _ & Hs & _).
  - vm_compute. reflexivity.
  - exists n. split; assumption.
Defined.

Lemma bench_listeners_discreet registers listens retry_until :
  discreet (@controller_reset (bench registers listens retry_until)).
Proof. intros c w o w' H. inversion H; subst. auto. Qed.


Lemma write_uint32_frame_layout_witness :
  let E := bench (fun _ => 0) attentive 0 in
  events (snd (@write_uint32_ bench_constants E 10 0x8 0xDEADBEEF tt true true
                 power_on))
  = [Sent [0x04; 3; 1; 0; 0; 0; 0; 0; 0; 8; 0xDE; 0xAD; 0xBE; 0xEF]] /\
  (Z.land (u8 (Z.lor 1 2)) 2 = 2 <-> true = true).
Proof.
  intros E.
  destruct (@write_uint32_frame_layout bench_constants E 10 0x8 0xDEADBEEF tt
              true true power_on eq_refl eq_refl eq_refl)
    as (_ & _ & He & Hf).
  split; [exact He|].
  apply Hf; [vm_compute; split; [discriminate|reflexivity]
            |vm_compute; split; reflexivity|reflexivity].
Defined.

Lemma write_uint32_no_ack_swallows_no_reply_witness :
  @write_uint32 bench_constants (bench (fun _ => 0) deaf 0) 6 0x4 0x8 None
    false true power_on
  = (Ok false,
     mkWorld 0x101 [] 2 [Sent [0x04; 3; 1; 0; 0; 0; 0; 0; 0; 4; 0; 0; 0; 8]]).
Proof.
  apply (@write_uint32_no_ack_swallows_no_reply bench_constants
           (bench (fun _ => 0) deaf 0) 5 0x4 0x8 None true power_on).
  - reflexivity.
  - vm_compute. reflexivity.
Defined.

Lemma i2c_busy_fails_without_writes_witness :
  let E := bench (fun _ => 0x100) attentive 0 in
  @I2c.i2c_transaction bench_constants E 10 (I2c.new 0x04000000) 0x09 [1; 2] 2
    None power_on
  = (Throw (runtime_error (UnexpectedI2cBusy 0x04000000 0x100)),
     mkWorld 0x101 [] 4 [Sent [0x14; 3; 1; 0; 0; 0; 4; 0; 0; 0]]).
Proof.
  intros E.
  apply (@i2c_busy_fails_without_writes bench_constants E 10
           (I2c.new 0x04000000) 0x09 [1; 2] 2 None power_on 0x100).
  - reflexivity.
  - reflexivity.
  - reflexivity.
  - vm_compute. reflexivity.
  - vm_compute. discriminate.
Defined.

Lemma gpio_set_value_on_input_fails_witness :
  let E := bench (fun _ => 0xFFFFFFFF) attentive 0 in
  @GPIO.set_value bench_constants E 10 (GPIO.mk 16) 3 1 power_on
  = (Throw (runtime_error (GpioInputRegister 3)),
     mkWorld 0x101 [] 4 [Sent [0x14; 3; 1; 0; 0; 0; 0; 0; 0; 0x2C]]).
Proof.
  intros E.
  apply (@gpio_set_value_on_input_fails bench_constants E 10 (GPIO.mk 16) 3 1
           power_on).
  - reflexivity.
  - discriminate.
  - vm_compute. reflexivity.
Defined.

Lemma i2c_read_back_unpacks_witness :
  0 <= 6 < 0x100 /\
  length (unpack (Z.to_nat 6) [0x04030201; 0x08070605]) = Z.to_nat 6 /\
  unpack (Z.to_nat 6) [0x04030201; 0x08070605] !! 5%nat
  = Some (Z.land (Z.shiftr 0x08070605 (8 * Z.of_nat (5 mod 4))) 0xFF).
Proof.
  assert (H : 0 <= 6 < 0x100) by (split; [discriminate|reflexivity]).
  split; [exact H|].
  destruct (proj2 (@i2c_read_back_unpacks bench_constants
                     (bench (fun _ => 0) attentive 0) 10 (I2c.new 0x04000000)
                     6 tt H) [0x04030201; 0x08070605] eq_refl) as (Hl & Hb).
  split; [exact Hl|].
  apply Hb; [vm_compute; lia|reflexivity].
Defined.

Lemma spi_command_limit_witness :
  @Spi.spi_transaction bench_constants (bench (fun _ => 0) attentive 0) 10
    (Spi.new 0x03000000 0) (replicate 16 0x5A) [] 0 None power_on
  = (Throw (runtime_error (SpiCommandTooLarge 16)), power_on).
Proof.
  apply (@spi_command_limit bench_constants (bench (fun _ => 0) attentive 0)
           10 (Spi.new 0x03000000 0) (replicate 16 0x5A) [] 0 None power_on).
  vm_compute. split; [discriminate|reflexivity].
Defined.

(** * Further properties of the code *)

(** ** Bytes and words *)

Lemma lor_shiftl_small (acc b k : Z) :
  0 <= k -> 0 <= b < 2 ^ k ->
  Z.lor (Z.shiftl acc k) b = acc * 2 ^ k + b.
Proof.
  intros Hk Hb. rewrite <- Z.shiftl_mul_pow2 by assumption.
  symmetry. apply Z.add_nocarry_lor.
  apply Z.bits_inj'. intros n Hn. rewrite Z.land_spec, Z.bits_0.
  destruct (Z.lt_ge_cases n k) as [Hlt|Hge].
  - rewrite Z.shiftl_spec_low by assumption. reflexivity.
  - rewrite <- (Z.mod_small b (2 ^ k)) by assumption.
    rewrite Z.mod_pow2_bits_high by lia. apply andb_false_r.
Qed.

Lemma u8_range (z : Z) : 0 <= u8 z < 256.
Proof. unfold u8. apply Z.mod_pos_bound. reflexivity. Qed.

(** Reading back what [append_uint32_be] and [append_uint16_be] wrote. *)
Lemma be_value_uint32_be (z : Z) : be_value (uint32_be z) = u32 z.
Proof.
  unfold be_value, uint32_be. cbn [fold_left].
  pose proof (u8_range (Z.shiftr z 24)). pose proof (u8_range (Z.shiftr z 16)).
  pose proof (u8_range (Z.shiftr z 8)). pose proof (u8_range z).
  rewrite !(lor_shiftl_small _ _ 8) by lia.
  unfold u8, u32 in *. rewrite !Z.shiftr_div_pow2 in * by lia.
  Z.to_euclidean_division_equations. lia.
Qed.

Lemma be_value_uint16_be (z : Z) : be_value (uint16_be z) = u16 z.
Proof.
  unfold be_value, uint16_be. cbn [fold_left].
  pose proof (u8_range (Z.shiftr z 8)). pose proof (u8_range z).
  rewrite !(lor_shiftl_small _ _ 8) by lia.
  unfold u8, u16 in *. rewrite !Z.shiftr_div_pow2 in * by lia.
  Z.to_euclidean_division_equations. lia.
Qed.

(** One step of the deserializer over a buffer whose rest is known. *)
Lemma des_take_app (n : nat) (buffer : list Z) (position : nat)
    (bs rest : list Z) :
  drop position buffer = bs ++ rest ->
  length bs = n ->
  des_take n (mkDeserializer buffer position)
  = Some (bs, mkDeserializer buffer (position + n)) /\
  drop (position + n) buffer = rest.
Proof.
  intros Hd Hl. unfold des_take. cbn [des_position des_buffer].
  rewrite Hd, length_app, Hl.
  assert ((n <=? n + length rest)%nat = true) as -> by (apply Nat.leb_le; lia).
  split.
  - rewrite <- Hl, take_app_length. reflexivity.
  - rewrite <- drop_drop, Hd, <- Hl, drop_app_length. reflexivity.
Qed.

Lemma des_take_short (n : nat) (buffer : list Z) (position : nat) :
  (0 < n)%nat ->
  (length buffer < position + n)%nat ->
  des_take n (mkDeserializer buffer position) = None.
Proof.
  intros Hn Hl. unfold des_take. cbn [des_position des_buffer].
  rewrite length_drop.
  assert ((n <=? length buffer - position)%nat = false) as ->
    by (apply Nat.leb_gt; lia).
  reflexivity.
Qed.

Lemma des_take_enough (n : nat) (buffer : list Z) (position : nat) :
  (position + n <= length buffer)%nat ->
  des_take n (mkDeserializer buffer position)
  = Some (take n (drop position buffer), mkDeserializer buffer (position + n)).
Proof.
  intros Hl. unfold des_take. cbn [des_position des_buffer].
  rewrite length_drop.
  assert ((n <=? length buffer - position)%nat = true) as ->
    by (apply Nat.leb_le; lia).
  reflexivity.
Qed.

Lemma bind_ret {A B} (a : A) (k : A -> M B) w : bind (ret a) k w = k a w.
Proof. reflexivity. Qed.

Lemma bind_history {A} (k : list Event -> M A) w :
  bind history k w = k (events w) w.
Proof. reflexivity. Qed.

Lemma bind_tick {A} (k : Z -> M A) w :
  bind tick k w = k (now w) (snd (tick w)).
Proof. reflexivity. Qed.

Lemma timeout_expired_run {E : Environment} t w :
  timeout_expired t w = (Ok (expired t (events w) (now w)), snd (tick w)).
Proof. reflexivity. Qed.

Lemma size_cons_nonzero_le (b : Z) (bs : list Z) :
  (size (b :: bs) <=? 0) = false.
Proof. unfold size. simpl length. apply Z.leb_gt. lia. Qed.

(** ** Edges of the register access engine *)

Section EngineEdges.
Context {K : Constants} {E : Environment}.

(** X1. An address that is not a multiple of four is refused by
    [read_uint32] and by [write_uint32] before anything else happens: no
    sequence number is taken, nothing is sent, no time passes. *)
Theorem unaligned_access_is_refused fuel address value in_timeout retry_
    sequence_check w :
  Z.land address 3 <> 0 ->
  read_uint32 (S fuel) address in_timeout sequence_check w
  = (Throw (runtime_error (InvalidAddress address)), w) /\
  write_uint32 (S fuel) address value in_timeout retry_ sequence_check w
  = (Throw (runtime_error (InvalidAddress address)), w).
Proof.
  intros Ha.
  assert (Hb : negb (Z.land address 3 =? 0) = true)
    by (apply negb_true_iff, Z.eqb_neq; assumption).
  split.
  - unfold read_uint32. cbn [read_uint32_loop]. unfold read_uint32_.
    rewrite Hb. reflexivity.
  - unfold write_uint32. cbn [write_uint32_loop]. unfold write_uint32_.
    rewrite Hb. reflexivity.
Qed.

Lemma reply_header_short reply :
  (length reply < 5)%nat -> reply_header reply = None.
Proof.
  intros Hl.
  destruct reply as [|b0 [|b1 [|b2 [|b3 [|b4 rest]]]]]; try reflexivity.
  simpl in Hl. lia.
Qed.

Lemma reply_header_long b0 b1 b2 b3 b4 rest :
  reply_header (b0 :: b1 :: b2 :: b3 :: b4 :: rest)
  = Some (be_value [b2; b3], be_value [b4],
          mkDeserializer (b0 :: b1 :: b2 :: b3 :: b4 :: rest) 5).
Proof. reflexivity. Qed.

(** X2. A datagram of one to four bytes cannot hold the header of a
    reply.  [execute] does not discard it as it discards a reply with a
    foreign sequence number: the call ends with the runtime error "Unable
    to deserialize", whatever the datagram answers to. *)
Theorem short_reply_aborts_execute fuel sequence request timeout w reply w1 :
  receive_control fuel (Some timeout) w = (Ok reply, w1) ->
  (0 < length reply < 5)%nat ->
  execute_loop (S fuel) sequence request timeout w
  = (Throw (runtime_error UnableToDeserialize), w1).
Proof.
  intros Hr [Hpos Hlt]. cbn [execute_loop].
  rewrite (bind_ok _ _ _ _ _ Hr). unfold executed at 1.
  change (bind (ret tt) ?k w1) with (k tt w1). cbv beta.
  destruct reply as [|b bs]; [simpl in Hpos; lia|].
  rewrite size_cons_nonzero, reply_header_short by assumption.
  reflexivity.
Qed.

Lemma recvfrom_loop_nonempty fuel : forall w bytes w',
  recvfrom_loop fuel w = (Ok bytes, w') -> bytes <> [].
Proof.
  induction fuel as [|fuel IH]; intros w bytes w' H; [discriminate|].
  cbn [recvfrom_loop] in H. rewrite bind_history, bind_tick in H.
  destruct (sys_recvfrom (events w) (now w)) as [|received]; [discriminate|].
  destruct received as [|b bs].
  - apply IH in H. assumption.
  - rewrite size_cons_nonzero_le in H. inversion H. discriminate.
Qed.

(** X3. [receive_control] reports "no reply" (the empty vector) only
    when the deadline of the timeout has passed or [select] puts the socket
    in the exception set.  A datagram of length zero is no cause: the
    [recvfrom] loop waits for the next one. *)
Theorem no_reply_has_a_cause fuel timeout : forall w w',
  receive_control fuel (Some timeout) w = (Ok [], w') ->
  events w' = events w /\
  (expired timeout (events w') (now w' - 1) = true \/
   sys_select (events w') (now w' - 1) = SelectExceptional).
Proof.
  induction fuel as [|fuel IH]; intros w w' H; [discriminate|].
  cbn [receive_control] in H.
  rewrite (bind_ok _ _ _ _ _ (timeout_expired_run _ _)) in H.
  destruct (expired timeout (events w) (now w)) eqn:He.
  { inversion H; subst. simpl. split; [reflexivity|left].
    replace (now w + 1 - 1) with (now w) by lia. exact He. }
  rewrite bind_history, bind_tick in H.
  change (events (snd (tick w))) with (events w) in H.
  change (now (snd (tick w))) with (now w + 1) in H.
  destruct (sys_select (events w) (now w + 1)) eqn:Hs.
  - discriminate.
  - inversion H; subst. simpl. split; [reflexivity|right].
    replace (now w + 1 + 1 - 1) with (now w + 1) by lia. exact Hs.
  - apply IH in H. exact H.
  - apply recvfrom_loop_nonempty in H. congruence.
Qed.

(** X4. A reply with the right sequence number and a response code other
    than RESPONSE_SUCCESS ends [read_uint32] and [write_uint32] with a
    runtime error that carries the code.  No further attempt is made,
    whether or not retrying is allowed: the world is the one that the single
    exchange left. *)
Theorem response_code_error_is_not_retried fuel address value in_timeout
    retry_ sequence_check w response_code :
  Z.land address 3 = 0 ->
  response_code <> RESPONSE_SUCCESS ->
  (forall d w',
     execute fuel (sequence_ w)
       (read_frame sequence_check (sequence_ w) address)
       (default_timeout in_timeout) (snd (next_sequence w))
     = (Ok (true, Some response_code, d), w') ->
     read_uint32 (S fuel) address in_timeout sequence_check w
     = (Throw (runtime_error (ReadResponseCode response_code)), w')) /\
  (forall d w',
     execute fuel (sequence_ w)
       (write_frame sequence_check (sequence_ w) address value)
       (default_timeout in_timeout) (snd (next_sequence w))
     = (Ok (true, Some response_code, d), w') ->
     write_uint32 (S fuel) address value in_timeout retry_ sequence_check w
     = (Throw (runtime_error (WriteResponseCode address value response_code)),
        w')).
Proof.
  intros Ha Hrc.
  assert (Hne : (response_code =? RESPONSE_SUCCESS) = false)
    by (apply Z.eqb_neq; assumption).
  split; intros d w' Hx.
  - unfold read_uint32. cbn [read_uint32_loop].
    rewrite (bind_throw _ _ _ (runtime_error (ReadResponseCode response_code)) w');
      [reflexivity|].
    rewrite read_uint32__aligned by assumption.
    rewrite (bind_ok _ _ _ _ _ Hx). simpl. rewrite Hne. reflexivity.
  - unfold write_uint32. cbn [write_uint32_loop].
    rewrite (bind_throw _ _ _
               (runtime_error (WriteResponseCode address value response_code)) w');
      [reflexivity|].
    rewrite write_uint32__aligned by assumption.
    rewrite (bind_ok _ _ _ _ _ Hx). simpl. rewrite Hne. reflexivity.
Qed.

(** The body of a read reply, decoded. *)
Lemma read_reply_body_decodes reply reserved response_address value
    latched_sequence rest :
  drop 5 reply
  = reserved :: uint32_be response_address ++ uint32_be value
    ++ uint16_be latched_sequence ++ rest ->
  read_reply_body (mkDeserializer reply 5)
  = Some (u32 response_address, u32 value, u16 latched_sequence).
Proof.
  intros Hd. unfold read_reply_body, next_uint8, next_uint32_be, next_uint16_be.
  destruct (des_take_app 1 reply 5 [reserved] _ Hd eq_refl) as (-> & Hd1).
  cbn [mbind option_bind].
  destruct (des_take_app 4 reply (5 + 1) (uint32_be response_address) _ Hd1
              eq_refl) as (-> & Hd2).
  cbn [mbind option_bind].
  destruct (des_take_app 4 reply (5 + 1 + 4) (uint32_be value) _ Hd2 eq_refl)
    as (-> & Hd3).
  cbn [mbind option_bind].
  destruct (des_take_app 2 reply (5 + 1 + 4 + 4) (uint16_be latched_sequence)
              _ Hd3 eq_refl) as (-> & _).
  cbn [mbind option_bind].
  rewrite !be_value_uint32_be, be_value_uint16_be. reflexivity.
Qed.

(** X5. A reply with the right sequence number, RESPONSE_SUCCESS and a
    body [reserved, address (4), value (4), latched sequence (2)] makes
    [read_uint32] return the value, read big-endian, after a single
    exchange, provided the address in the reply is the one requested; a
    reply for another address stops at the assertion on the address. *)
Theorem read_uint32_decodes_reply fuel address in_timeout sequence_check w
    reply reserved response_address value latched_sequence rest w' :
  Z.land address 3 = 0 ->
  execute fuel (sequence_ w)
    (read_frame sequence_check (sequence_ w) address)
    (default_timeout in_timeout) (snd (next_sequence w))
  = (Ok (true, Some RESPONSE_SUCCESS, Some (mkDeserializer reply 5)), w') ->
  drop 5 reply
  = reserved :: uint32_be response_address ++ uint32_be value
    ++ uint16_be latched_sequence ++ rest ->
  read_uint32 (S fuel) address in_timeout sequence_check w
  = (if u32 response_address =? u32 address then Ok (u32 value)
     else AssertFailed, w').
Proof.
  intros Ha Hx Hd. unfold read_uint32. cbn [read_uint32_loop].
  unfold bind at 1. rewrite read_uint32__aligned by assumption.
  rewrite (bind_ok _ _ _ _ _ Hx). simpl.
  rewrite Z.eqb_refl. simpl.
  rewrite (read_reply_body_decodes _ _ _ _ _ _ Hd).
  unfold bind, assert_, ret.
  destruct (u32 response_address =? u32 address); reflexivity.
Qed.

End EngineEdges.

(** ** Attempts of a register write *)

Section WriteAttempts.
Context {K : Constants} {E : Environment}.

Lemma quiet_write_verdict address value (response_expected status : bool)
    (code : option Z) :
  quiet (if negb status then ret false
         else
           match code with
           | None =>
               if response_expected then ret false
               else throw bad_optional_access
           | Some response_code =>
               if response_code =? RESPONSE_SUCCESS then ret true
               else throw (runtime_error
                             (WriteResponseCode address value response_code))
           end).
Proof.
  destruct status; simpl; [|apply quiet_ret].
  destruct code as [rc|].
  - destruct (rc =? RESPONSE_SUCCESS); [apply quiet_ret|apply quiet_throw].
  - destruct response_expected; [apply quiet_ret|apply quiet_throw_bad_optional].
Qed.

Lemma write_uint32__effect fuel address value timeout response_expected
    sequence_check w o w' :
  Z.land address 3 = 0 ->
  write_uint32_ fuel address value timeout response_expected sequence_check w
  = (o, w') ->
  sequence_ w' = u16 (sequence_ w + 1) /\
  reset_controllers_ w' = reset_controllers_ w /\
  (events w'
   = Sent (write_frame sequence_check (sequence_ w) address value) :: events w \/
   (events w' = events w /\ exists e, o = Throw (runtime_error e))) /\
  forall x, o <> Throw (TimeoutError x).
Proof.
  intros Ha. rewrite write_uint32__aligned by assumption. intros H.
  destruct (bind_inv _ _ _ _ _ H) as [([[status code] d] & w1 & H1 & H2)|[H1 Hn]].
  - apply execute_effect in H1 as (X1 & X2 & [X3|(_ & e & X3)] & _);
      [|discriminate].
    pose proof (quiet_write_verdict address value response_expected status code
                  _ _ _ H2) as (Q1 & Q2 & Q3 & Q4).
    simpl in X1, X2, X3.
    split; [congruence|split; [congruence|split; [left; congruence|exact Q4]]].
  - apply execute_effect in H1 as (X1 & X2 & X3 & X4). simpl in X1, X2, X3.
    split; [assumption|split; [assumption|]].
    split.
    + destruct X3 as [X3|(X3 & e & X5)]; [left; assumption|right].
      split; [assumption|]. destruct o; try discriminate X5.
      inversion X5; subst. eauto.
    + intros x ->. exact (X4 x eq_refl).
Qed.

Lemma write_uint32__unaligned fuel address value timeout response_expected
    sequence_check w :
  Z.land address 3 <> 0 ->
  write_uint32_ fuel address value timeout response_expected sequence_check w
  = (Throw (runtime_error (InvalidAddress address)), w).
Proof.
  intros Ha. unfold write_uint32_.
  assert (negb (Z.land address 3 =? 0) = true) as ->
    by (apply negb_true_iff, Z.eqb_neq; assumption).
  reflexivity.
Qed.

Lemma rev_write_attempt_frames_S sc a v s n :
  rev (write_attempt_frames sc a v s (S n))
  = rev (write_attempt_frames sc a v (u16 (s + 1)) n) ++ [write_frame sc s a v].
Proof. reflexivity. Qed.

(** What a run of the loop of [write_uint32] with retry leaves behind. *)
Lemma write_uint32_loop_trace fuel address value timeout sequence_check :
  Z.land address 3 = 0 ->
  forall w o w',
    write_uint32_loop fuel address value timeout true sequence_check w = (o, w') ->
    exists n,
      events w'
      = (Sent <$> rev (write_attempt_frames sequence_check address value
                         (sequence_ w) n))
        ++ events w /\
      match o with
      | Ok status =>
          status = true /\ (1 <= n)%nat /\ sequence_ w' = advance (sequence_ w) n
      | Throw (TimeoutError x) =>
          (1 <= n)%nat /\ sequence_ w' = advance (sequence_ w) n /\
          x = WriteTimeout address value /\
          retry timeout (events w') (now w' - 1) = false
      | _ => True
      end.
Proof.
  intros Ha. induction fuel as [|fuel IH]; intros w o w' H.
  { inversion H; subst. exists 0%nat. auto. }
  cbn [write_uint32_loop] in H.
  destruct (bind_inv _ _ _ _ _ H) as [(status & w1 & H1 & H2)|[H1 Hn]].
  - apply (write_uint32__effect _ _ _ _ _ _ _ _ _ Ha) in H1
      as (R1 & R2 & [R3|(_ & e & R3)] & _); [|discriminate].
    destruct status.
    + inversion H2; subst. exists 1%nat. split; [rewrite R3; reflexivity|].
      split; [reflexivity|]. split; [lia|exact R1].
    + cbn [negb] in H2. cbv iota in H2.
      rewrite (bind_ok _ _ _ _ _ (timeout_retry_run _ _)) in H2.
      destruct (retry timeout (events w1) (now w1)) eqn:Hr; simpl in H2.
      * apply IH in H2 as (n & I2 & I3). simpl in I2, I3.
        exists (S n).
        rewrite rev_write_attempt_frames_S, fmap_app, <- app_assoc.
        rewrite R1 in I2, I3. rewrite R3 in I2. split; [exact I2|].
        destruct o as [v|[e|x|]| | |]; try exact I; simpl.
        -- destruct I3 as (? & ? & ?). repeat split; try assumption. lia.
        -- destruct I3 as (? & ? & ? & ?). repeat split; try assumption. lia.
      * inversion H2; subst. simpl.
        exists 1%nat. split; [rewrite R3; reflexivity|].
        split; [lia|]. split; [exact R1|]. split; [reflexivity|].
        replace (now w1 + 1 - 1) with (now w1) by lia. exact Hr.
  - apply (write_uint32__effect _ _ _ _ _ _ _ _ _ Ha) in H1
      as (R1 & R2 & R3 & R4).
    assert (Ho : match o with
                 | Ok _ | Throw (TimeoutError _) => False
                 | _ => True
                 end).
    { destruct o as [v|[e|x|]| | |]; try exact I.
      - exact (Hn v eq_refl).
      - exact (R4 x eq_refl). }
    destruct R3 as [R3|(R3 & _)].
    + exists 1%nat. split; [rewrite R3; reflexivity|].
      destruct o as [v|[e|x|]| | |]; try exact I; destruct Ho.
    + exists 0%nat. split; [rewrite R3; reflexivity|].
      destruct o as [v|[e|x|]| | |]; try exact I; destruct Ho.
Qed.

Lemma write_frame_u16 sc s a v : write_frame sc (u16 s) a v = write_frame sc s a v.
Proof. unfold write_frame. rewrite u8_u16, u8_shiftr_u16. reflexivity. Qed.

Lemma write_attempt_frames_length sc a v s n :
  length (write_attempt_frames sc a v s n) = n.
Proof. revert s. induction n as [|n IH]; intros s; simpl; [|rewrite IH]; reflexivity. Qed.

Lemma write_attempt_frames_lookup sc a v n : forall s k,
  (k < n)%nat ->
  write_attempt_frames sc a v s n !! k
  = Some (write_frame sc (u16 (s + Z.of_nat k)) a v).
Proof.
  induction n as [|n IH]; intros s k Hk; [lia|].
  destruct k as [|k]; simpl.
  - rewrite Z.add_0_r, write_frame_u16. reflexivity.
  - rewrite IH by lia. rewrite u16_u16_add. do 3 f_equal. lia.
Qed.

(** X6. For a 4-byte-aligned address, [write_uint32] with retry raises
    TimeoutError only when [retry()] of its timeout has just refused another
    attempt.  It has then sent n >= 1 write requests for the same address
    and value; attempt k carries the sequence number (s + k) mod 65536, s
    being the counter at the call, and the counter has advanced by n. *)
Theorem write_uint32_timeout_after_retries fuel address value in_timeout
    sequence_check w x w' :
  Z.land address 3 = 0 ->
  write_uint32 fuel address value in_timeout true sequence_check w
  = (Throw (TimeoutError x), w') ->
  x = WriteTimeout address value /\
  retry (default_timeout in_timeout) (events w') (now w' - 1) = false /\
  exists (n : nat) (frames : list (list Z)),
    (1 <= n)%nat /\ length frames = n /\
    events w' = (Sent <$> rev frames) ++ events w /\
    (forall k, (k < n)%nat ->
       frames !! k
       = Some (write_frame sequence_check (u16 (sequence_ w + Z.of_nat k))
                 address value)) /\
    sequence_ w' = u16 (sequence_ w + Z.of_nat n).
Proof.
  intros Ha H. unfold write_uint32 in H.
  apply (write_uint32_loop_trace _ _ _ _ _ Ha) in H
    as (n & He & Hn & Hs & Hx & Hr).
  split; [assumption|]. split; [assumption|].
  exists n, (write_attempt_frames sequence_check address value (sequence_ w) n).
  split; [assumption|]. split; [apply write_attempt_frames_length|].
  split; [assumption|].
  split; [intros; apply write_attempt_frames_lookup; assumption|].
  rewrite Hs. apply advance_u16. assumption.
Qed.

(** X7. With retry, [write_uint32] at an aligned address never returns
    false: a return means that an attempt was acknowledged with
    RESPONSE_SUCCESS, and every failure is an exception. *)
Theorem write_uint32_with_retry_returns_true fuel address value in_timeout
    sequence_check w status w' :
  Z.land address 3 = 0 ->
  write_uint32 fuel address value in_timeout true sequence_check w
  = (Ok status, w') ->
  status = true.
Proof.
  intros Ha H. unfold write_uint32 in H.
  apply (write_uint32_loop_trace _ _ _ _ _ Ha) in H as (n & _ & Hs & _).
  exact Hs.
Qed.

(** X8. Without retry, [write_uint32] makes a single attempt: it sends
    at most one datagram, the write request with the current sequence
    number, and it never raises TimeoutError. *)
Theorem write_uint32_without_retry_is_single fuel address value in_timeout
    sequence_check w o w' :
  write_uint32 fuel address value in_timeout false sequence_check w = (o, w') ->
  (events w' = events w \/
   events w'
   = Sent (write_frame sequence_check (sequence_ w) address value) :: events w) /\
  forall x, o <> Throw (TimeoutError x).
Proof.
  unfold write_uint32. destruct fuel as [|fuel]; cbn [write_uint32_loop].
  { intros H. inversion H; subst. split; [left; reflexivity|discriminate]. }
  intros H.
  destruct (Z.eq_dec (Z.land address 3) 0) as [Ha|Ha].
  - destruct (bind_inv _ _ _ _ _ H) as [(status & w1 & H1 & H2)|[H1 Hn]].
    + apply (write_uint32__effect _ _ _ _ _ _ _ _ _ Ha) in H1
        as (_ & _ & [R3|(_ & e & R3)] & _); [|discriminate].
      assert (w' = w1 /\ exists b, o = Ok b) as (-> & b & ->)
        by (destruct status; inversion H2; subst; eauto).
      split; [right; exact R3|discriminate].
    + apply (write_uint32__effect _ _ _ _ _ _ _ _ _ Ha) in H1
        as (_ & _ & R3 & R4).
      split.
      * destruct R3 as [R3|(R3 & _)]; [right|left]; assumption.
      * intros x ->. exact (R4 x eq_refl).
  - rewrite (bind_throw _ _ _ _ _ (write_uint32__unaligned _ _ _ _ _ _ _ Ha)) in H.
    inversion H; subst. split; [left; reflexivity|discriminate].
Qed.

End WriteAttempts.

(** ** The payload of a bus transaction *)

Lemma land_255 (z : Z) : Z.land z 0xFF = z mod 2 ^ 8.
Proof. change 0xFF with (Z.ones 8). apply Z.land_ones. lia. Qed.

Lemma lor_small_shiftl (low high k : Z) :
  0 <= k -> 0 <= low < 2 ^ k ->
  Z.lor low (Z.shiftl high k) = high * 2 ^ k + low.
Proof. intros Hk Hl. rewrite Z.lor_comm. apply lor_shiftl_small; assumption. Qed.

(** Four bytes packed as the payload loops pack them, and unpacked as the
    read-back loops unpack them. *)
Lemma le_bytes_of_packed (b0 b1 b2 b3 : Z) :
  0 <= b0 < 256 -> 0 <= b1 < 256 -> 0 <= b2 < 256 -> 0 <= b3 < 256 ->
  le_bytes (u32 (Z.lor (Z.lor (Z.lor (Z.shiftl b0 0) (Z.shiftl b1 8))
                              (Z.shiftl b2 16)) (Z.shiftl b3 24)))
  = [b0; b1; b2; b3].
Proof.
  intros H0 H1 H2 H3. rewrite Z.shiftl_0_r.
  rewrite (lor_small_shiftl b0 b1 8) by lia.
  rewrite (lor_small_shiftl _ b2 16) by lia.
  rewrite (lor_small_shiftl _ b3 24) by lia.
  unfold le_bytes, u32. rewrite !land_255, !Z.shiftr_div_pow2 by lia.
  repeat f_equal; Z.to_euclidean_division_equations; lia.
Qed.

Lemma at_range (v : list Z) (i : Z) :
  Forall (fun b => 0 <= b < 256) v -> 0 <= at_ v i < 256.
Proof.
  intros Hv. unfold at_. destruct (v !! Z.to_nat i) as [b|] eqn:Hl; simpl; [|lia].
  exact (proj1 (Forall_lookup _ _) Hv _ _ Hl).
Qed.

Lemma at_beyond (v : list Z) (i : Z) : 0 <= i -> size v <= i -> at_ v i = 0.
Proof.
  intros Hi Hs. unfold at_, size in *.
  rewrite lookup_ge_None_2 by lia. reflexivity.
Qed.

(** X9. The word that the payload loops of [i2c_transaction] and
    [spi_transaction] build at [index] holds the bytes [index .. index + 3]
    of the payload in little-endian order, with zeros past the end of the
    payload: unpacked as the read-back unpacks a word, it gives these four
    bytes back. *)
Theorem payload_word_round_trip (write_bytes : list Z) (index : Z) :
  Forall (fun b => 0 <= b < 256) write_bytes ->
  0 <= index ->
  le_bytes (I2c.payload_word write_bytes index)
  = [at_ write_bytes index; at_ write_bytes (index + 1);
     at_ write_bytes (index + 2); at_ write_bytes (index + 3)] /\
  forall j, size write_bytes <= index + j -> 0 <= j -> at_ write_bytes (index + j) = 0.
Proof.
  intros Hv Hi. split; [|intros j Hj Hj0; apply at_beyond; lia].
  unfold I2c.payload_word.
  assert (Hskip : forall j k acc, 0 <= j ->
            (if index + j <? size write_bytes
             then Z.lor acc (Z.shiftl (at_ write_bytes (index + j)) k)
             else acc)
            = Z.lor acc (Z.shiftl (at_ write_bytes (index + j)) k)).
  { intros j k acc Hj. destruct (index + j <? size write_bytes) eqn:Hlt;
      [reflexivity|].
    rewrite at_beyond by lia. rewrite Z.shiftl_0_l, Z.lor_0_r. reflexivity. }
  rewrite !Hskip by lia.
  apply le_bytes_of_packed; apply at_range; assumption.
Qed.

Section PayloadFacts.
Context {K : Constants} {E : Environment}.

(** X10. An I2C transaction whose peripheral address is 0x80 or more,
    whose payload has 0x100 bytes or more, or that asks for 0x100 bytes or
    more, is refused with a runtime error before the control register is
    read: the world is untouched. *)
Theorem i2c_arguments_are_checked_first fuel self peripheral_i2c_address
    write_bytes read_byte_count in_timeout w :
  0x80 <= peripheral_i2c_address \/ 0x100 <= size write_bytes
  \/ 0x100 <= read_byte_count ->
  exists e,
    I2c.i2c_transaction fuel self peripheral_i2c_address write_bytes
      read_byte_count in_timeout w = (Throw (runtime_error e), w) /\
    error_kind (runtime_error e) = InvalidArgument.
Proof.
  intros H. unfold I2c.i2c_transaction.
  destruct (0x80 <=? peripheral_i2c_address) eqn:H1;
    [eexists; split; reflexivity|].
  destruct (0x100 <=? size write_bytes) eqn:H2;
    [eexists; split; reflexivity|].
  destruct (0x100 <=? read_byte_count) eqn:H3;
    [eexists; split; reflexivity|].
  lia.
Qed.

Lemma write_payload_refines fuel base write_bytes timeout (total : nat) :
  size write_bytes <= 4 * Z.of_nat total ->
  forall (count steps first : nat) w,
    (first + count = total)%nat ->
    (count <= steps)%nat ->
    (4 * Z.of_nat total < size write_bytes + 4) ->
    I2c.write_payload fuel steps base write_bytes timeout (4 * Z.of_nat first) w
    = write_many fuel timeout (payload_words base write_bytes first count) w.
Proof.
  intros Hcover. induction count as [|count IH]; intros steps first w Hf Hs Ht.
  - assert ((4 * Z.of_nat first <? size write_bytes) = false) as Hlt by lia.
    destruct steps; cbn [I2c.write_payload]; rewrite Hlt; reflexivity.
  - destruct steps as [|steps]; [lia|]. cbn [I2c.write_payload].
    assert ((4 * Z.of_nat first <? size write_bytes) = true) as -> by lia.
    unfold payload_words. cbn [seq fmap list_fmap write_many].
    fold (payload_words base write_bytes (S first) count).
    apply bind_ext. intros _ w1.
    replace (4 * Z.of_nat first + 4) with (4 * Z.of_nat (S first)) by lia.
    apply IH; lia.
Qed.

Lemma spi_write_payload_same fuel base write_bytes timeout steps :
  forall index w,
    Spi.write_payload fuel steps base write_bytes timeout index w
    = I2c.write_payload fuel steps base write_bytes timeout index w.
Proof.
  induction steps as [|steps IH]; intros index w; [reflexivity|].
  cbn [Spi.write_payload I2c.write_payload].
  destruct (index <? size write_bytes); [|reflexivity].
  apply bind_ext. intros _ w1. apply IH.
Qed.

(** X11. The payload loop of [i2c_transaction] and the one of
    [spi_transaction] write ceil(n / 4) words for a payload of n bytes, word
    k at the data buffer address plus 4k, in ascending order, each with
    retry. *)
Theorem payload_is_written_word_by_word fuel base write_bytes timeout w :
  let words := Z.to_nat ((size write_bytes + 3) / 4) in
  I2c.write_payload fuel (length write_bytes) base write_bytes timeout 0 w
  = write_many fuel timeout (payload_words base write_bytes 0 words) w /\
  Spi.write_payload fuel (length write_bytes) base write_bytes timeout 0 w
  = write_many fuel timeout (payload_words base write_bytes 0 words) w.
Proof.
  intros words.
  assert (Hs : 0 <= size write_bytes) by (unfold size; lia).
  assert (Hw : Z.of_nat words = (size write_bytes + 3) / 4).
  { unfold words. rewrite Z2Nat.id; [reflexivity|]. apply Z.div_pos; lia. }
  assert (Hlow : size write_bytes <= 4 * Z.of_nat words).
  { rewrite Hw. clear -Hs. Z.to_euclidean_division_equations. lia. }
  assert (Hhigh : 4 * Z.of_nat words < size write_bytes + 4).
  { rewrite Hw. clear -Hs. Z.to_euclidean_division_equations. lia. }
  assert (Hsteps : (words <= length write_bytes)%nat).
  { unfold size in *. lia. }
  pose proof (write_payload_refines fuel base write_bytes timeout words Hlow
                words (length write_bytes) 0%nat w eq_refl Hsteps Hhigh) as H.
  change (4 * Z.of_nat 0) with 0 in H.
  split; [exact H|]. rewrite <- H. apply spi_write_payload_same.
Qed.

End PayloadFacts.

(** ** Results and guards of the SPI controller *)

Section SpiResults.
Context {K : Constants} {E : Environment}.

Ltac spi_step H a w1 H1 := apply bind_inv_ok in H as (a & w1 & H1 & H).

(** X12. When [spi_transaction] returns, the vector it returns has
    exactly [read_byte_count] bytes, the count of command bytes as the code
    holds it (the size of the command narrowed to [uint32_t]) was below 16,
    so that a command of a size below 2^32 had fewer than 16 bytes, and the
    byte budget as the code computes it was below 288. *)
Theorem spi_transaction_result_length fuel self write_command_bytes
    write_data_bytes read_byte_count in_timeout w r w' :
  0 <= read_byte_count ->
  Spi.spi_transaction fuel self write_command_bytes write_data_bytes
    read_byte_count in_timeout w = (Ok r, w') ->
  length r = Z.to_nat read_byte_count /\
  u32 (size write_command_bytes) < 16 /\
  u32 (u32 (size (write_command_bytes ++ write_data_bytes)) + read_byte_count)
  < 288 /\
  (size write_command_bytes < 2 ^ 32 -> size write_command_bytes < 16).
Proof.
  intros Hr H. unfold Spi.spi_transaction in H.
  destruct (16 <=? u32 (size write_command_bytes)) eqn:Hc; [discriminate|].
  destruct (288 <=? _) eqn:Hb in H; [discriminate|].
  split; [|split; [lia|split; [lia|]]].
  2:{ intros Hlt. apply Z.leb_gt in Hc. unfold u32 in Hc.
      rewrite Z.mod_small in Hc by (unfold size in *; lia). exact Hc. }
  spi_step H a1 w1 H1. spi_step H a2 w2 H2. spi_step H a3 w3 H3.
  spi_step H a4 w4 H4. spi_step H a5 w5 H5. spi_step H a6 w6 H6.
  spi_step H a7 w7 H7. spi_step H a8 w8 H8.
  destruct (negb a8); [discriminate|].
  spi_step H a9 w9 H9. spi_step H r0 w10 H10.
  clear H1 H2 H3 H4 H5 H6 H7 H8 H9 H10.
  destruct (size r0 <? _) eqn:Hs in H; [discriminate|].
  inversion H; subst. apply Z.ltb_ge in Hs.
  rewrite length_take, length_drop.
  pose proof (Z.mod_pos_bound
                (size (write_command_bytes ++ write_data_bytes)) (2 ^ 32)
                eq_refl) as Hu.
  fold (u32 (size (write_command_bytes ++ write_data_bytes))) in Hu.
  generalize dependent (u32 (size (write_command_bytes ++ write_data_bytes))).
  intros write_byte_count _ Hs Hu. unfold size in Hs. lia.
Qed.

(** X13. A bus width other than 1, 2 and 4 is not refused by [get_spi]:
    the lookup in the width table gives 0 for it, so the controller made is
    the one made for width 1. *)
Theorem get_spi_unknown_width_is_single spi_address chip_select clock_divisor
    cpol cpha width w :
  width <> 1 -> width <> 2 -> width <> 4 ->
  Spi.get_spi spi_address chip_select clock_divisor cpol cpha width w
  = Spi.get_spi spi_address chip_select clock_divisor cpol cpha 1 w.
Proof.
  intros H1 H2 H4. unfold Spi.get_spi, Spi.width_map.
  assert ((width =? 1) = false) as -> by lia.
  assert ((width =? 2) = false) as -> by lia.
  assert ((width =? 4) = false) as -> by lia.
  reflexivity.
Qed.

End SpiResults.

(** X14. For a clock divisor below 16, a chip select below 8 and a
    width of 1, 2 or 4, [get_spi] succeeds without any effect, and the
    configuration word of the controller holds the clock divisor in bits
    0-3, the clock polarity in bit 4, the clock phase in bit 5, the width
    code (0, 2, 3) in bits 8-9 and the chip select in bits 12-14. *)
Theorem get_spi_configuration_layout spi_address chip_select clock_divisor cpol
    cpha width w :
  0 <= clock_divisor < 16 -> 0 <= chip_select < 8 ->
  width = 1 \/ width = 2 \/ width = 4 ->
  exists spi,
    Spi.get_spi spi_address chip_select clock_divisor cpol cpha width w
    = (Ok spi, w) /\
    Spi.reg_control_ spi = u32 spi_address /\
    Z.land (Spi.spi_cfg_ spi) 0xF = clock_divisor /\
    Z.testbit (Spi.spi_cfg_ spi) 4 = negb (cpol =? 0) /\
    Z.testbit (Spi.spi_cfg_ spi) 5 = negb (cpha =? 0) /\
    Z.land (Z.shiftr (Spi.spi_cfg_ spi) 8) 3
    = (if width =? 1 then 0 else if width =? 2 then 2 else 3) /\
    Z.land (Z.shiftr (Spi.spi_cfg_ spi) 12) 7 = chip_select.
Proof.
  intros Hd Hc Hw. unfold Spi.get_spi.
  assert ((16 <=? clock_divisor) = false) as -> by lia.
  assert ((8 <=? chip_select) = false) as -> by lia.
  eexists. split; [reflexivity|]. split; [unfold Spi.new; simpl; f_equal; lia|].
  cbn [Spi.new Spi.spi_cfg_].
  assert (Hds : clock_divisor = 0 \/ clock_divisor = 1 \/ clock_divisor = 2
                \/ clock_divisor = 3 \/ clock_divisor = 4 \/ clock_divisor = 5
                \/ clock_divisor = 6 \/ clock_divisor = 7 \/ clock_divisor = 8
                \/ clock_divisor = 9 \/ clock_divisor = 10 \/ clock_divisor = 11
                \/ clock_divisor = 12 \/ clock_divisor = 13 \/ clock_divisor = 14
                \/ clock_divisor = 15) by lia.
  assert (Hcs : chip_select = 0 \/ chip_select = 1 \/ chip_select = 2
                \/ chip_select = 3 \/ chip_select = 4 \/ chip_select = 5
                \/ chip_select = 6 \/ chip_select = 7) by lia.
  clear Hd Hc.
  destruct (cpol =? 0), (cpha =? 0);
    repeat (destruct Hw as [->|Hw]); try subst width;
    repeat (destruct Hds as [->|Hds]); try subst clock_divisor;
    repeat (destruct Hcs as [->|Hcs]); try subst chip_select;
    vm_compute; repeat split.
Qed.

(** ** Pins of the GPIO controller *)

Lemma read_bit_testbit (value bit : Z) :
  0 <= bit -> GPIO.read_bit value bit = Z.b2z (Z.testbit value bit).
Proof.
  intros Hb. unfold GPIO.read_bit. change 0x1 with (Z.ones 1).
  rewrite Z.land_ones by lia. rewrite Z.shiftr_div_pow2 by assumption.
  symmetry. apply Z.testbit_spec'. assumption.
Qed.

Lemma set_bit_testbit (value bit n : Z) :
  0 <= bit -> 0 <= n < 32 ->
  Z.testbit (GPIO.set_bit value bit) n = Z.testbit value n || (bit =? n).
Proof.
  intros Hb Hn. unfold GPIO.set_bit, u32.
  rewrite Z.mod_pow2_bits_low by lia.
  rewrite Z.lor_spec, Z.shiftl_1_l, Z.pow2_bits_eqb by assumption.
  reflexivity.
Qed.

Lemma clear_bit_testbit (value bit n : Z) :
  0 <= bit -> 0 <= n < 32 ->
  Z.testbit (GPIO.clear_bit value bit) n = Z.testbit value n && negb (bit =? n).
Proof.
  intros Hb Hn. unfold GPIO.clear_bit, u32.
  rewrite Z.mod_pow2_bits_low by lia.
  rewrite Z.land_spec, Z.lnot_spec, Z.shiftl_1_l, Z.pow2_bits_eqb by lia.
  reflexivity.
Qed.

(** X15. [set_bit] sets and [clear_bit] clears the bit of the pin in a
    register word, as [read_bit] reads it, and both leave the 31 other bits
    as they are; the word stays a 32-bit value. *)
Theorem gpio_bit_helpers (value bit : Z) :
  0 <= bit < 32 ->
  GPIO.read_bit (GPIO.set_bit value bit) bit = 1 /\
  GPIO.read_bit (GPIO.clear_bit value bit) bit = 0 /\
  (forall other, 0 <= other < 32 -> other <> bit ->
     GPIO.read_bit (GPIO.set_bit value bit) other = GPIO.read_bit value other /\
     GPIO.read_bit (GPIO.clear_bit value bit) other = GPIO.read_bit value other) /\
  0 <= GPIO.set_bit value bit < 2 ^ 32 /\
  0 <= GPIO.clear_bit value bit < 2 ^ 32.
Proof.
  intros Hb.
  split; [|split; [|split; [|split]]].
  - rewrite read_bit_testbit, set_bit_testbit by lia.
    rewrite Z.eqb_refl, orb_true_r. reflexivity.
  - rewrite read_bit_testbit, clear_bit_testbit by lia.
    rewrite Z.eqb_refl, andb_false_r. reflexivity.
  - intros other Ho Hne.
    rewrite !read_bit_testbit, set_bit_testbit, clear_bit_testbit by lia.
    assert ((bit =? other) = false) as -> by lia.
    rewrite orb_false_r, andb_true_r. split; reflexivity.
  - unfold GPIO.set_bit, u32. apply Z.mod_pos_bound. reflexivity.
  - unfold GPIO.clear_bit, u32. apply Z.mod_pos_bound. reflexivity.
Qed.

Section GpioGuards.
Context {K : Constants} {E : Environment}.

(** X16. A pin at or beyond the pin count of the board is refused by the
    four pin operations with the runtime error "invalid pin", without any
    register access. *)
Theorem gpio_invalid_pin_is_refused fuel self pin direction value w :
  GPIO.gpio_pin_number_ self <= pin ->
  let e := runtime_error (GpioInvalidPin pin) in
  GPIO.set_direction fuel self pin direction w = (Throw e, w) /\
  GPIO.get_direction fuel self pin w = (Throw e, w) /\
  GPIO.set_value fuel self pin value w = (Throw e, w) /\
  GPIO.get_value fuel self pin w = (Throw e, w).
Proof.
  intros Hp e.
  unfold GPIO.set_direction, GPIO.get_direction, GPIO.set_value,
    GPIO.get_value.
  assert ((pin <? GPIO.gpio_pin_number_ self) = false) as -> by lia.
  repeat split.
Qed.

(** X17. [set_direction] checks the direction only after it has read
    the direction register: a direction that is neither IN nor OUT is
    refused with a runtime error, the register has been read, and nothing is
    written (the world is the one the read left). *)
Theorem gpio_set_direction_invalid_direction fuel self pin direction w v w1 :
  pin < GPIO.gpio_pin_number_ self ->
  direction <> IN -> direction <> OUT ->
  read_uint32 fuel
    (u32 (GPIO_DIRECTION_BASE_REGISTER
          + pin / 32 * GPIO_REGISTER_ADDRESS_OFFSET))
    None DEFAULT_SEQUENCE_CHECK w = (Ok v, w1) ->
  GPIO.set_direction fuel self pin direction w
  = (Throw (runtime_error (GpioInvalidDirection pin direction)), w1).
Proof.
  intros Hp Hi Ho Hread. unfold GPIO.set_direction.
  assert ((pin <? GPIO.gpio_pin_number_ self) = true) as -> by lia.
  rewrite (bind_ok _ _ _ _ _ Hread).
  assert ((direction =? IN) = false) as -> by lia.
  assert ((direction =? OUT) = false) as -> by lia.
  reflexivity.
Qed.

(** X18. [set_value] on an output pin checks the value only after it has
    read the direction and the status register: a value that is neither
    HIGH nor LOW is refused with a runtime error and nothing is written (the
    world is the one the two reads left). *)
Theorem gpio_set_value_invalid_value fuel self pin value w w1 v w2 :
  pin < GPIO.gpio_pin_number_ self ->
  value <> HIGH -> value <> LOW ->
  GPIO.get_direction fuel self pin w = (Ok OUT, w1) ->
  read_uint32 fuel
    (u32 (GPIO_STATUS_BASE_REGISTER
          + pin / 32 * GPIO_REGISTER_ADDRESS_OFFSET))
    None DEFAULT_SEQUENCE_CHECK w1 = (Ok v, w2) ->
  GPIO.set_value fuel self pin value w
  = (Throw (runtime_error (GpioInvalidValue pin value)), w2).
Proof.
  intros Hp Hh Hl Hdir Hread. unfold GPIO.set_value.
  assert ((pin <? GPIO.gpio_pin_number_ self) = true) as -> by lia.
  rewrite (bind_ok _ _ _ _ _ Hdir). rewrite Z.eqb_refl.
  rewrite (bind_ok _ _ _ _ _ Hread).
  assert ((value =? HIGH) = false) as -> by lia.
  assert ((value =? LOW) = false) as -> by lia.
  reflexivity.
Qed.

End GpioGuards.

(** ** Listeners and failures of a reset *)

(** One statement of a sequence: it fails, and what follows is not run, or
    it returns and leaves the listeners alone. *)
Ltac stage H C Hnone :=
  match type of H with
  | bind ?m ?k ?wc = (_, _) =>
      let Hm := fresh "Hm" in
      let a := fresh "a" in
      let w1 := fresh "w" in
      let H1 := fresh "S" in
      let H2 := fresh "R" in
      let Hn := fresh "Hn" in
      assert (Hm : calm m) by calm_tac;
      destruct (bind_inv _ _ _ _ _ H) as [(a & w1 & H1 & H2)|[H1 Hn]];
      [ apply Hm in H1; clear H Hm; rename H2 into H;
        assert (reset_controllers_ w1 = reset_controllers_ wc /\
                reset_calls (events w1) = reset_calls (events wc)) as H2
          by exact H1;
        clear H1;
        destruct H2 as (H1 & H2); destruct C as (Hm & Hn);
        rewrite Hm in H1; rewrite Hn in H2; clear Hm Hn;
        pose proof (conj H1 H2) as C; clear H1 H2; clear wc
      | apply Hm in H1; destruct H1 as (H1 & H2); destruct C as (C & Hm');
        rewrite C in H1; apply Hnone; [exact H1|congruence|exact Hn] ]
  end.

Section ResetFailures.
Context {K : Constants} {E : Environment}.

(** The loop over the listeners stops at the first one that does not
    return. *)
Lemma reset_all_prefix controllers :
  discreet controller_reset ->
  forall w o w',
    reset_all controllers w = (o, w') ->
    exists called rest,
      controllers = called ++ rest /\
      reset_calls (events w') = rev called ++ reset_calls (events w) /\
      reset_controllers_ w' = reset_controllers_ w /\
      (o = Ok tt -> rest = []) /\
      (o <> Ok tt ->
       exists before c w1,
         called = before ++ [c] /\ controller_reset c w1 = (o, w')).
Proof.
  intros Hd. induction controllers as [|c rest IH]; intros w o w' H.
  { inversion H; subst. exists [], []. repeat split; auto. congruence. }
  cbn [reset_all] in H.
  destruct (bind_inv _ _ _ _ _ H) as [([] & w1 & H1 & H2)|[H1 Hn]].
  - unfold ResetController_reset in H1.
    apply bind_inv_ok in H1 as ([] & w2 & H0 & H1).
    inversion H0; subst w2. clear H0.
    apply Hd in H1 as (D1 & D2). simpl in D1, D2.
    apply IH in H2 as (called & rest' & I1 & I2 & I3 & I4 & I5).
    exists (c :: called), rest'. subst rest.
    split; [reflexivity|]. split.
    { rewrite I2, D2. cbn [rev]. rewrite <- app_assoc. reflexivity. }
    split; [congruence|]. split; [assumption|].
    intros Ho. destruct (I5 Ho) as (before & c' & w2 & -> & Hc).
    exists (c :: before), c', w2. split; [reflexivity|assumption].
  - unfold ResetController_reset in H1.
    destruct (bind_inv _ _ _ _ _ H1) as [([] & w2 & H0 & H2)|[H0 _]];
      [|destruct o; discriminate].
    inversion H0; subst w2. clear H0.
    assert (Ho : controller_reset c
                   (mkWorld (sequence_ w) (reset_controllers_ w) (now w)
                      (ResetCalled c :: events w)) = (o, w')).
    { rewrite H2. destruct o as [[]| | | |]; try reflexivity.
      exfalso. exact (Hn tt eq_refl). }
    pose proof (Hd _ _ _ _ Ho) as (D1 & D2). simpl in D1, D2.
    exists [c], rest. split; [reflexivity|]. split; [exact D2|].
    split; [exact D1|]. split.
    { intros ->. exfalso. exact (Hn tt eq_refl). }
    intros _. exists [], c. eexists. split; [reflexivity|exact Ho].
Qed.

(** X19. Whatever the outcome of [reset], the listeners it has called
    are an initial part of the registered ones, each called once and in
    registration order, and the registrations are as before.  The part is
    the whole list when [reset] returns; when [reset] fails after calling a
    listener, the failure is the outcome of the listener called last, and
    the listeners registered after it are not called.  (The listeners being
    discreet: their bodies register no listener and trigger no reset.) *)
Theorem reset_stops_at_failing_listener fuel w o w' :
  discreet controller_reset ->
  reset fuel w = (o, w') ->
  exists called rest,
    reset_controllers_ w = called ++ rest /\
    reset_calls (events w') = rev called ++ reset_calls (events w) /\
    reset_controllers_ w' = reset_controllers_ w /\
    (o = Ok tt -> rest = []) /\
    (called <> [] -> o <> Ok tt ->
     exists before c w1,
       called = before ++ [c] /\ controller_reset c w1 = (o, w')).
Proof.
  intros Hd H.
  assert (Hnone :
            reset_controllers_ w' = reset_controllers_ w ->
            reset_calls (events w') = reset_calls (events w) ->
            (forall b : unit, o <> Ok b) ->
            exists called rest,
              reset_controllers_ w = called ++ rest /\
              reset_calls (events w') = rev called ++ reset_calls (events w) /\
              reset_controllers_ w' = reset_controllers_ w /\
              (o = Ok tt -> rest = []) /\
              (called <> [] -> o <> Ok tt ->
               exists before c w1,
                 called = before ++ [c] /\ controller_reset c w1 = (o, w'))).
  { intros C1 C2 Hn.
    exists [], (reset_controllers_ w). split; [reflexivity|].
    split; [exact C2|]. split; [exact C1|]. split.
    - intros ->. exfalso. exact (Hn tt eq_refl).
    - intros Hc. congruence. }
  assert (C : reset_controllers_ w = reset_controllers_ w /\
              reset_calls (events w) = reset_calls (events w)) by auto.
  unfold reset in H. revert H C.
  generalize w at 1 2 4 as wc. intros wc H C.
  do 15 stage H C Hnone.
  unfold bind, get_reset_controllers in H. cbn beta iota in H.
  destruct C as (C1 & C2).
  apply (reset_all_prefix _ Hd) in H
    as (called & rest & I1 & I2 & I3 & I4 & I5).
  exists called, rest. rewrite <- C1, <- C2.
  repeat split; try assumption. intros _. exact I5.
Qed.

End ResetFailures.

(** ** Polling for PTP and read-modify-write *)

Section PtpFacts.
Context {K : Constants} {E : Environment}.

Lemma read_uint32__no_timeout fuel address timeout sequence_check w o w' :
  read_uint32_ fuel address timeout sequence_check w = (o, w') ->
  forall x, o <> Throw (TimeoutError x).
Proof.
  intros H. destruct (Z.eq_dec (Z.land address 3) 0) as [Ha|Ha].
  - apply (read_uint32__effect _ _ _ _ _ _ _ Ha) in H. tauto.
  - unfold read_uint32_ in H.
    assert (Hn : negb (Z.land address 3 =? 0) = true)
      by (apply negb_true_iff, Z.eqb_neq; assumption).
    rewrite Hn in H. inversion H; subst. discriminate.
Qed.

(** X20. [ptp_synchronize] answers false only when its own timeout has
    just expired, and true only right after a read of the PTP register that
    succeeded with a count other than zero.  A read that gets no reply is
    not an error here: the function polls again after 100 ms, and it never
    raises TimeoutError. *)
Theorem ptp_synchronize_verdict FPGA_PTP_SYNC_TS_0 sequence_number_checking_
    timeout fuel : forall w o w',
  ptp_synchronize fuel FPGA_PTP_SYNC_TS_0 sequence_number_checking_ timeout w
  = (o, w') ->
  (forall x, o <> Throw (TimeoutError x)) /\
  (o = Ok false -> expired timeout (events w') (now w' - 1) = true) /\
  (o = Ok true ->
   exists fuel1 w1 ptp_count,
     read_uint32_ fuel1 FPGA_PTP_SYNC_TS_0 (default_timeout None)
       sequence_number_checking_ w1
     = (Ok (true, Some ptp_count), w') /\
     ptp_count <> 0).
Proof.
  induction fuel as [|fuel IH]; intros w o w' H.
  { inversion H; subst. repeat split; discriminate. }
  cbn [ptp_synchronize] in H.
  destruct (bind_inv _ _ _ _ _ H) as [([status value] & w1 & H1 & H2)|[H1 Hn]].
  2:{ pose proof (read_uint32__no_timeout _ _ _ _ _ _ _ H1) as Ht.
      split; [|split].
      - intros x ->. exact (Ht x eq_refl).
      - intros ->. exfalso. exact (Hn false eq_refl).
      - intros ->. exfalso. exact (Hn true eq_refl). }
  clear H.
  assert (Hpoll :
    bind (timeout_expired timeout)
      (fun is_expired : bool =>
         if is_expired then ret false
         else bind (sleep_for 100)
                (fun _ => ptp_synchronize fuel FPGA_PTP_SYNC_TS_0
                            sequence_number_checking_ timeout)) w1
    = (o, w') ->
    (forall x, o <> Throw (TimeoutError x)) /\
    (o = Ok false -> expired timeout (events w') (now w' - 1) = true) /\
    (o = Ok true ->
     exists fuel1 w1 ptp_count,
       read_uint32_ fuel1 FPGA_PTP_SYNC_TS_0 (default_timeout None)
         sequence_number_checking_ w1
       = (Ok (true, Some ptp_count), w') /\
       ptp_count <> 0)).
  { intros H. unfold bind at 1 in H. rewrite timeout_expired_run in H.
    destruct (expired timeout (events w1) (now w1)) eqn:Hx.
    - inversion H; subst. split; [discriminate|]. split; [|discriminate].
      intros _. simpl. rewrite Z.add_simpl_r. exact Hx.
    - apply (IH (snd (sleep_for 100 (snd (tick w1))))).
      rewrite <- H. reflexivity. }
  destruct status.
  - destruct value as [ptp_count|].
    + rewrite bind_ret in H2.
      destruct (ptp_count =? 0) eqn:Hz; cbn [negb] in H2; cbv iota in H2.
      * exact (Hpoll H2).
      * inversion H2; subst. split; [discriminate|]. split; [discriminate|].
        intros _. exists fuel, w, ptp_count.
        split; [exact H1|]. apply Z.eqb_neq. exact Hz.
    + inversion H2; subst. repeat split; discriminate.
  - rewrite bind_ret in H2. exact (Hpoll H2).
Qed.

(** The two read-modify-write helpers are a read and a write of the
    changed value. *)
Lemma read_modify_write (f : Z -> Z) fuel address w o w' :
  Z.land address 3 = 0 ->
  bind (read_uint32 fuel address None DEFAULT_SEQUENCE_CHECK)
    (fun value =>
       write_uint32 fuel address (f value) None true DEFAULT_SEQUENCE_CHECK) w
  = (o, w') ->
  exists (n m : nat) (value : Z),
    events w'
    = (Sent <$> rev (write_attempt_frames DEFAULT_SEQUENCE_CHECK address
                       (f value) (advance (sequence_ w) n) m))
      ++ (Sent <$> rev (attempt_frames DEFAULT_SEQUENCE_CHECK address
                          (sequence_ w) n))
      ++ events w /\
    ((1 <= m)%nat ->
     exists w1,
       read_uint32 fuel address None DEFAULT_SEQUENCE_CHECK w = (Ok value, w1)) /\
    (forall status, o = Ok status ->
       status = true /\ (1 <= n)%nat /\ (1 <= m)%nat).
Proof.
  intros Ha H.
  destruct (bind_inv _ _ _ _ _ H) as [(value & w1 & H1 & H2)|[H1 Hn]].
  - pose proof H1 as Hr. unfold read_uint32 in H1.
    apply (read_uint32_loop_trace _ _ _ _ Ha) in H1
      as (_ & n & R1 & R2 & R3).
    unfold write_uint32 in H2.
    apply (write_uint32_loop_trace _ _ _ _ _ Ha) in H2 as (m & W1 & W2).
    exists n, m, value. rewrite W1, R1, R3.
    split; [reflexivity|]. split; [eauto|].
    intros status ->. destruct W2 as (-> & Hm & _). auto.
  - unfold read_uint32 in H1.
    apply (read_uint32_loop_trace _ _ _ _ Ha) in H1 as (_ & n & R1 & _).
    exists n, 0%nat, 0. split; [exact R1|]. split; [lia|].
    intros status ->. exfalso. exact (Hn status eq_refl).
Qed.

(** X21. [and_uint32] and [or_uint32] at an aligned address read the
    register and then write it: every read request goes out before the first
    write request, every write request carries the value that the read
    returned, combined with the mask by AND (by OR), and nothing is written
    when the read fails.  A call that returns, returns true, after at least
    one request of each kind. *)
Theorem and_or_uint32_read_then_write fuel address mask w o w' :
  Z.land address 3 = 0 ->
  (and_uint32 fuel address mask w = (o, w') ->
   exists (n m : nat) (value : Z),
     events w'
     = (Sent <$> rev (write_attempt_frames DEFAULT_SEQUENCE_CHECK address
                        (Z.land value mask) (advance (sequence_ w) n) m))
       ++ (Sent <$> rev (attempt_frames DEFAULT_SEQUENCE_CHECK address
                           (sequence_ w) n))
       ++ events w /\
     ((1 <= m)%nat ->
      exists w1,
        read_uint32 fuel address None DEFAULT_SEQUENCE_CHECK w
        = (Ok value, w1)) /\
     (forall status, o = Ok status ->
        status = true /\ (1 <= n)%nat /\ (1 <= m)%nat)) /\
  (or_uint32 fuel address mask w = (o, w') ->
   exists (n m : nat) (value : Z),
     events w'
     = (Sent <$> rev (write_attempt_frames DEFAULT_SEQUENCE_CHECK address
                        (Z.lor value mask) (advance (sequence_ w) n) m))
       ++ (Sent <$> rev (attempt_frames DEFAULT_SEQUENCE_CHECK address
                           (sequence_ w) n))
       ++ events w /\
     ((1 <= m)%nat ->
      exists w1,
        read_uint32 fuel address None DEFAULT_SEQUENCE_CHECK w
        = (Ok value, w1)) /\
     (forall status, o = Ok status ->
        status = true /\ (1 <= n)%nat /\ (1 <= m)%nat)).
Proof.
  intros Ha. split; intros H.
  - exact (read_modify_write (fun value => Z.land value mask) _ _ _ _ _ Ha H).
  - exact (read_modify_write (fun value => Z.lor value mask) _ _ _ _ _ Ha H).
Qed.

End PtpFacts.

(** ** The registry of devices *)

Section RegistryFacts.
Context {L : Registry.Lookups}.
Import Registry.

(** A successful call leaves the serial number registered with the object
    it returns. *)
Lemma from_enumeration_metadata_registers metadata st h st' serial :
  from_enumeration_metadata metadata st = (inr h, st') ->
  get_string metadata "serial_number" = Some serial ->
  hololink_by_serial_number st' !! serial = Some h.
Proof.
  unfold from_enumeration_metadata. intros H Hs. rewrite Hs in H.
  destruct (hololink_by_serial_number st !! serial) as [r|] eqn:Hl.
  - inversion H; subst. exact Hl.
  - destruct (get_string metadata "peer_ip") as [peer|]; [|discriminate].
    destruct (get_int64 metadata "control_port") as [port|]; [|discriminate].
    inversion H; subst. cbn [hololink_by_serial_number].
    apply lookup_insert_eq.
Qed.

(** A call with a registered serial number returns the registered object
    and changes nothing. *)
Lemma from_enumeration_metadata_registered metadata st h serial :
  get_string metadata "serial_number" = Some serial ->
  hololink_by_serial_number st !! serial = Some h ->
  from_enumeration_metadata metadata st = (inr h, st).
Proof.
  unfold from_enumeration_metadata. intros -> ->. reflexivity.
Qed.

(** No call unregisters or replaces an object. *)
Lemma from_enumeration_metadata_keeps metadata st h serial :
  hololink_by_serial_number st !! serial = Some h ->
  hololink_by_serial_number (snd (from_enumeration_metadata metadata st))
    !! serial = Some h.
Proof.
  intros Hl. unfold from_enumeration_metadata.
  destruct (get_string metadata "serial_number") as [other|]; [|exact Hl].
  destruct (hololink_by_serial_number st !! other) as [r|] eqn:Ho;
    [exact Hl|].
  destruct (get_string metadata "peer_ip") as [peer|]; [|exact Hl].
  destruct (get_int64 metadata "control_port") as [port|]; [|exact Hl].
  cbn [snd hololink_by_serial_number].
  rewrite lookup_insert_ne by congruence. exact Hl.
Qed.

Lemma enumerations_keep others : forall st h serial,
  hololink_by_serial_number st !! serial = Some h ->
  hololink_by_serial_number (enumerations others st) !! serial = Some h.
Proof.
  induction others as [|metadata rest IH]; intros st h serial Hl;
    cbn [enumerations]; [exact Hl|].
  apply IH, from_enumeration_metadata_keeps. exact Hl.
Qed.

(** X22. Once [from_enumeration_metadata] has returned an object for a
    serial number, the registry maps the serial number to this object, and
    in every state of the registry that does so a call with this serial
    number returns this very object and leaves the registry as it is,
    whatever else its metadata holds or lacks.  The registry is in such a
    state after any number of further calls of [from_enumeration_metadata],
    for any metadata and whether they succeed or throw. *)
Theorem same_serial_number_same_object metadata metadata' st h st' :
  from_enumeration_metadata metadata st = (inr h, st') ->
  get_string metadata' "serial_number" = get_string metadata "serial_number" ->
  (exists serial,
     get_string metadata "serial_number" = Some serial /\
     hololink_by_serial_number st' !! serial = Some h) /\
  (forall later serial,
     get_string metadata' "serial_number" = Some serial ->
     hololink_by_serial_number later !! serial = Some h ->
     from_enumeration_metadata metadata' later = (inr h, later)) /\
  (forall others,
     from_enumeration_metadata metadata' (enumerations others st')
     = (inr h, enumerations others st')).
Proof.
  intros H Hs.
  destruct (get_string metadata "serial_number") as [serial|] eqn:Hm.
  2:{ unfold from_enumeration_metadata in H. rewrite Hm in H. discriminate. }
  pose proof (from_enumeration_metadata_registers _ _ _ _ _ H Hm) as Hl.
  split; [eauto|]. split.
  - intros later serial' Hs' Hl'.
    exact (from_enumeration_metadata_registered _ _ _ _ Hs' Hl').
  - intros others.
    apply (from_enumeration_metadata_registered _ _ _ serial Hs).
    apply enumerations_keep. exact Hl.
Qed.

(** X23. Metadata that [enumerated] accepts is accepted by
    [from_enumeration_metadata]; metadata that [from_enumeration_metadata]
    refuses leaves the registry as it is and is not accepted by
    [enumerated]. *)
Theorem enumerated_metadata_is_accepted metadata st :
  (enumerated metadata = true ->
   exists h st', from_enumeration_metadata metadata st = (inr h, st')) /\
  (forall e st',
     from_enumeration_metadata metadata st = (inl e, st') ->
     st' = st /\ enumerated metadata = false).
Proof.
  unfold enumerated, from_enumeration_metadata.
  destruct (get_string metadata "serial_number") as [serial|].
  2:{ split; [discriminate|]. intros e st' H. inversion H; subst. auto. }
  destruct (hololink_by_serial_number st !! serial) as [r|].
  { split; [eauto|]. intros e st' H. discriminate. }
  destruct (get_string metadata "peer_ip") as [peer|].
  2:{ split; [discriminate|]. intros e st' H. inversion H; subst. auto. }
  destruct (get_int64 metadata "control_port") as [port|].
  2:{ split; [discriminate|]. intros e st' H. inversion H; subst. auto. }
  split; [eauto|]. intros e st' H. discriminate.
Qed.

(** X24. The object made for a serial number that the registry does not
    hold is a new one and is registered under this serial number.  Its
    control port is the port of the metadata narrowed to 32 bits, and its
    sequence number checking is off only when the metadata holds
    "sequence_number_checking" with the value 0: without the key, checking
    is on. *)
Theorem new_object_fields metadata st serial peer port :
  get_string metadata "serial_number" = Some serial ->
  hololink_by_serial_number st !! serial = None ->
  get_string metadata "peer_ip" = Some peer ->
  get_int64 metadata "control_port" = Some port ->
  exists h,
    from_enumeration_metadata metadata st
    = (inr h, mkState (<[serial := h]> (hololink_by_serial_number st))
                      (S (objects st))) /\
    identity h = objects st /\
    serial_number_ h = serial /\ peer_ip_ h = peer /\
    control_port_ h = port mod 2 ^ 32 /\
    (sequence_number_checking_ h = false
     <-> get_int64 metadata "sequence_number_checking" = Some 0).
Proof.
  intros Hs Hl Hp Hc. unfold from_enumeration_metadata.
  rewrite Hs, Hl, Hp, Hc. eexists. split; [reflexivity|].
  cbn. repeat split; try reflexivity.
  - destruct (get_int64 metadata "sequence_number_checking") as [v|];
      [|discriminate].
    intros Hv. apply negb_false_iff, Z.eqb_eq in Hv. congruence.
  - intros ->. reflexivity.
Qed.

Lemma erase_all_lookup keys : forall (m : gmap string Hololink) key,
  erase_all keys m !! key = if decide (key ∈ keys) then None else m !! key.
Proof.
  induction keys as [|k rest IH]; intros m key; cbn [erase_all].
  - rewrite decide_False by apply not_elem_of_nil. reflexivity.
  - rewrite IH. destruct (decide (key ∈ rest)) as [Hin|Hout].
    + rewrite decide_True by (right; assumption). reflexivity.
    + destruct (decide (k = key)) as [->|Hne].
      * rewrite decide_True by left. apply lookup_delete_eq.
      * rewrite decide_False.
        -- apply lookup_delete_ne. assumption.
        -- intros Hin. apply elem_of_cons in Hin as [->|Hin]; congruence.
Qed.

(** X25. [reset_framework] empties the registry.  A device enumerated
    again afterwards gets a new object, not the one handed out before. *)
Theorem reset_framework_forgets_every_device st :
  hololink_by_serial_number (reset_framework st) = ∅ /\
  forall metadata h st',
    from_enumeration_metadata metadata (reset_framework st) = (inr h, st') ->
    identity h = objects st /\ objects st' = S (objects st).
Proof.
  assert (He : hololink_by_serial_number (reset_framework st) = ∅).
  { apply map_eq. intros key. rewrite lookup_empty.
    unfold reset_framework. cbn [hololink_by_serial_number].
    rewrite erase_all_lookup.
    destruct (decide (key ∈ (map_to_list (hololink_by_serial_number st)).*1))
      as [Hin|Hout]; [reflexivity|].
    destruct (hololink_by_serial_number st !! key) as [h|] eqn:Hl;
      [|reflexivity].
    exfalso. apply Hout.
    apply elem_of_map_to_list in Hl.
    apply (list_elem_of_fmap_2 fst) in Hl. exact Hl. }
  split; [exact He|].
  intros metadata h st' H. unfold from_enumeration_metadata in H.
  destruct (get_string metadata "serial_number") as [serial|]; [|discriminate].
  rewrite He, lookup_empty in H.
  destruct (get_string metadata "peer_ip") as [peer|]; [|discriminate].
  destruct (get_int64 metadata "control_port") as [port|]; [|discriminate].
  inversion H; subst. split; reflexivity.
Qed.

End RegistryFacts.

(** ** Frame metadata *)

Ltac des_step short :=
  match goal with
  | |- context [des_take ?n (mkDeserializer ?b ?p)] =>
      destruct (le_lt_dec (p + n) (length b));
      [ rewrite (des_take_enough n b p) by assumption;
        cbn [mbind option_bind]
      | short n b p ]
  end.

(** X26. [deserialize_metadata] needs 48 bytes: a shorter buffer is a
    buffer underflow, and from a buffer of 48 bytes or more it reads the nine
    fields big-endian at the offsets 0, 4, 8, 12, 20, 24, 32, 36 and 44,
    whatever follows them. *)
Theorem deserialize_metadata_needs_48_bytes (metadata_buffer : list Z) :
  ((length metadata_buffer < 48)%nat ->
   deserialize_metadata metadata_buffer = None) /\
  ((48 <= length metadata_buffer)%nat ->
   deserialize_metadata metadata_buffer
   = Some {| flags := be_value (take 4 metadata_buffer);
             psn := be_value (take 4 (drop 4 metadata_buffer));
             crc := be_value (take 4 (drop 8 metadata_buffer));
             timestamp_s := be_value (take 8 (drop 12 metadata_buffer));
             timestamp_ns := be_value (take 4 (drop 20 metadata_buffer));
             bytes_written := be_value (take 8 (drop 24 metadata_buffer));
             frame_number := be_value (take 4 (drop 32 metadata_buffer));
             metadata_s := be_value (take 8 (drop 36 metadata_buffer));
             metadata_ns := be_value (take 4 (drop 44 metadata_buffer)) |}).
Proof.
  unfold deserialize_metadata, next_uint32_be, next_uint64_be. split.
  - intros Hl.
    do 9 (des_step ltac:(fun n b p =>
            rewrite (des_take_short n b p) by lia; reflexivity)).
    simpl in *. lia.
  - intros Hl.
    do 9 (des_step ltac:(fun n b p => simpl in *; lia)).
    reflexivity.
Qed.

(** ** The further properties at work *)

Lemma unaligned_access_is_refused_witness :
  let E := bench (fun _ => 0) attentive 0 in
  @read_uint32 bench_constants E 10 0x82 None true power_on
  = (Throw (runtime_error (InvalidAddress 0x82)), power_on) /\
  @write_uint32 bench_constants E 10 0x82 5 None true true power_on
  = (Throw (runtime_error (InvalidAddress 0x82)), power_on).
Proof.
  intros E.
  apply (@unaligned_access_is_refused bench_constants E 9 0x82 5 None true true
           power_on).
  discriminate.
Defined.

Lemma short_reply_aborts_execute_witness :
  let E := answering_bench (fun _ => [0x14; 3]) in
  @execute_loop E 10 0x100 version_request tt version_requested
  = (Throw (runtime_error UnableToDeserialize),
     mkWorld 0x101 [] 4 [Sent version_request]).
Proof.
  intros E.
  apply (@short_reply_aborts_execute E 9 0x100 version_request
           tt version_requested [0x14; 3]).
  - vm_compute. reflexivity.
  - simpl. lia.
Defined.

Lemma no_reply_has_a_cause_witness :
  let E := bench (fun _ => 0) deaf 0 in
  let w' := snd (@receive_control E 10 (Some tt) version_requested) in
  events w' = [Sent version_request] /\
  (@expired E tt (events w') (now w' - 1) = true \/
   @sys_select E (events w') (now w' - 1) = SelectExceptional).
Proof.
  intros E w'.
  apply (@no_reply_has_a_cause E 10 tt version_requested w').
  vm_compute. reflexivity.
Defined.

Lemma response_code_error_is_not_retried_witness :
  let E := answering_bench (refusal 3) in
  fst (@read_uint32 bench_constants E 10 0x80 None true power_on)
  = Throw (runtime_error (ReadResponseCode 3)) /\
  fst (@write_uint32 bench_constants E 10 0x80 5 None true true power_on)
  = Throw (runtime_error (WriteResponseCode 0x80 5 3)).
Proof.
  intros E.
  destruct (@response_code_error_is_not_retried bench_constants E 9 0x80 5 None
              true true power_on 3 eq_refl) as (Hr & Hw).
  - discriminate.
  - split.
    + erewrite Hr; [reflexivity|vm_compute; reflexivity].
    + erewrite Hw; [reflexivity|vm_compute; reflexivity].
Defined.

Lemma read_uint32_decodes_reply_witness :
  let E := bench (fun _ => 7) attentive 0 in
  fst (@read_uint32 bench_constants E 10 0x80 None true power_on) = Ok 7.
Proof.
  intros E.
  erewrite (@read_uint32_decodes_reply bench_constants E 9 0x80 None true
              power_on version_reply 0 0x80 7 0x100 []).
  - reflexivity.
  - reflexivity.
  - vm_compute. reflexivity.
  - reflexivity.
Defined.

Lemma write_uint32_timeout_after_retries_witness :
  let E := bench (fun _ => 0) deaf 7 in
  let w' := snd (@write_uint32 bench_constants E 10 0x80 5 None true true
                   power_on) in
  exists n : nat, (1 <= n)%nat /\ sequence_ w' = u16 (0x100 + Z.of_nat n).
Proof.
  intros E w'.
  destruct (@write_uint32_timeout_after_retries bench_constants E 10 0x80 5
              None true power_on (WriteTimeout 0x80 5) w' eq_refl)
    as (_ & _ & n & frames & Hn & _ & _ & _ & Hs).
  - vm_compute. reflexivity.
  - exists n. split; assumption.
Defined.

Lemma write_uint32_with_retry_returns_true_witness :
  let E := bench (fun _ => 0) attentive 0 in
  fst (@write_uint32 bench_constants E 10 0x80 5 None true true power_on)
  = Ok true.
Proof.
  intros E.
  destruct (@write_uint32 bench_constants E 10 0x80 5 None true true power_on)
    as [o w'] eqn:H.
  assert (Ho : o = Ok match o with Ok status => status | _ => false end)
    by (vm_compute in H; inversion H; reflexivity).
  rewrite Ho in H |- *. cbn [fst]. f_equal.
  exact (@write_uint32_with_retry_returns_true bench_constants E 10 0x80 5 None
           true power_on _ w' eq_refl H).
Defined.

Lemma write_uint32_without_retry_is_single_witness :
  let E := bench (fun _ => 0) deaf 7 in
  let r := @write_uint32 bench_constants E 10 0x80 5 None false true power_on in
  (events (snd r) = [] \/
   events (snd r) = [Sent [0x04; 3; 1; 0; 0; 0; 0; 0; 0; 0x80; 0; 0; 0; 5]]) /\
  forall x, fst r <> Throw (TimeoutError x).
Proof.
  intros E r.
  apply (@write_uint32_without_retry_is_single bench_constants E 10 0x80 5 None
           true power_on (fst r) (snd r)).
  apply surjective_pairing.
Defined.

Lemma payload_word_round_trip_witness :
  le_bytes (I2c.payload_word [1; 2; 3; 4; 5; 6] 4) = [5; 6; 0; 0] /\
  at_ [1; 2; 3; 4; 5; 6] (4 + 2) = 0.
Proof.
  destruct (payload_word_round_trip [1; 2; 3; 4; 5; 6] 4) as (Hw & Hz).
  - repeat constructor; lia.
  - lia.
  - split; [exact Hw|]. apply Hz; [vm_compute; discriminate|lia].
Defined.

Lemma i2c_arguments_are_checked_first_witness :
  let E := bench (fun _ => 0) attentive 0 in
  exists e,
    @I2c.i2c_transaction bench_constants E 10 (I2c.new 0x04000000) 0x80 [1; 2]
      0 None power_on
    = (Throw (runtime_error e), power_on) /\
    error_kind (runtime_error e) = InvalidArgument.
Proof.
  intros E.
  apply (@i2c_arguments_are_checked_first bench_constants E 10
           (I2c.new 0x04000000) 0x80 [1; 2] 0 None power_on).
  left. lia.
Defined.

Lemma spi_transaction_result_length_witness :
  let E := bench (fun _ => 0) attentive 0 in
  let r := @Spi.spi_transaction bench_constants E 10 (Spi.new 0x03000000 0)
             [0x9F] [] 3 None power_on in
  fst r = Ok [0; 0; 0] /\ length [0; 0; 0] = Z.to_nat 3.
Proof.
  intros E r.
  assert (H : r = (Ok [0; 0; 0], snd r)) by (vm_compute; reflexivity).
  split; [rewrite H; reflexivity|].
  destruct (@spi_transaction_result_length bench_constants E 10
              (Spi.new 0x03000000 0) [0x9F] [] 3 None power_on [0; 0; 0]
              (snd r))
    as (Hl & _).
  - lia.
  - exact H.
  - exact Hl.
Defined.

Lemma get_spi_unknown_width_is_single_witness :
  Spi.get_spi 0x03000000 1 4 0 0 8 power_on
  = Spi.get_spi 0x03000000 1 4 0 0 1 power_on.
Proof.
  apply (get_spi_unknown_width_is_single 0x03000000 1 4 0 0 8 power_on);
    discriminate.
Defined.

Lemma get_spi_configuration_layout_witness :
  exists spi,
    Spi.get_spi 0x03000000 5 9 1 0 4 power_on = (Ok spi, power_on) /\
    Spi.reg_control_ spi = u32 0x03000000 /\
    Z.land (Spi.spi_cfg_ spi) 0xF = 9 /\
    Z.testbit (Spi.spi_cfg_ spi) 4 = negb (1 =? 0) /\
    Z.testbit (Spi.spi_cfg_ spi) 5 = negb (0 =? 0) /\
    Z.land (Z.shiftr (Spi.spi_cfg_ spi) 8) 3
    = (if 4 =? 1 then 0 else if 4 =? 2 then 2 else 3) /\
    Z.land (Z.shiftr (Spi.spi_cfg_ spi) 12) 7 = 5.
Proof.
  apply (get_spi_configuration_layout 0x03000000 5 9 1 0 4 power_on).
  - lia.
  - lia.
  - right. right. reflexivity.
Defined.

Lemma gpio_bit_helpers_witness :
  GPIO.read_bit (GPIO.set_bit 0x50 3) 3 = 1 /\
  GPIO.read_bit (GPIO.clear_bit 0x58 3) 3 = 0.
Proof.
  destruct (gpio_bit_helpers 0x50 3) as (Hs & _); [lia|].
  destruct (gpio_bit_helpers 0x58 3) as (_ & Hc & _); [lia|].
  split; assumption.
Defined.

Lemma gpio_invalid_pin_is_refused_witness :
  let E := bench (fun _ => 0) attentive 0 in
  @GPIO.get_value bench_constants E 10 (GPIO.mk 16) 16 power_on
  = (Throw (runtime_error (GpioInvalidPin 16)), power_on).
Proof.
  intros E.
  destruct (@gpio_invalid_pin_is_refused bench_constants E 10 (GPIO.mk 16) 16
              0 0 power_on) as (_ & _ & _ & H).
  - simpl. lia.
  - exact H.
Defined.

Lemma gpio_set_direction_invalid_direction_witness :
  let E := bench (fun _ => 0) attentive 0 in
  fst (@GPIO.set_direction bench_constants E 10 (GPIO.mk 16) 3 7 power_on)
  = Throw (runtime_error (GpioInvalidDirection 3 7)).
Proof.
  intros E.
  erewrite (@gpio_set_direction_invalid_direction bench_constants E 10
              (GPIO.mk 16) 3 7 power_on).
  - reflexivity.
  - reflexivity.
  - discriminate.
  - discriminate.
  - vm_compute. reflexivity.
Defined.

Lemma gpio_set_value_invalid_value_witness :
  let E := bench (fun _ => 0) attentive 0 in
  fst (@GPIO.set_value bench_constants E 10 (GPIO.mk 16) 3 7 power_on)
  = Throw (runtime_error (GpioInvalidValue 3 7)).
Proof.
  intros E.
  erewrite (@gpio_set_value_invalid_value bench_constants E 10 (GPIO.mk 16) 3 7
              power_on).
  - reflexivity.
  - reflexivity.
  - discriminate.
  - discriminate.
  - vm_compute. reflexivity.
  - vm_compute. reflexivity.
Defined.

Lemma faulty_listener_discreet (E : Environment) faulty :
  discreet (@controller_reset (with_listeners E (faulty_listener faulty))).
Proof.
  intros c w o w' H. cbn in H. unfold faulty_listener in H.
  destruct (c =? faulty)%nat; inversion H; subst; auto.
Qed.

Lemma reset_stops_at_failing_listener_witness :
  let E := with_listeners (bench (fun _ => 0) resetting_device 0)
             (faulty_listener 1) in
  let r := @reset bench_constants E 10 (mkWorld 0x100 [3; 1; 2]%nat 0 []) in
  fst r = Throw bad_optional_access /\
  exists called rest,
    [3; 1; 2]%nat = called ++ rest /\
    reset_calls (events (snd r)) = rev called ++ [] /\
    (called <> [] -> exists before c, called = before ++ [c]).
Proof.
  intros E r.
  assert (H : r = (Throw bad_optional_access, snd r)) by (vm_compute; reflexivity).
  split; [rewrite H; reflexivity|].
  destruct (@reset_stops_at_failing_listener bench_constants E 10
              (mkWorld 0x100 [3; 1; 2]%nat 0 []) (Throw bad_optional_access)
              (snd r))
    as (called & rest & H1 & H2 & _ & _ & H5).
  - apply faulty_listener_discreet.
  - exact H.
  - exists called, rest. split; [exact H1|]. split; [exact H2|].
    intros Hc. destruct (H5 Hc) as (before & c & _ & Hb & _); [discriminate|].
    eauto.
Defined.

Lemma ptp_synchronize_verdict_witness :
  let E := bench (fun _ => 0) deaf 0 in
  let r := @ptp_synchronize bench_constants E 10 0x104 true tt power_on in
  fst r = Ok false /\
  @expired E tt (events (snd r)) (now (snd r) - 1) = true.
Proof.
  intros E r.
  assert (H : r = (Ok false, snd r)) by (vm_compute; reflexivity).
  split; [rewrite H; reflexivity|].
  destruct (@ptp_synchronize_verdict bench_constants E 0x104 true tt 10
              power_on (Ok false) (snd r) H) as (_ & Hx & _).
  exact (Hx eq_refl).
Defined.

Lemma and_or_uint32_read_then_write_witness :
  let E := bench (fun _ => 0xF0) attentive 0 in
  let r := @or_uint32 bench_constants E 10 0x80 0x0F power_on in
  fst r = Ok true /\
  exists (n m : nat) (value : Z),
    events (snd r)
    = (Sent <$> rev (@write_attempt_frames bench_constants true 0x80
                       (Z.lor value 0x0F) (advance 0x100 n) m))
      ++ (Sent <$> rev (@attempt_frames bench_constants true 0x80 0x100 n))
      ++ [] /\
    (1 <= n)%nat /\ (1 <= m)%nat.
Proof.
  intros E r.
  assert (H : r = (Ok true, snd r)) by (vm_compute; reflexivity).
  split; [rewrite H; reflexivity|].
  destruct (proj2 (@and_or_uint32_read_then_write bench_constants E 10 0x80
                     0x0F power_on (Ok true) (snd r) eq_refl) H)
    as (n & m & value & He & _ & Ho).
  exists n, m, value. split; [exact He|].
  destruct (Ho true eq_refl) as (_ & Hn & Hm). split; assumption.
Defined.

Lemma same_serial_number_same_object_witness :
  let L := bench_lookups in
  let r := @Registry.from_enumeration_metadata L first_sighting
             nothing_registered in
  let later := @enumerations L [other_sighting; second_sighting] (snd r) in
  @Registry.from_enumeration_metadata L second_sighting later
  = (inr (Registry.mkHololink 0 "192.168.0.2" 8192 "SN1" true), later).
Proof.
  intros L r later.
  assert (H : r = (inr (Registry.mkHololink 0 "192.168.0.2" 8192 "SN1" true),
                   snd r)) by reflexivity.
  destruct (@same_serial_number_same_object L first_sighting second_sighting
              nothing_registered _ (snd r) H eq_refl) as (_ & _ & Hlater).
  exact (Hlater [other_sighting; second_sighting]).
Defined.

Lemma enumerated_metadata_is_accepted_witness :
  let L := bench_lookups in
  (exists h st',
     @Registry.from_enumeration_metadata L first_sighting nothing_registered
     = (inr h, st')) /\
  @Registry.enumerated L second_sighting = false.
Proof.
  intros L. split.
  - apply (proj1 (@enumerated_metadata_is_accepted L first_sighting
                    nothing_registered)).
    reflexivity.
  - apply (proj2 (@enumerated_metadata_is_accepted L second_sighting
                    nothing_registered) Registry.NoControlPort
             nothing_registered).
    reflexivity.
Defined.

Lemma new_object_fields_witness :
  let L := bench_lookups in
  exists h,
    fst (@Registry.from_enumeration_metadata L first_sighting
           nothing_registered) = inr h /\
    Registry.identity h = 0%nat /\ Registry.control_port_ h = 8192 mod 2 ^ 32 /\
    Registry.sequence_number_checking_ h = true.
Proof.
  intros L.
  destruct (@new_object_fields L first_sighting nothing_registered
              "SN1" "192.168.0.2" 8192 eq_refl eq_refl eq_refl eq_refl)
    as (h & H1 & H2 & _ & _ & H5 & H6).
  exists h. rewrite H1. split; [reflexivity|]. split; [exact H2|].
  split; [exact H5|].
  destruct (Registry.sequence_number_checking_ h); [reflexivity|].
  destruct H6 as (H6 & _). discriminate (H6 eq_refl).
Defined.

Lemma reset_framework_forgets_every_device_witness :
  let L := bench_lookups in
  let st := snd (@Registry.from_enumeration_metadata L first_sighting
                   nothing_registered) in
  exists h st',
    @Registry.from_enumeration_metadata L first_sighting
      (Registry.reset_framework st) = (inr h, st') /\
    Registry.identity h = 1%nat.
Proof.
  intros L st.
  destruct (reset_framework_forgets_every_device st) as (_ & Hn).
  pose (r := @Registry.from_enumeration_metadata L first_sighting
               (Registry.reset_framework st)).
  assert (H : r = (inr (Registry.mkHololink 1 "192.168.0.2" 8192 "SN1" true),
                   snd r)) by (vm_compute; reflexivity).
  eexists _, (snd r). split; [exact H|].
  exact (proj1 (Hn first_sighting _ _ H)).
Defined.

Lemma deserialize_metadata_needs_48_bytes_witness :
  deserialize_metadata (replicate 47 0) = None /\
  (flags <$> deserialize_metadata (seqZ 0 50)) = Some 0x00010203.
Proof.
  split.
  - apply (proj1 (deserialize_metadata_needs_48_bytes (replicate 47 0))).
    simpl. lia.
  - rewrite (proj2 (deserialize_metadata_needs_48_bytes (seqZ 0 50)));
      [reflexivity|vm_compute; lia].
Defined.

Lemma payload_is_written_word_by_word_witness :
  let E := bench (fun _ => 0) attentive 0 in
  @I2c.write_payload bench_constants E 10 5 0x04000010 [1; 2; 3; 4; 5] tt 0
    power_on
  = @write_many bench_constants E 10 tt
      [(0x04000010, 0x04030201); (0x04000014, 0x00000005)] power_on.
Proof.
  intros E.
  exact (proj1 (@payload_is_written_word_by_word bench_constants E 10
                  0x04000010 [1; 2; 3; 4; 5] tt power_on)).
Defined.
